(** * MATE invest applet: market-data acquisition and chart rendering

    A shallow embedding of the two response handlers
    ([on_chart_data_received], [on_stock_data_received]), of the fetch
    starters and of the chart draw callback, followed by the properties the
    specification states about them.

    Conventions.
    - A C pointer that may be NULL is an [option]; a heap array is a [list]
      (a NULL array and a zero-length allocation are both [[]]).
    - [gint] and [gint64] values are [Z]; [gdouble] values are IEEE binary64
      numbers ([float], with the primitive operations of the kernel).
    - A computation that reads or writes an array element outside the
      allocation has no defined behaviour in C: it is the result [None] of
      the [option] monad that threads every array access. *)

From Stdlib Require Import ZArith Floats Uint63.
From stdpp Require Import base option list strings.

Local Open Scope Z_scope.
Set Warnings "-inexact-float".

(** ** JSON documents and the json-glib accessors the handlers call *)

Local Unset Elimination Schemes.

Inductive JsonNode : Type :=
| JNull
| JBool (b : bool)
| JInt (n : Z)
| JDouble (d : float)
| JString (s : string)
| JArray (elems : list JsonNode)
| JObject (members : list (string * JsonNode)).

Local Set Elimination Schemes.

(** The runtime type tags [json_node_get_value_type] can report. *)
Inductive GType : Type :=
| G_TYPE_INVALID
| G_TYPE_BOOLEAN
| G_TYPE_INT64
| G_TYPE_DOUBLE
| G_TYPE_STRING
| JSON_TYPE_OBJECT
| JSON_TYPE_ARRAY.

Definition GType_eqb (a b : GType) : bool :=
  match a, b with
  | G_TYPE_INVALID, G_TYPE_INVALID
  | G_TYPE_BOOLEAN, G_TYPE_BOOLEAN
  | G_TYPE_INT64, G_TYPE_INT64
  | G_TYPE_DOUBLE, G_TYPE_DOUBLE
  | G_TYPE_STRING, G_TYPE_STRING
  | JSON_TYPE_OBJECT, JSON_TYPE_OBJECT
  | JSON_TYPE_ARRAY, JSON_TYPE_ARRAY => true
  | _, _ => false
  end.

(** [JsonObject *] and [JsonArray *]: NULL is [None]. *)
Definition JsonObject : Type := option (list (string * JsonNode)).
Definition JsonArray : Type := option (list JsonNode).

(** Conversion of a C integer to [gdouble] (round to nearest, exact below
    2^53). *)
Definition Z2F (z : Z) : float :=
  if z =? - 2 ^ 63 then (- 0x1p63)%float
  else if z <? 0 then (- PrimFloat.of_uint63 (Uint63.of_Z (- z)))%float
  else PrimFloat.of_uint63 (Uint63.of_Z z).

Module JsonGlib.

(** Member lookup inside an object; the first binding of a name wins. *)
Fixpoint object_get_member (members : list (string * JsonNode)) (name : string)
  : option JsonNode :=
  match members with
  | [] => None
  | (k, v) :: rest => if String.eqb k name then Some v else object_get_member rest name
  end.

(** [json_node_get_object]: NULL for a NULL node and for a node that does
    not hold an object. *)
Definition json_node_get_object (node : option JsonNode) : JsonObject :=
  match node with
  | Some (JObject members) => Some members
  | _ => None
  end.

(** [json_object_has_member]: FALSE on a NULL object. *)
Definition json_object_has_member (obj : JsonObject) (name : string) : bool :=
  match obj with
  | Some members => bool_decide (is_Some (object_get_member members name))
  | None => false
  end.

Definition json_object_get_member (obj : JsonObject) (name : string) : option JsonNode :=
  match obj with
  | Some members => object_get_member members name
  | None => None
  end.

(** [json_object_get_object_member]: NULL when the member is missing, is
    the JSON null, or holds anything but an object. *)
Definition json_object_get_object_member (obj : JsonObject) (name : string) : JsonObject :=
  match json_object_get_member obj name with
  | Some (JObject members) => Some members
  | _ => None
  end.

(** [json_object_get_array_member]: NULL unless the member holds an array. *)
Definition json_object_get_array_member (obj : JsonObject) (name : string) : JsonArray :=
  match json_object_get_member obj name with
  | Some (JArray elems) => Some elems
  | _ => None
  end.

(** [json_object_get_null_member]: TRUE exactly on a member holding the
    JSON null. *)
Definition json_object_get_null_member (obj : JsonObject) (name : string) : bool :=
  match json_object_get_member obj name with
  | Some JNull => true
  | _ => false
  end.

(** [json_array_get_length]: 0 on a NULL array.  A response array is taken
    to have fewer than 2^31 elements, so the [guint] fits the [gint] the
    callers store it in. *)
Definition json_array_get_length (arr : JsonArray) : nat :=
  match arr with
  | Some elems => length elems
  | None => 0%nat
  end.

Definition json_array_get_element (arr : JsonArray) (i : nat) : option JsonNode :=
  match arr with
  | Some elems => elems !! i
  | None => None
  end.

(** [json_array_get_object_element]: NULL unless the element holds an
    object. *)
Definition json_array_get_object_element (arr : JsonArray) (i : nat) : JsonObject :=
  match json_array_get_element arr i with
  | Some (JObject members) => Some members
  | _ => None
  end.

Definition json_node_get_value_type (node : option JsonNode) : GType :=
  match node with
  | Some (JBool _) => G_TYPE_BOOLEAN
  | Some (JInt _) => G_TYPE_INT64
  | Some (JDouble _) => G_TYPE_DOUBLE
  | Some (JString _) => G_TYPE_STRING
  | Some (JArray _) => JSON_TYPE_ARRAY
  | Some (JObject _) => JSON_TYPE_OBJECT
  | Some JNull | None => G_TYPE_INVALID
  end.

(** [json_node_get_int] on an integer or boolean value.  The conversion
    it applies to a double is left out: the one call in this program is
    guarded by the [G_TYPE_INT64] test. *)
Definition json_node_get_int (node : option JsonNode) : Z :=
  match node with
  | Some (JInt n) => n
  | Some (JBool b) => if b then 1 else 0
  | _ => 0
  end.

(** [json_node_get_double]: the value of a double, the conversion of an
    integer or a boolean, 0.0 otherwise. *)
Definition json_node_get_double (node : option JsonNode) : float :=
  match node with
  | Some (JDouble d) => d
  | Some (JInt n) => Z2F n
  | Some (JBool b) => if b then 1%float else 0%float
  | _ => 0%float
  end.

(** [json_object_get_double_member]: 0.0 on a NULL object, a missing or
    null member or a member that is not a value. *)
Definition json_object_get_double_member (obj : JsonObject) (name : string) : float :=
  json_node_get_double (json_object_get_member obj name).

End JsonGlib.

(** ** HTTP completions *)

Definition SOUP_STATUS_OK : Z := 200.

(** What a completion callback reads of its [SoupMessage]: the status and
    what [json_parser_load_from_data] makes of the response body
    ([None]: the body is not JSON; [Some None]: an empty document, whose
    root node is NULL). *)
Record SoupMessage : Type := {
  status_code : Z;
  response_json : option (option JsonNode)
}.

(** ** Heap arrays *)

(** [a[i]] as an rvalue and [a[i] = x]: defined only inside the allocation. *)
Definition array_get {A : Type} (a : list A) (i : Z) : option A :=
  if i <? 0 then None else a !! Z.to_nat i.

Definition array_set {A : Type} (a : list A) (i : Z) (x : A) : option (list A) :=
  if (0 <=? i) && (i <? Z.of_nat (length a)) then Some (<[Z.to_nat i := x]> a) else None.

(** A [for] loop whose body may fault, threading the loop state. *)
Fixpoint for_each {S A : Type} (body : A -> S -> option S) (l : list A) (s : S) : option S :=
  match l with
  | [] => Some s
  | x :: rest => s ← body x s; for_each body rest s
  end.

(** Wrap-around of [gint64] arithmetic. *)
Definition int64 (z : Z) : Z := (z + 2 ^ 63) mod 2 ^ 64 - 2 ^ 63.

Definition G_MAXINT64 : Z := 2 ^ 63 - 1.
Definition G_MININT64 : Z := - 2 ^ 63.
(** [G_MAXDOUBLE] is [DBL_MAX]; [G_MINDOUBLE] is [DBL_MIN], the smallest
    positive normalised double. *)
Definition G_MAXDOUBLE : float := 0x1.fffffffffffffp1023%float.
Definition G_MINDOUBLE : float := 0x1p-1022%float.

(** The [MIN] and [MAX] macros of GLib, on doubles and on integers. *)
Definition MIN (a b : float) : float := if (a <? b)%float then a else b.
Definition MAX (a b : float) : float := if (b <? a)%float then a else b.
Definition MINZ (a b : Z) : Z := if a <? b then a else b.
Definition MAXZ (a b : Z) : Z := if b <? a then a else b.

(** ** The chart: data model, fetch starter and completion handler *)

Module Chart.
Import JsonGlib.

(** [struct _StockChartData]. *)
Record StockChartData : Type := {
  symbol : string;
  prices : list float;
  timestamps : list Z;
  data_count : Z;
  valid : bool
}.

(** [struct _InvestChart].  [chart_data] stands for the pair
    ([chart_data], [chart_data_count]): the two fields are only assigned
    together, the count being the length of the allocation.  Of the
    windowing layer the model keeps whether the window exists and is
    visible, and how many redraws were requested. *)
Record InvestChart : Type := {
  window_visible : bool;
  redraws_queued : nat;
  chart_data : list StockChartData;
  chart_range : option string;
  chart_interval : option string
}.

Definition chart_data_count (chart : InvestChart) : Z :=
  Z.of_nat (length (chart_data chart)).

Definition with_chart_data (chart : InvestChart) (data : list StockChartData) : InvestChart :=
  {| window_visible := window_visible chart;
     redraws_queued := redraws_queued chart;
     chart_data := data;
     chart_range := chart_range chart;
     chart_interval := chart_interval chart |}.

(** [if (chart->window && gtk_widget_get_visible (chart->window))
      gtk_widget_queue_draw (chart->window);] *)
Definition queue_draw_if_visible (chart : InvestChart) : InvestChart :=
  if window_visible chart then
    {| window_visible := window_visible chart;
       redraws_queued := S (redraws_queued chart);
       chart_data := chart_data chart;
       chart_range := chart_range chart;
       chart_interval := chart_interval chart |}
  else chart.

Definition invest_chart_new : InvestChart :=
  {| window_visible := false;
     redraws_queued := 0;
     chart_data := [];
     chart_range := Some "1d"%string;
     chart_interval := Some "1m"%string |}.

Definition free_chart_data (chart : InvestChart) : InvestChart :=
  match chart_data chart with
  | [] => chart
  | _ :: _ => with_chart_data chart []
  end.

(** The slot the initialisation loop of [fetch_chart_data] writes. *)
Definition empty_series (sym : string) : StockChartData :=
  {| symbol := sym; prices := []; timestamps := []; data_count := 0; valid := false |}.

(** A queued request: its URL, its [User-Agent] header and the completion
    context [user_data_with_index], which is the chart itself (there is
    one) and the slot index. *)
Record ChartRequest : Type := {
  req_url : string;
  req_user_agent : string;
  req_symbol_index : Z
}.

Definition chart_url (sym interval range : string) : string :=
  ("https://query2.finance.yahoo.com/v8/finance/chart/" ++ sym
     ++ "?interval=" ++ interval ++ "&range=" ++ range)%string.

Definition user_agent : string := "Mozilla/5.0 (X11; Linux x86_64) AppleWebKit/537.36".

(** [fetch_chart_data].  [settings] is what [g_settings_get_strv] returns
    for ["stock-symbols"], [None] when the settings object is missing. *)
Definition fetch_chart_data (settings : option (list string)) (chart : InvestChart)
  : InvestChart * list ChartRequest :=
  match settings with
  | None => (chart, [])
  | Some [] => (chart, [])
  | Some symbols =>
      let chart := free_chart_data chart in
      let chart := with_chart_data chart (empty_series <$> symbols) in
      let chart := queue_draw_if_visible chart in
      let range := default "1d"%string (chart_range chart) in
      let interval := default "1m"%string (chart_interval chart) in
      (chart,
       imap (fun i sym => {| req_url := chart_url sym interval range;
                             req_user_agent := user_agent;
                             req_symbol_index := Z.of_nat i |}) symbols)
  end.

(** [chart_range_button_clicked], for a button that carries both data. *)
Definition chart_range_button_clicked (range interval : string)
    (settings : option (list string)) (chart : InvestChart)
  : InvestChart * list ChartRequest :=
  fetch_chart_data settings
    {| window_visible := window_visible chart;
       redraws_queued := redraws_queued chart;
       chart_data := chart_data chart;
       chart_range := Some range;
       chart_interval := Some interval |}.

(** The copy loop over the timestamp array, on the zero-filled
    allocation of [timestamp_count] cells. *)
Definition copy_timestamps (timestamps : JsonArray) (timestamp_count : nat) : list Z :=
  fold_left
    (fun out i =>
       let timestamp_node := json_array_get_element timestamps i in
       if GType_eqb (json_node_get_value_type timestamp_node) G_TYPE_INT64
       then <[i := json_node_get_int timestamp_node]> out
       else out)
    (seq 0 timestamp_count) (replicate timestamp_count 0).

(** The copy loop over the close array. *)
Definition copy_prices (close_prices : JsonArray) (price_count : nat) : list float :=
  fold_left
    (fun out i =>
       let price_node := json_array_get_element close_prices i in
       if GType_eqb (json_node_get_value_type price_node) G_TYPE_DOUBLE
       then <[i := json_node_get_double price_node]> out
       else out)
    (seq 0 price_count) (replicate price_count 0%float).

(** An assignment to fields of [chart->chart_data[symbol_index]]. *)
Definition slot_update (chart : InvestChart) (symbol_index : Z)
    (f : StockChartData -> StockChartData) : option InvestChart :=
  slot ← array_get (chart_data chart) symbol_index;
  data ← array_set (chart_data chart) symbol_index (f slot);
  Some (with_chart_data chart data).

Definition set_timestamps (ts : list Z) (count : Z) (slot : StockChartData) : StockChartData :=
  {| symbol := symbol slot; prices := prices slot; timestamps := ts;
     data_count := count; valid := valid slot |}.

Definition set_prices_valid (ps : list float) (slot : StockChartData) : StockChartData :=
  {| symbol := symbol slot; prices := ps; timestamps := timestamps slot;
     data_count := data_count slot; valid := true |}.

(** "Parse timestamps". *)
Definition parse_timestamps (result : JsonObject) (symbol_index : Z) (chart : InvestChart)
  : option InvestChart :=
  if json_object_has_member result "timestamp" then
    let timestamps := json_object_get_array_member result "timestamp" in
    if bool_decide (is_Some timestamps) then
      let timestamp_count := json_array_get_length timestamps in
      slot_update chart symbol_index
        (set_timestamps (copy_timestamps timestamps timestamp_count)
                        (Z.of_nat timestamp_count))
    else Some chart
  else Some chart.

(** "Parse price data". *)
Definition parse_prices (result : JsonObject) (symbol_index : Z) (chart : InvestChart)
  : option InvestChart :=
  if json_object_has_member result "indicators" then
    let indicators := json_object_get_object_member result "indicators" in
    if json_object_has_member indicators "quote" then
      let quotes := json_object_get_array_member indicators "quote" in
      if bool_decide (is_Some quotes) && (0 <? json_array_get_length quotes)%nat then
        let quote := json_array_get_object_element quotes 0 in
        if bool_decide (is_Some quote) && json_object_has_member quote "close" then
          let close_prices := json_object_get_array_member quote "close" in
          if bool_decide (is_Some close_prices) then
            let price_count := json_array_get_length close_prices in
            slot_update chart symbol_index
              (set_prices_valid (copy_prices close_prices price_count))
          else Some chart
        else Some chart
      else Some chart
    else Some chart
  else Some chart.

(** The walk from the root object down to [chart.result[0]]. *)
Definition parse_chart_json (root_obj : JsonObject) (symbol_index : Z) (chart : InvestChart)
  : option InvestChart :=
  if json_object_has_member root_obj "chart" then
    let chart_obj := json_object_get_object_member root_obj "chart" in
    if json_object_has_member chart_obj "result"
       && negb (json_object_get_null_member chart_obj "result") then
      let results := json_object_get_array_member chart_obj "result" in
      if bool_decide (is_Some results) && (0 <? json_array_get_length results)%nat then
        let result := json_array_get_object_element results 0 in
        if bool_decide (is_Some result) then
          chart ← parse_timestamps result symbol_index chart;
          parse_prices result symbol_index chart
        else Some chart
      else Some chart
    else Some chart
  else Some chart.

(** [on_chart_data_received]: [symbol_index] is the integer of the
    completion context.  Both [goto cleanup] exits leave the data alone;
    every exit requests a redraw of a visible window. *)
Definition on_chart_data_received (msg : SoupMessage) (symbol_index : Z)
    (chart : InvestChart) : option InvestChart :=
  chart ←
    (if negb (status_code msg =? SOUP_STATUS_OK) then Some chart
     else match response_json msg with
          | None => Some chart
          | Some root =>
              let root_obj := json_node_get_object root in
              parse_chart_json root_obj symbol_index chart
          end);
  Some (queue_draw_if_visible chart).

End Chart.

(** ** The chart: the draw callback *)

Module Draw.
Import Chart.

Inductive TimeFormat : Type := HourMinute | MonthDay | MonthYear.

(** The texts shown.  A fixed message is its (untranslated) string; a
    formatted text is kept as the format used and its arguments. *)
Inductive Text : Type :=
| Message (s : string)
| PriceText (price : float)                    (* "%.2f" *)
| TimeText (fmt : TimeFormat) (time : Z)       (* local time of [time] *)
| LegendText (sym : string) (price : float).   (* "%s: $%.2f" *)

(** The cairo calls of a draw pass, in order. *)
Inductive DrawCmd : Type :=
| SetSourceRgb (r g b : float)
| SetSourceColor (spec : string)   (* gdk_rgba_parse, gdk_cairo_set_source_rgba *)
| Paint
| SetLineWidth (w : float)
| SelectFontSans
| SetFontSize (size : float)
| MoveTo (x y : float)
| LineTo (x y : float)
| Stroke
| ShowText (t : Text).

Definition draw_loading_message (width height : Z) (message : string) : list DrawCmd :=
  [ SetSourceRgb 0 0 0; SelectFontSans; SetFontSize 16;
    MoveTo (Z2F (width ÷ 2 - 50)) (Z2F (height ÷ 2));
    ShowText (Message message) ].

(** "Clear background". *)
Definition clear_background : list DrawCmd := [ SetSourceRgb 1 1 1; Paint ].

Definition qualifies (slot : StockChartData) : bool :=
  valid slot && (0 <? data_count slot).

(** "Check if we have any valid data to display". *)
Definition has_valid_data (chart : InvestChart) : bool :=
  existsb qualifies (chart_data chart).

Record Ranges : Type := {
  min_price : float;
  max_price : float;
  min_time : Z;
  max_time : Z
}.

Definition initial_ranges : Ranges :=
  {| min_price := G_MAXDOUBLE; max_price := G_MINDOUBLE;
     min_time := G_MAXINT64; max_time := G_MININT64 |}.

(** Body of the inner loop over the points of one series. *)
Definition scan_price (slot : StockChartData) (j : Z) (r : Ranges) : option Ranges :=
  p ← array_get (prices slot) j;
  if (0 <? p)%float then
    Some {| min_price := MIN (min_price r) p; max_price := MAX (max_price r) p;
            min_time := min_time r; max_time := max_time r |}
  else Some r.

(** Body of the outer loop "Find min/max prices". *)
Definition scan_series (slot : StockChartData) (r : Ranges) : option Ranges :=
  if qualifies slot then
    r ← for_each (scan_price slot) (seqZ 0 (data_count slot)) r;
    first ← array_get (timestamps slot) 0;
    if 0 <? first then
      last ← array_get (timestamps slot) (data_count slot - 1);
      if (0 <? last) && (first <? 9999999999) then
        Some {| min_price := min_price r; max_price := max_price r;
                min_time := MINZ (min_time r) first; max_time := MAXZ (max_time r) last |}
      else Some r
    else Some r
  else Some r.

Definition find_ranges (chart : InvestChart) : option Ranges :=
  for_each scan_series (chart_data chart) initial_ranges.

Definition ranges_missing (r : Ranges) : bool :=
  (min_price r =? G_MAXDOUBLE)%float || (max_price r =? G_MINDOUBLE)%float
  || (min_time r =? G_MAXINT64) || (max_time r =? G_MININT64).

(** "Add some padding to price range". *)
Definition pad_prices (r : Ranges) : Ranges :=
  let price_range := (max_price r - min_price r)%float in
  {| min_price := (min_price r - price_range * 0.05)%float;
     max_price := (max_price r + price_range * 0.05)%float;
     min_time := min_time r; max_time := max_time r |}.

(** The eleven positions [50 + (gdouble)i * (extent - 100) / 10],
    [i = 0 .. 10], of the two grid loops. *)
Definition grid_position (extent : Z) (i : Z) : float :=
  (50 + Z2F i * Z2F (extent - 100) / 10)%float.

Definition horizontal_grid_line (width height : Z) (i : Z) : list DrawCmd :=
  let y := grid_position height i in
  [ MoveTo 50 y; LineTo (Z2F (width - 50)) y; Stroke ].

Definition vertical_grid_line (width height : Z) (i : Z) : list DrawCmd :=
  let x := grid_position width i in
  [ MoveTo x 50; LineTo x (Z2F (height - 50)); Stroke ].

(** "Draw grid": both loops run [for (i = 0; i <= 10; i++)]. *)
Definition draw_grid (width height : Z) : list DrawCmd :=
  [ SetSourceRgb 0.9 0.9 0.9; SetLineWidth 1 ]
  ++ flat_map (horizontal_grid_line width height) (seqZ 0 11)
  ++ flat_map (vertical_grid_line width height) (seqZ 0 11).

(** "Draw price labels". *)
Definition draw_price_label (height : Z) (r : Ranges) (i : Z) : list DrawCmd :=
  let price := (max_price r - Z2F i * (max_price r - min_price r) / 5)%float in
  let y := (50 + Z2F i * Z2F (height - 100) / 5)%float in
  [ MoveTo 5 (y + 3)%float; ShowText (PriceText price) ].

Definition draw_price_labels (height : Z) (r : Ranges) : list DrawCmd :=
  [ SetSourceRgb 0 0 0; SelectFontSans; SetFontSize 10 ]
  ++ flat_map (draw_price_label height r) (seqZ 0 6).

(** "Format based on time range". *)
Definition time_format (range : option string) : TimeFormat :=
  match range with
  | Some r =>
      if String.eqb r "1d" then HourMinute
      else if String.eqb r "5d" || String.eqb r "1mo" || String.eqb r "3mo" then MonthDay
      else MonthYear
  | None => MonthYear
  end.

(** "Draw time labels". *)
Definition draw_time_label (width height : Z) (range : option string) (r : Ranges) (i : Z)
  : list DrawCmd :=
  let time := int64 (min_time r + int64 (i * (max_time r - min_time r)) ÷ 5) in
  let x := (50 + Z2F i * Z2F (width - 100) / 5)%float in
  [ MoveTo (x - 20)%float (Z2F (height - 20)); ShowText (TimeText (time_format range) time) ].

Definition draw_time_labels (width height : Z) (range : option string) (r : Ranges)
  : list DrawCmd :=
  flat_map (draw_time_label width height range r) (seqZ 0 6).

Definition colors : list string :=
  [ "#CC0000"; "#3465A4"; "#73D216"; "#FCE94F";
    "#AD7FA8"; "#F57900"; "#C17D11"; "#555753" ]%string.

Record StockSortInfo : Type := {
  index : Z;
  current_price : float
}.

(** "Collect valid stocks and their current prices for sorting". *)
Definition collect_stock (entry : nat * StockChartData) (info : list StockSortInfo)
  : option (list StockSortInfo) :=
  let '(i, slot) := entry in
  if qualifies slot then
    p ← array_get (prices slot) (data_count slot - 1);
    Some (info ++ [ {| index := Z.of_nat i; current_price := p |} ])
  else Some info.

Definition collect_sort_info (chart : InvestChart) : option (list StockSortInfo) :=
  for_each collect_stock (imap pair (chart_data chart)) [].

(** The body of the innermost sorting loop: exchange cells [i] and [j]
    when the price at [i] is below the price at [j]. *)
Definition swap_if_less (i j : nat) (a : list StockSortInfo) : list StockSortInfo :=
  match a !! i, a !! j with
  | Some x, Some y =>
      if (current_price x <? current_price y)%float then <[j := x]> (<[i := y]> a) else a
  | _, _ => a
  end.

(** [for (j = i + 1; j < valid_count; j++)]. *)
Definition sort_pass (valid_count i : nat) (a : list StockSortInfo) : list StockSortInfo :=
  fold_left (fun a j => swap_if_less i j a) (seq (S i) (valid_count - S i)) a.

(** "Sort by current price (highest to lowest)":
    [for (i = 0; i < valid_count - 1; i++)]. *)
Definition sort_by_price (a : list StockSortInfo) : list StockSortInfo :=
  let valid_count := length a in
  fold_left (fun a i => sort_pass valid_count i a) (seq 0 (valid_count - 1)) a.

(** Body of the loop "Draw price line": the commands so far and
    [first_point]. *)
Definition draw_point (width : Z) (r : Ranges) (y_scale : float) (slot : StockChartData)
    (j : Z) (st : list DrawCmd * bool) : option (list DrawCmd * bool) :=
  let '(cmds, first_point) := st in
  p ← array_get (prices slot) j;
  if (0 <? p)%float then
    t ← array_get (timestamps slot) j;
    if (0 <? t) && (t <? 9999999999) then
      let x := (50 + Z2F j * Z2F (width - 100) / Z2F (data_count slot - 1))%float in
      let y := (50 + (max_price r - p) * y_scale)%float in
      if first_point then Some (cmds ++ [ MoveTo x y ], false)
      else Some (cmds ++ [ LineTo x y ], false)
    else Some st
  else Some st.

(** Body of the loop "Draw lines and legend in sorted order". *)
Definition draw_stock (width : Z) (r : Ranges) (y_scale : float) (chart : InvestChart)
    (entry : nat * StockSortInfo) (cmds : list DrawCmd) : option (list DrawCmd) :=
  let '(i, info) := entry in
  let stock_index := index info in
  let color_idx := (i mod length colors)%nat in
  slot ← array_get (chart_data chart) stock_index;
  '(line, _) ← for_each (draw_point width r y_scale slot) (seqZ 0 (data_count slot)) ([], true);
  current_price ← array_get (prices slot) (data_count slot - 1);
  Some (cmds
          ++ [ SetSourceColor (default ""%string (colors !! color_idx)); SetLineWidth 2 ]
          ++ line ++ [ Stroke ]
          ++ [ MoveTo (Z2F (width - 200)) (Z2F (30 + Z.of_nat i * 20));
               ShowText (LegendText (symbol slot) current_price) ]).

Definition draw_stocks (width : Z) (r : Ranges) (y_scale : float) (chart : InvestChart)
    (sort_info : list StockSortInfo) : option (list DrawCmd) :=
  for_each (draw_stock width r y_scale chart) (imap pair sort_info) [].

(** [chart_draw_cb], for a drawing area of the given size.  The unused
    local [x_scale] is left out. *)
Definition chart_draw_cb (width height : Z) (chart : InvestChart) : option (list DrawCmd) :=
  if negb (has_valid_data chart) then
    Some (clear_background ++ draw_loading_message width height "Loading chart data...")
  else
    r ← find_ranges chart;
    if ranges_missing r then
      Some (clear_background ++ draw_loading_message width height "No chart data available")
    else
      let r := pad_prices r in
      let y_scale := (Z2F (height - 100) / (max_price r - min_price r))%float in
      sort_info ← collect_sort_info chart;
      let sort_info := sort_by_price sort_info in
      lines ← draw_stocks width r y_scale chart sort_info;
      Some (clear_background
              ++ draw_grid width height
              ++ draw_price_labels height r
              ++ draw_time_labels width height (chart_range chart) r
              ++ lines).

End Draw.

(** ** The panel applet: summary fetch and its completion handler *)

Module Applet.
Import JsonGlib.

(** The text of [stock_summary], which [update_applet_text] also gives
    to the panel label: a fixed message, or the ["%s: $%.2f"] rendering
    of a symbol and its price. *)
Inductive PanelText : Type :=
| PanelMessage (s : string)
| StockText (sym : string) (price : float).

(** One line of the tooltip: ["%s: $%.2f (%.2f%%)"] or ["%s: No data"]. *)
Inductive TooltipLine : Type :=
| QuoteLine (sym : string) (price change : float)
| NoDataLine (sym : string).

Inductive Tooltip : Type :=
| PortfolioSummary (lines : list TooltipLine)
| TooltipMessage (s : string).

(** The fields of [struct _InvestApplet] the handlers use.  A timer id
    is kept as whether the timer is armed; [tooltip] is the text last
    given to [gtk_widget_set_tooltip_text].  The text of the label widget
    is not kept: only [update_applet_text] writes it, with the string it
    stores in [stock_summary], and [free_stock_data] sets [stock_summary]
    to NULL without touching the label. *)
Record InvestApplet : Type := {
  stock_summary : option PanelText;
  change_percent : float;
  tooltip : option Tooltip;
  pending_requests : Z;
  total_symbols : Z;
  stock_symbols : list string;
  stock_prices : list float;
  stock_changes : list float;
  stock_valid : list bool;
  cycle_position : Z;
  cycle_timer_armed : bool
}.

(** The three stores "store individual stock data". *)
Definition store_stock (symbol_index : Z) (current_price change : float)
    (applet : InvestApplet) : option InvestApplet :=
  ps ← array_set (stock_prices applet) symbol_index current_price;
  cs ← array_set (stock_changes applet) symbol_index change;
  vs ← array_set (stock_valid applet) symbol_index true;
  Some {| stock_summary := stock_summary applet;
          change_percent := change_percent applet;
          tooltip := tooltip applet;
          pending_requests := pending_requests applet;
          total_symbols := total_symbols applet;
          stock_symbols := stock_symbols applet;
          stock_prices := ps;
          stock_changes := cs;
          stock_valid := vs;
          cycle_position := cycle_position applet;
          cycle_timer_armed := cycle_timer_armed applet |}.

(** The walk down to [chart.result[0].meta] and the guarded store. *)
Definition parse_stock_json (root_obj : JsonObject) (symbol_index : Z) (applet : InvestApplet)
  : option InvestApplet :=
  if json_object_has_member root_obj "chart" then
    let chart := json_object_get_object_member root_obj "chart" in
    if json_object_has_member chart "result"
       && negb (json_object_get_null_member chart "result") then
      let results := json_object_get_array_member chart "result" in
      if bool_decide (is_Some results) && (0 <? json_array_get_length results)%nat then
        let result := json_array_get_object_element results 0 in
        if bool_decide (is_Some result) then
          let meta := json_object_get_object_member result "meta" in
          if bool_decide (is_Some meta) then
            let current_price := json_object_get_double_member meta "regularMarketPrice" in
            let prev_close := json_object_get_double_member meta "previousClose" in
            if (0 <? current_price)%float && (0 <? prev_close)%float then
              let change_percent :=
                (((current_price - prev_close) / prev_close) * 100)%float in
              store_stock symbol_index current_price change_percent applet
            else Some applet
          else Some applet
        else Some applet
      else Some applet
    else Some applet
  else Some applet.

(** [update_applet_text] (the icon is a function of the two fields). *)
Definition update_applet_text (message : PanelText) (change : float) (applet : InvestApplet)
  : InvestApplet :=
  {| stock_summary := Some message;
     change_percent := change;
     tooltip := tooltip applet;
     pending_requests := pending_requests applet;
     total_symbols := total_symbols applet;
     stock_symbols := stock_symbols applet;
     stock_prices := stock_prices applet;
     stock_changes := stock_changes applet;
     stock_valid := stock_valid applet;
     cycle_position := cycle_position applet;
     cycle_timer_armed := cycle_timer_armed applet |}.

Definition direction_icon (applet : InvestApplet) : string :=
  match stock_summary applet with
  | Some _ =>
      if (0 <? change_percent applet)%float then "invest_up"
      else if (change_percent applet <? 0)%float then "invest_down"
      else "invest_neutral"
  | None => "invest_neutral"
  end.

(** [get_valid_stock_indices]. *)
Definition get_valid_stock_indices (applet : InvestApplet) : option (list Z) :=
  for_each (fun i valid_indices =>
              v ← array_get (stock_valid applet) i;
              Some (if v : bool then valid_indices ++ [i] else valid_indices))
           (seqZ 0 (total_symbols applet)) [].

(** The symbol up to its first ['='], the whole symbol when it has none. *)
Fixpoint before_equals (s : string) : string :=
  match s with
  | EmptyString => EmptyString
  | String c rest =>
      if Ascii.eqb c (Ascii.ascii_of_nat 61) then EmptyString
      else String c (before_equals rest)
  end.

(** [display_stock_at_index]. *)
Definition display_stock_at_index (stock_index : Z) (applet : InvestApplet)
  : option InvestApplet :=
  if (stock_index <? 0) || (total_symbols applet <=? stock_index)
     || bool_decide (stock_symbols applet = []) then Some applet
  else
    sym ← array_get (stock_symbols applet) stock_index;
    price ← array_get (stock_prices applet) stock_index;
    change ← array_get (stock_changes applet) stock_index;
    Some (update_applet_text (StockText (before_equals sym) price) change applet).

(** [create_stock_tooltip]. *)
Definition create_stock_tooltip (applet : InvestApplet) : option Tooltip :=
  '(lines, valid_count) ←
    for_each (fun i (acc : list TooltipLine * Z) =>
                let '(lines, valid_count) := acc in
                v ← array_get (stock_valid applet) i;
                sym ← array_get (stock_symbols applet) i;
                if v : bool then
                  price ← array_get (stock_prices applet) i;
                  change ← array_get (stock_changes applet) i;
                  Some (lines ++ [ QuoteLine sym price change ], valid_count + 1)
                else Some (lines ++ [ NoDataLine sym ], valid_count))
             (seqZ 0 (total_symbols applet)) ([], 0);
  if valid_count =? 0 then Some (TooltipMessage "No valid stock data")
  else Some (PortfolioSummary lines).

Definition set_cycle (position : Z) (armed : bool) (applet : InvestApplet) : InvestApplet :=
  {| stock_summary := stock_summary applet;
     change_percent := change_percent applet;
     tooltip := tooltip applet;
     pending_requests := pending_requests applet;
     total_symbols := total_symbols applet;
     stock_symbols := stock_symbols applet;
     stock_prices := stock_prices applet;
     stock_changes := stock_changes applet;
     stock_valid := stock_valid applet;
     cycle_position := position;
     cycle_timer_armed := armed |}.

Definition set_tooltip (t : Tooltip) (applet : InvestApplet) : InvestApplet :=
  {| stock_summary := stock_summary applet;
     change_percent := change_percent applet;
     tooltip := Some t;
     pending_requests := pending_requests applet;
     total_symbols := total_symbols applet;
     stock_symbols := stock_symbols applet;
     stock_prices := stock_prices applet;
     stock_changes := stock_changes applet;
     stock_valid := stock_valid applet;
     cycle_position := cycle_position applet;
     cycle_timer_armed := cycle_timer_armed applet |}.

Definition set_pending (n : Z) (applet : InvestApplet) : InvestApplet :=
  {| stock_summary := stock_summary applet;
     change_percent := change_percent applet;
     tooltip := tooltip applet;
     pending_requests := n;
     total_symbols := total_symbols applet;
     stock_symbols := stock_symbols applet;
     stock_prices := stock_prices applet;
     stock_changes := stock_changes applet;
     stock_valid := stock_valid applet;
     cycle_position := cycle_position applet;
     cycle_timer_armed := cycle_timer_armed applet |}.

(** The block run when the last pending request has completed. *)
Definition all_requests_done (applet : InvestApplet) : option InvestApplet :=
  if 0 <? total_symbols applet then
    let applet := set_cycle 0 false applet in
    valid_indices ← get_valid_stock_indices applet;
    match valid_indices with
    | first :: others =>
        applet ← display_stock_at_index first applet;
        let applet :=
          if bool_decide (others ≠ []) then set_cycle (cycle_position applet) true applet
          else applet in
        tooltip_text ← create_stock_tooltip applet;
        Some (set_tooltip tooltip_text applet)
    | [] => Some (update_applet_text (PanelMessage "No valid stock data") 0 applet)
    end
  else Some (update_applet_text (PanelMessage "No valid stock data") 0 applet).

(** [on_stock_data_received]. *)
Definition on_stock_data_received (msg : SoupMessage) (symbol_index : Z)
    (applet : InvestApplet) : option InvestApplet :=
  applet ←
    (if negb (status_code msg =? SOUP_STATUS_OK) then Some applet
     else match response_json msg with
          | None => Some applet
          | Some root => parse_stock_json (json_node_get_object root) symbol_index applet
          end);
  let applet := set_pending (pending_requests applet - 1) applet in
  if pending_requests applet =? 0 then all_requests_done applet else Some applet.

(** A queued summary request and its completion context. *)
Record StockRequest : Type := {
  req_url : string;
  req_user_agent : string;
  req_symbol_index : Z
}.

(** [invest_applet_update_stocks]: the early exits, then the allocations
    (every slot starts at 0.0, 0.0, FALSE) and one request per symbol. *)
Definition invest_applet_update_stocks (settings : option (list string))
    (applet : InvestApplet) : InvestApplet * list StockRequest :=
  match settings with
  | None => (applet, [])
  | Some [] => (update_applet_text (PanelMessage "No stocks configured") 0 applet, [])
  | Some symbols =>
      let symbol_count := length symbols in
      ({| stock_summary := None;
          change_percent := change_percent applet;
          tooltip := tooltip applet;
          pending_requests := Z.of_nat symbol_count;
          total_symbols := Z.of_nat symbol_count;
          stock_symbols := symbols;
          stock_prices := replicate symbol_count 0%float;
          stock_changes := replicate symbol_count 0%float;
          stock_valid := replicate symbol_count false;
          cycle_position := 0;
          cycle_timer_armed := false |},
       imap (fun i sym =>
               {| req_url := ("https://query2.finance.yahoo.com/v8/finance/chart/" ++ sym)%string;
                  req_user_agent := Chart.user_agent;
                  req_symbol_index := Z.of_nat i |}) symbols)
  end.

End Applet.

(** ** Vocabulary of the specification *)

(** A position inside a JSON document, as the specification writes it
    ([chart.result[0].timestamp]): member names and array indices. *)
Inductive PathStep : Type :=
| Key (name : string)
| Index (i : nat).

Fixpoint json_path (path : list PathStep) (node : JsonNode) : option JsonNode :=
  match path with
  | [] => Some node
  | Key name :: rest =>
      match node with
      | JObject members => n ← JsonGlib.object_get_member members name; json_path rest n
      | _ => None
      end
  | Index i :: rest =>
      match node with
      | JArray elems => n ← elems !! i; json_path rest n
      | _ => None
      end
  end.

Definition result_path : list PathStep := [ Key "chart"; Key "result"; Index 0 ].
Definition timestamp_path : list PathStep := result_path ++ [ Key "timestamp" ].
Definition close_path : list PathStep :=
  result_path ++ [ Key "indicators"; Key "quote"; Index 0; Key "close" ].
Definition meta_path : list PathStep := result_path ++ [ Key "meta" ].

(** The completion failed: the status is not OK, or the body is not JSON. *)
Definition fetch_failed (msg : SoupMessage) : Prop :=
  status_code msg ≠ SOUP_STATUS_OK ∨ response_json msg = None.

(** The root of a response that arrived with status OK and parsed to a
    document. *)
Definition parsed_root (msg : SoupMessage) : option JsonNode :=
  if status_code msg =? SOUP_STATUS_OK then mjoin (response_json msg) else None.

Definition array_at (path : list PathStep) (msg : SoupMessage) : option (list JsonNode) :=
  root ← parsed_root msg;
  match json_path path root with
  | Some (JArray elems) => Some elems
  | _ => None
  end.

(** The timestamp array and the close array of a response, when present. *)
Definition timestamp_array : SoupMessage -> option (list JsonNode) := array_at timestamp_path.
Definition close_array : SoupMessage -> option (list JsonNode) := array_at close_path.

(** The value a cell of the output arrays takes for an input element: the
    element itself when it has the expected runtime type, the zero the
    allocation was filled with otherwise. *)
Definition int_or_zero (node : JsonNode) : Z :=
  match node with JInt n => n | _ => 0 end.

Definition double_or_zero (node : JsonNode) : float :=
  match node with JDouble d => d | _ => 0%float end.

(** The [meta] object of a summary response and the two prices read from
    it. *)
Definition summary_quote (msg : SoupMessage) : option (float * float) :=
  root ← parsed_root msg;
  match json_path meta_path root with
  | Some (JObject meta) =>
      Some (JsonGlib.json_object_get_double_member (Some meta) "regularMarketPrice",
            JsonGlib.json_object_get_double_member (Some meta) "previousClose")
  | _ => None
  end.

(** The fixed messages and legend rows a draw pass shows, and the stroke
    colours it selects, in drawing order. *)
Definition shown_messages (cmds : list Draw.DrawCmd) : list string :=
  omap (fun c => match c with Draw.ShowText (Draw.Message s) => Some s | _ => None end) cmds.

Definition legend_rows (cmds : list Draw.DrawCmd) : list (string * float) :=
  omap (fun c => match c with
                 | Draw.ShowText (Draw.LegendText sym p) => Some (sym, p)
                 | _ => None
                 end) cmds.

Definition stroke_colors (cmds : list Draw.DrawCmd) : list string :=
  omap (fun c => match c with Draw.SetSourceColor spec => Some spec | _ => None end) cmds.

(** The object at [chart.result[0]], when the document has one. *)
Definition result_object (root : option JsonNode) : JsonObject :=
  match root ≫= json_path result_path with
  | Some (JObject res) => Some res
  | _ => None
  end.

(** The two stores of the handler, in terms of the arrays of the response. *)
Definition store_timestamps (msg : SoupMessage) (i : Z) (chart : Chart.InvestChart)
  : option Chart.InvestChart :=
  match timestamp_array msg with
  | Some elems =>
      Chart.slot_update chart i
        (Chart.set_timestamps (int_or_zero <$> elems) (Z.of_nat (length elems)))
  | None => Some chart
  end.

Definition store_prices (msg : SoupMessage) (i : Z) (chart : Chart.InvestChart)
  : option Chart.InvestChart :=
  match close_array msg with
  | Some closes => Chart.slot_update chart i (Chart.set_prices_valid (double_or_zero <$> closes))
  | None => Some chart
  end.

(** What the handler makes of a slot: the extractor's result for the
    response, written over the slot's previous content. *)
Definition extracted (msg : SoupMessage) (slot : Chart.StockChartData) : Chart.StockChartData :=
  let slot :=
    match timestamp_array msg with
    | Some elems =>
        Chart.set_timestamps (int_or_zero <$> elems) (Z.of_nat (length elems)) slot
    | None => slot
    end in
  match close_array msg with
  | Some closes => Chart.set_prices_valid (double_or_zero <$> closes) slot
  | None => slot
  end.

(** [below x y]: the test of the sorting loop, "the price of [x] is less
    than the price of [y]". *)
Definition below (x y : Draw.StockSortInfo) : bool :=
  (Draw.current_price x <? Draw.current_price y)%float.

(** The qualifying series of a collection, in slot order, each with its
    slot index and its last price (the value at index [data_count - 1]). *)
Definition qualifying_entry (entry : nat * Chart.StockChartData) : option Draw.StockSortInfo :=
  if Draw.qualifies entry.2 then
    p ← array_get (Chart.prices entry.2) (Chart.data_count entry.2 - 1);
    Some {| Draw.index := Z.of_nat entry.1; Draw.current_price := p |}
  else None.

Definition qualifying_series (chart : Chart.InvestChart) : list Draw.StockSortInfo :=
  omap qualifying_entry (imap pair (Chart.chart_data chart)).

(** The symbol of the series in a slot. *)
Definition series_symbol (chart : Chart.InvestChart) (stock_index : Z) : string :=
  default ""%string (Chart.symbol <$> array_get (Chart.chart_data chart) stock_index).

(** The palette entry of the [i]-th series drawn. *)
Definition palette_color (i : nat) : string :=
  default ""%string (Draw.colors !! (i mod length Draw.colors)%nat).

(** A draw pass gets past both placeholder exits. *)
Definition reaches_geometry (chart : Chart.InvestChart) : Prop :=
  Draw.has_valid_data chart = true
  ∧ ∃ r, Draw.find_ranges chart = Some r ∧ Draw.ranges_missing r = false.

(** Commands that extend the current path. *)
Definition is_path_cmd (c : Draw.DrawCmd) : bool :=
  match c with
  | Draw.MoveTo _ _ | Draw.LineTo _ _ => true
  | _ => false
  end.

Section DrawVocabulary.
Import Chart Draw.

(** A series whose recorded price is the last price of an existing slot. *)
Definition recorded (chart : InvestChart) (info : StockSortInfo) : Prop :=
  ∃ slot, array_get (chart_data chart) (index info) = Some slot
          ∧ qualifies slot = true
          ∧ array_get (prices slot) (data_count slot - 1) = Some (current_price info).

(** The grid lines of a command list: the paths stroked while the source
    is the grid grey, read the way cairo runs the commands (a stroke draws
    the current path in the current source and clears the path). *)
Record Pen : Type := {
  pen_grid : bool;
  pen_path : list DrawCmd;
  pen_lines : list (list DrawCmd)
}.

Definition is_grid_grey (r g b : float) : bool :=
  ((r =? 0.9) && (g =? 0.9) && (b =? 0.9))%float.

Definition pen_step (pen : Pen) (c : DrawCmd) : Pen :=
  match c with
  | SetSourceRgb r g b =>
      {| pen_grid := is_grid_grey r g b; pen_path := pen_path pen;
         pen_lines := pen_lines pen |}
  | SetSourceColor _ =>
      {| pen_grid := false; pen_path := pen_path pen; pen_lines := pen_lines pen |}
  | MoveTo _ _ | LineTo _ _ =>
      {| pen_grid := pen_grid pen; pen_path := pen_path pen ++ [ c ];
         pen_lines := pen_lines pen |}
  | Stroke =>
      {| pen_grid := pen_grid pen; pen_path := [];
         pen_lines := if pen_grid pen then pen_lines pen ++ [ pen_path pen ]
                      else pen_lines pen |}
  | _ => pen
  end.

Definition grid_lines (cmds : list DrawCmd) : list (list DrawCmd) :=
  pen_lines (fold_left pen_step cmds {| pen_grid := false; pen_path := []; pen_lines := [] |}).

(** A one-segment path along a row, along a column. *)
Definition is_horizontal (path : list DrawCmd) : bool :=
  match path with
  | [ MoveTo _ y1; LineTo _ y2 ] => (y1 =? y2)%float
  | _ => false
  end.

Definition is_vertical (path : list DrawCmd) : bool :=
  match path with
  | [ MoveTo x1 _; LineTo x2 _ ] => (x1 =? x2)%float
  | _ => false
  end.

(** Every qualifying series has at least [data_count] prices and
    timestamps. *)
Definition in_bounds (slot : StockChartData) : Prop :=
  qualifies slot = true →
  data_count slot <= Z.of_nat (length (prices slot))
  ∧ data_count slot <= Z.of_nat (length (timestamps slot)).

Definition all_in_bounds (chart : InvestChart) : Prop :=
  Forall in_bounds (chart_data chart).

End DrawVocabulary.

Section AppletVocabulary.
Import Applet.

(** The four parallel arrays have [total_symbols] cells each, as
    [invest_applet_update_stocks] allocates them. *)
Definition parallel_arrays (applet : InvestApplet) : Prop :=
  total_symbols applet = Z.of_nat (length (stock_symbols applet))
  ∧ total_symbols applet = Z.of_nat (length (stock_prices applet))
  ∧ total_symbols applet = Z.of_nat (length (stock_changes applet))
  ∧ total_symbols applet = Z.of_nat (length (stock_valid applet)).

(** Both prices of the summary are present and strictly positive. *)
Definition positive_quote (msg : SoupMessage) : option (float * float) :=
  match summary_quote msg with
  | Some (current, previous) =>
      if ((0 <? current) && (0 <? previous))%float then Some (current, previous) else None
  | None => None
  end.

End AppletVocabulary.

(** ** Statements of the specification that the code does not meet *)

Section AsStated.
Import Chart.

(** The extractor contract as the specification words it: the prices
    array is as long as [data_count] whenever a close array was present. *)
Definition prices_always_match_data_count : Prop :=
  ∀ msg i chart sym chart' slot',
    array_get (chart_data chart) i = Some (empty_series sym) →
    on_chart_data_received msg i chart = Some chart' →
    array_get (chart_data chart') i = Some slot' →
    Z.of_nat (length (timestamps slot')) = data_count slot'
    ∧ (is_Some (close_array msg) → Z.of_nat (length (prices slot')) = data_count slot')
    ∧ (close_array msg = None → prices slot' = []).

(** The superseded-generation guard as the specification words it: a
    completion issued under an earlier fetch leaves the collection of the
    fetch that replaced it unchanged. *)
Definition superseded_completion_discarded : Prop :=
  ∀ settings1 settings2 chart0 chart1 reqs1 chart2 reqs2 req msg chart',
    fetch_chart_data settings1 chart0 = (chart1, reqs1) →
    req ∈ reqs1 →
    fetch_chart_data settings2 chart1 = (chart2, reqs2) →
    reqs2 ≠ [] →
    on_chart_data_received msg (req_symbol_index req) chart2 = Some chart' →
    chart_data chart' = chart_data chart2.

(** The validity mark as the specification words it: after a response
    that parsed, the series is valid exactly when the response has a close
    array.  The response is that of a request of the current fetch; an
    earlier completion, of a request of the fetch before, has been
    handled. *)
Definition valid_exactly_when_close_present : Prop :=
  ∀ settings1 settings2 chart0 chart1 reqs1 chart2 reqs2 req1 msg1 chart3 req2 msg2
    chart' slot',
    fetch_chart_data settings1 chart0 = (chart1, reqs1) →
    req1 ∈ reqs1 →
    fetch_chart_data settings2 chart1 = (chart2, reqs2) →
    req2 ∈ reqs2 →
    on_chart_data_received msg1 (req_symbol_index req1) chart2 = Some chart3 →
    is_Some (parsed_root msg2) →
    on_chart_data_received msg2 (req_symbol_index req2) chart3 = Some chart' →
    array_get (chart_data chart') (req_symbol_index req2) = Some slot' →
    (valid slot' = true ↔ is_Some (close_array msg2)).

(** The failed fetch as the specification words it: after a completion
    whose status is not OK or whose body is not JSON, the series of its
    symbol is invalid and has empty arrays.  The setting is the same. *)
Definition failed_completion_yields_invalid_series : Prop :=
  ∀ settings1 settings2 chart0 chart1 reqs1 chart2 reqs2 req1 msg1 chart3 req2 msg2
    chart' slot',
    fetch_chart_data settings1 chart0 = (chart1, reqs1) →
    req1 ∈ reqs1 →
    fetch_chart_data settings2 chart1 = (chart2, reqs2) →
    req2 ∈ reqs2 →
    on_chart_data_received msg1 (req_symbol_index req1) chart2 = Some chart3 →
    fetch_failed msg2 →
    on_chart_data_received msg2 (req_symbol_index req2) chart3 = Some chart' →
    array_get (chart_data chart') (req_symbol_index req2) = Some slot' →
    valid slot' = false ∧ prices slot' = [] ∧ timestamps slot' = [].

Import Draw.

(** The grid as the specification counts it. *)
Definition ten_gridlines_each_way : Prop :=
  ∀ width height chart cmds,
    reaches_geometry chart →
    chart_draw_cb width height chart = Some cmds →
    length (filter (λ p, is_horizontal p = true) (grid_lines cmds)) = 10%nat
    ∧ length (filter (λ p, is_vertical p = true) (grid_lines cmds)) = 10%nat.

(** The placeholder after a failed fetch as the specification has it. *)
Definition no_data_shown_after_failed_fetch : Prop :=
  ∀ sym chart0 chart reqs msg chart' width height cmds,
    fetch_chart_data (Some [ sym ]) chart0 = (chart, reqs) →
    status_code msg ≠ SOUP_STATUS_OK →
    on_chart_data_received msg 0 chart = Some chart' →
    chart_draw_cb width height chart' = Some cmds →
    shown_messages cmds = [ "No chart data available"%string ].

End AsStated.

(** ** Fixtures *)

Definition chart_response (timestamp close : list JsonNode) : SoupMessage :=
  {| status_code := 200;
     response_json :=
       Some (Some (JObject
         [ ("chart"%string, JObject
             [ ("result"%string, JArray
                 [ JObject
                     [ ("timestamp"%string, JArray timestamp);
                       ("indicators"%string, JObject
                          [ ("quote"%string, JArray
                               [ JObject [ ("close"%string, JArray close) ] ]) ]) ] ]);
               ("error"%string, JNull) ]) ])) |}.

Definition failed_response (status : Z) : SoupMessage :=
  {| status_code := status; response_json := None |}.

(** A visible chart window right after [invest_chart_new]. *)
Definition shown_chart : Chart.InvestChart :=
  {| Chart.window_visible := true;
     Chart.redraws_queued := 0;
     Chart.chart_data := [];
     Chart.chart_range := Some "1d"%string;
     Chart.chart_interval := Some "1m"%string |}.

(** A summary response with the two prices of its [meta] object. *)
Definition ibm_summary (current previous : JsonNode) : SoupMessage :=
  {| status_code := 200;
     response_json :=
       Some (Some (JObject
         [ ("chart"%string, JObject
             [ ("result"%string, JArray
                 [ JObject
                     [ ("meta"%string, JObject
                          [ ("currency"%string, JString "USD");
                            ("regularMarketPrice"%string, current);
                            ("previousClose"%string, previous) ]) ] ]);
               ("error"%string, JNull) ]) ])) |}.

Section MoreFixtures.
Import Chart.

(** Three qualifying series whose last prices are 50, 200 and 10. *)
Definition three_series : InvestChart :=
  {| window_visible := true; redraws_queued := 0;
     chart_data :=
       [ {| symbol := "AAA"; prices := [ 48; 50 ]%float; timestamps := [ 1000; 1060 ];
            data_count := 2; valid := true |};
         {| symbol := "BBB"; prices := [ 190; 200 ]%float; timestamps := [ 1000; 1060 ];
            data_count := 2; valid := true |};
         {| symbol := "CCC"; prices := [ 12; 10 ]%float; timestamps := [ 1000; 1060 ];
            data_count := 2; valid := true |} ];
     chart_range := Some "1d"%string; chart_interval := Some "1m"%string |}.

End MoreFixtures.

(** ** The chart window: showing, hiding, refreshing, the toolbar *)

Module ChartWindow.
Import Chart.

Definition with_window (visible : bool) (chart : InvestChart) : InvestChart :=
  {| window_visible := visible;
     redraws_queued := redraws_queued chart;
     chart_data := chart_data chart;
     chart_range := chart_range chart;
     chart_interval := chart_interval chart |}.

(** [invest_chart_show]: a visible window is only presented; otherwise
    the defaults are filled in when no range is set, the window is built
    and shown, and the data is fetched. *)
Definition invest_chart_show (settings : option (list string)) (chart : InvestChart)
  : InvestChart * list ChartRequest :=
  if window_visible chart then (chart, [])
  else
    let chart :=
      match chart_range chart with
      | Some _ => chart
      | None =>
          {| window_visible := window_visible chart;
             redraws_queued := redraws_queued chart;
             chart_data := chart_data chart;
             chart_range := Some "1d"%string;
             chart_interval := Some "1m"%string |}
      end in
    fetch_chart_data settings (with_window true chart).

(** [invest_chart_hide], and [on_chart_window_destroy] which runs when
    the window is destroyed. *)
Definition invest_chart_hide (chart : InvestChart) : InvestChart :=
  with_window false chart.

Definition invest_chart_is_visible (chart : option InvestChart) : bool :=
  match chart with
  | Some chart => window_visible chart
  | None => false
  end.

(** [invest_chart_refresh_data]. *)
Definition invest_chart_refresh_data (settings : option (list string)) (chart : InvestChart)
  : InvestChart * list ChartRequest :=
  if window_visible chart then fetch_chart_data settings chart else (chart, []).

Definition GDK_KEY_Escape : Z := 0xff1b.

(** [chart_window_key_press]: the chart and whether the event was
    handled. *)
Definition chart_window_key_press (keyval : Z) (chart : InvestChart) : InvestChart * bool :=
  if keyval =? GDK_KEY_Escape then (invest_chart_hide chart, true) else (chart, false).

(** A button of the toolbar: its label, the two strings stored on it with
    [g_object_set_data], and whether it is sensitive. *)
Record RangeButton : Type := {
  button_text : string;
  button_range : string;
  button_interval : string;
  button_sensitive : bool
}.

Definition set_sensitive (sensitive : bool) (button : RangeButton) : RangeButton :=
  {| button_text := button_text button;
     button_range := button_range button;
     button_interval := button_interval button;
     button_sensitive := sensitive |}.

(** The table [ranges] of [create_chart_toolbar]. *)
Definition ranges : list (string * string * string) :=
  [ ("Today", "1d", "1m"); ("Week", "5d", "5m"); ("Month", "1mo", "30m");
    ("YTD", "ytd", "1d"); ("Year", "1y", "1d"); ("5Y", "5y", "1wk");
    ("All", "max", "1mo") ]%string.

(** [create_chart_toolbar]: the buttons of the box, in packing order (the
    two labels around them are not buttons). *)
Definition create_chart_toolbar (chart : InvestChart) : list RangeButton :=
  (λ entry : string * string * string,
     let '(text, range, interval) := entry in
     {| button_text := text;
        button_range := range;
        button_interval := interval;
        button_sensitive := negb (bool_decide (chart_range chart = Some range)) |})
  <$> ranges.

(** The handler [chart_range_button_clicked] run for the [k]-th button of
    a toolbar: the chart takes the button's strings, every button is made
    sensitive, the clicked one insensitive, and the data is fetched. *)
Definition click_range_button (k : nat) (toolbar : list RangeButton)
    (settings : option (list string)) (chart : InvestChart)
  : option (list RangeButton * (InvestChart * list ChartRequest)) :=
  widget ← toolbar !! k;
  let toolbar := set_sensitive true <$> toolbar in
  let toolbar := <[k := set_sensitive false widget]> toolbar in
  Some (toolbar,
        chart_range_button_clicked (button_range widget) (button_interval widget)
          settings chart).

(** The completions of queued requests, run in the order they arrive;
    each is the response and the slot index of its request. *)
Definition deliver (completions : list (SoupMessage * Z)) (chart : InvestChart)
  : option InvestChart :=
  for_each (λ completion chart, on_chart_data_received completion.1 completion.2 chart)
           completions chart.

End ChartWindow.

(** ** The panel applet: cycling through the stocks *)

Module Cycle.
Import Applet.

(** [invest_applet_cycle_stocks]: the applet and the value returned to
    the timer ([true] for [G_SOURCE_CONTINUE]).  [%] is the remainder of
    the truncating division; reading a cell of [valid_indices] that
    [get_valid_stock_indices] did not write is not defined. *)
Definition invest_applet_cycle_stocks (applet : InvestApplet) : option (InvestApplet * bool) :=
  if total_symbols applet =? 0 then Some (applet, true)
  else
    valid_indices ← get_valid_stock_indices applet;
    let valid_count := Z.of_nat (length valid_indices) in
    if valid_count =? 0 then
      Some (update_applet_text (PanelMessage "No valid stock data") 0 applet, true)
    else if valid_count =? 1 then Some (applet, false)
    else
      let applet :=
        set_cycle (Z.rem (cycle_position applet + 1) valid_count)
                  (cycle_timer_armed applet) applet in
      stock_index ← array_get valid_indices (cycle_position applet);
      applet ← display_stock_at_index stock_index applet;
      Some (applet, true).

(** [invest_applet_button_press]: [button] is [event->button],
    [is_press] whether the event type is [GDK_BUTTON_PRESS]. *)
Definition invest_applet_button_press (button : Z) (is_press : bool) (applet : InvestApplet)
  : option (InvestApplet * bool) :=
  if (button =? 1) && is_press then
    r ← invest_applet_cycle_stocks applet;
    Some (r.1, true)
  else Some (applet, false).

(** The timer firing [n] times in a row, as long as it is kept. *)
Fixpoint cycle_ticks (n : nat) (applet : InvestApplet) : option InvestApplet :=
  match n with
  | O => Some applet
  | S n =>
      r ← invest_applet_cycle_stocks applet;
      if r.2 : bool then cycle_ticks n r.1 else Some r.1
  end.

(** The completions of queued summary requests, run in arrival order. *)
Definition deliver (completions : list (SoupMessage * Z)) (applet : InvestApplet)
  : option InvestApplet :=
  for_each (λ completion applet, on_stock_data_received completion.1 completion.2 applet)
           completions applet.

End Cycle.

(** ** Further vocabulary *)

Section ChartVocabulary.
Import Chart Draw.

(** A response whose close array covers its timestamp array: it has
    both and the close array is at least as long, or it has neither. *)
Definition covering_response (msg : SoupMessage) : Prop :=
  match timestamp_array msg, close_array msg with
  | Some elems, Some closes => (length elems <= length closes)%nat
  | None, None => True
  | _, _ => False
  end.

(** The responses among a list of completions that are for slot [j], in
    arrival order. *)
Definition responses_for (j : nat) (completions : list (SoupMessage * Z)) : list SoupMessage :=
  (filter (λ completion, completion.2 = Z.of_nat j) completions).*1.

(** The test a point passes to be plotted. *)
Definition plottable (p : float) (t : Z) : bool :=
  (0 <? p)%float && (0 <? t) && (t <? 9999999999).

(** Where point [j] of a series with price [p] goes on the canvas. *)
Definition canvas_x (width : Z) (slot : StockChartData) (j : Z) : float :=
  (50 + Z2F j * Z2F (width - 100) / Z2F (data_count slot - 1))%float.

Definition canvas_y (r : Ranges) (y_scale : float) (p : float) : float :=
  (50 + (max_price r - p) * y_scale)%float.

(** The plottable points among the first [data_count] of a series, in
    index order, each at its canvas position. *)
Definition plotted_points (width : Z) (r : Ranges) (y_scale : float) (slot : StockChartData)
  : list (float * float) :=
  omap (λ j,
          p ← array_get (prices slot) j;
          t ← array_get (timestamps slot) j;
          if plottable p t then Some (canvas_x width slot j, canvas_y r y_scale p) else None)
       (seqZ 0 (data_count slot)).

(** The open polyline through a list of points. *)
Definition polyline (points : list (float * float)) : list DrawCmd :=
  match points with
  | [] => []
  | first :: rest => MoveTo first.1 first.2 :: ((λ q, LineTo q.1 q.2) <$> rest)
  end.

(** The commands drawn for the series that comes [i]-th in the sorted
    order. *)
Definition series_commands (width : Z) (r : Ranges) (y_scale : float) (chart : InvestChart)
    (i : nat) (info : StockSortInfo) : list DrawCmd :=
  match array_get (chart_data chart) (index info) with
  | Some slot =>
      [ SetSourceColor (palette_color i); SetLineWidth 2 ]
      ++ polyline (plotted_points width r y_scale slot)
      ++ [ Stroke; MoveTo (Z2F (width - 200)) (Z2F (30 + Z.of_nat i * 20));
           ShowText (LegendText (symbol slot) (current_price info)) ]
  | None => []
  end.

(** The line of the series that [info] records. *)
Definition series_line (width : Z) (r : Ranges) (y_scale : float) (chart : InvestChart)
    (info : StockSortInfo) : list DrawCmd :=
  match array_get (chart_data chart) (index info) with
  | Some slot => polyline (plotted_points width r y_scale slot)
  | None => []
  end.

(** The series a command list shows, each with the colour it is shown
    in.  Reading the commands in order: a colour is selected with
    [SetSourceColor]; the path commands that follow it, up to the next
    [Stroke], are the line stroked in that colour; a legend text that
    follows the stroke before another source is selected is the row shown
    in that colour.  A series shown is the colour, the line and the row. *)
Record Brush : Type := {
  brush_color : option string;
  brush_path : list DrawCmd;
  brush_line : option (list DrawCmd);
  brush_shown : list (string * list DrawCmd * (string * float))
}.

Definition brush_step (brush : Brush) (c : DrawCmd) : Brush :=
  match c with
  | SetSourceColor spec =>
      {| brush_color := Some spec; brush_path := []; brush_line := None;
         brush_shown := brush_shown brush |}
  | SetSourceRgb _ _ _ =>
      {| brush_color := None; brush_path := []; brush_line := None;
         brush_shown := brush_shown brush |}
  | MoveTo _ _ | LineTo _ _ =>
      {| brush_color := brush_color brush; brush_path := brush_path brush ++ [ c ];
         brush_line := brush_line brush; brush_shown := brush_shown brush |}
  | Stroke =>
      {| brush_color := brush_color brush; brush_path := [];
         brush_line := Some (brush_path brush); brush_shown := brush_shown brush |}
  | ShowText (LegendText sym price) =>
      match brush_color brush, brush_line brush with
      | Some spec, Some line =>
          {| brush_color := brush_color brush; brush_path := brush_path brush;
             brush_line := brush_line brush;
             brush_shown := brush_shown brush ++ [ (spec, line, (sym, price)) ] |}
      | _, _ => brush
      end
  | _ => brush
  end.

Definition series_shown (cmds : list DrawCmd)
  : list (string * list DrawCmd * (string * float)) :=
  brush_shown
    (fold_left brush_step cmds
       {| brush_color := None; brush_path := []; brush_line := None; brush_shown := [] |}).

(** [at_most x y]: [y] is not less than [x]. *)
Definition at_most (x y : float) : Prop := (y <? x)%float = false.

(** The price range of [r] covers the price [p]. *)
Definition covers (r : Ranges) (p : float) : Prop :=
  at_most (min_price r) p ∧ at_most p (max_price r).

(** A price the range scan counts: a positive price among the first
    [data_count] prices of a qualifying series. *)
Definition counted_price (chart : InvestChart) (p : float) : Prop :=
  ∃ slot j,
    slot ∈ chart_data chart ∧ qualifies slot = true ∧ 0 <= j < data_count slot
    ∧ array_get (prices slot) j = Some p ∧ (0 <? p)%float = true.

(** A series the range scan takes a time range from: it qualifies, its
    first timestamp lies strictly between 0 and 9999999999 and its last
    timestamp, the one at index [data_count - 1], is positive. *)
Definition timed_series (slot : StockChartData) : Prop :=
  qualifies slot = true
  ∧ ∃ first last,
      array_get (timestamps slot) 0 = Some first
      ∧ array_get (timestamps slot) (data_count slot - 1) = Some last
      ∧ 0 < first ∧ 0 < last ∧ first < 9999999999.

(** No counted price is below [G_MAXDOUBLE], or none is above
    [G_MINDOUBLE]; both are so when no price is counted at all. *)
Definition no_price_range (chart : InvestChart) : Prop :=
  (∀ p, counted_price chart p → (p <? G_MAXDOUBLE)%float = false)
  ∨ (∀ p, counted_price chart p → (G_MINDOUBLE <? p)%float = false).

Definition no_time_range (chart : InvestChart) : Prop :=
  ∀ slot, slot ∈ chart_data chart → ¬ timed_series slot.

(** What the range scan holds after it has counted the prices [seen]
    and, when [timed] holds, has taken a time range: each bound is still
    its initial value, or has moved off it. *)
Definition scanned (seen : float → Prop) (timed : Prop) (r : Ranges) : Prop :=
  ((min_price r = G_MAXDOUBLE ∧ ∀ p, seen p → (p <? G_MAXDOUBLE)%float = false)
   ∨ ((min_price r <? G_MAXDOUBLE)%float = true
      ∧ ∃ p, seen p ∧ (p <? G_MAXDOUBLE)%float = true))
  ∧ ((max_price r = G_MINDOUBLE ∧ ∀ p, seen p → (G_MINDOUBLE <? p)%float = false)
     ∨ ((G_MINDOUBLE <? max_price r)%float = true
        ∧ ∃ p, seen p ∧ (G_MINDOUBLE <? p)%float = true))
  ∧ ((min_time r = G_MAXINT64 ∧ max_time r = G_MININT64 ∧ ¬ timed)
     ∨ (min_time r < G_MAXINT64 ∧ G_MININT64 < max_time r ∧ timed)).

End ChartVocabulary.

Section SummaryVocabulary.
Import Applet.

(** The positions of the [TRUE] cells of an array of flags, ascending. *)
Definition true_positions (flags : list bool) : list Z :=
  omap (λ entry : nat * bool, if entry.2 then Some (Z.of_nat entry.1) else None)
       (imap pair flags).

(** The tooltip line of symbol [i]. *)
Definition tooltip_line (applet : InvestApplet) (i : nat) (sym : string) : TooltipLine :=
  match stock_valid applet !! i, stock_prices applet !! i, stock_changes applet !! i with
  | Some true, Some price, Some change => QuoteLine sym price change
  | _, _, _ => NoDataLine sym
  end.

(** What the panel shows for the stock in cell [i]. *)
Definition panel_quote (applet : InvestApplet) (i : Z) : option (PanelText * float) :=
  sym ← array_get (stock_symbols applet) i;
  price ← array_get (stock_prices applet) i;
  change ← array_get (stock_changes applet) i;
  Some (StockText (before_equals sym) price, change).

(** The panel text, as [update_applet_text] stores it in [stock_summary],
    and the change that goes with it. *)
Definition panel (applet : InvestApplet) : option (PanelText * float) :=
  text ← stock_summary applet;
  Some (text, change_percent applet).

(** The content of cell [j] of the three data arrays: price, change and
    valid mark. *)
Definition quote_cell (applet : InvestApplet) (j : nat) : option (float * float * bool) :=
  price ← stock_prices applet !! j;
  change ← stock_changes applet !! j;
  valid ← stock_valid applet !! j;
  Some (price, change, valid).

(** What a summary response makes of a cell: the quote and its change
    when both prices are positive, the cell as it was otherwise. *)
Definition quote_stored (msg : SoupMessage) (cell : float * float * bool)
  : float * float * bool :=
  match positive_quote msg with
  | Some (current, previous) =>
      (current, ((current - previous) / previous * 100)%float, true)
  | None => cell
  end.

(** Whether a string has an ['=']. *)
Fixpoint has_equals (s : string) : bool :=
  match s with
  | EmptyString => false
  | String c rest => Ascii.eqb c (Ascii.ascii_of_nat 61) || has_equals rest
  end.

End SummaryVocabulary.

(** * Properties *)

(** Case analysis along a walk through a JSON document. *)
Ltac walk :=
  repeat first
    [ progress simplify_eq/=
    | done
    | match goal with
      | |- context [bool_decide (is_Some (Some _))] =>
          rewrite bool_decide_eq_true_2 by eauto
      | |- context [bool_decide (is_Some None)] =>
          rewrite bool_decide_eq_false_2 by (intros [? ?]; done)
      | |- context [JsonGlib.object_get_member ?m ?k] =>
          let E := fresh "E" in destruct (JsonGlib.object_get_member m k) as [[]|] eqn:E
      | |- context [@lookup _ _ _ _ ?k ?l] =>
          let E := fresh "E" in destruct (l !! k) as [[]|] eqn:E
      end ].

(** ** Arrays and the copy loops *)

Section ArrayFacts.
Context {A : Type}.
Implicit Types (a : list A) (i : Z) (x : A).

Lemma array_get_Some a i x :
  array_get a i = Some x ↔ 0 <= i ∧ a !! Z.to_nat i = Some x.
Proof.
  unfold array_get. destruct (Z.ltb_spec i 0); split.
  - done.
  - intros [? _]; lia.
  - intros ?; split; [lia|done].
  - by intros [_ ?].
Qed.

Lemma array_get_lt a i x : array_get a i = Some x → 0 <= i < Z.of_nat (length a).
Proof.
  intros [? Hl]%array_get_Some. apply lookup_lt_Some in Hl. lia.
Qed.

Lemma array_get_in_range a i : 0 <= i < Z.of_nat (length a) → is_Some (array_get a i).
Proof.
  intros ?. unfold array_get. destruct (Z.ltb_spec i 0); [lia|].
  apply lookup_lt_is_Some. lia.
Qed.

Lemma array_set_Some a i x a' :
  array_set a i x = Some a' ↔
  0 <= i < Z.of_nat (length a) ∧ a' = <[Z.to_nat i := x]> a.
Proof.
  unfold array_set.
  destruct (Z.leb_spec 0 i), (Z.ltb_spec i (Z.of_nat (length a))); simpl;
    (split; [intros Heq | intros [Hr Heq]]); try done; try lia.
  - injection Heq as <-. split; [lia|done].
  - by subst.
Qed.

Lemma array_set_in_range a i x :
  0 <= i < Z.of_nat (length a) → array_set a i x = Some (<[Z.to_nat i := x]> a).
Proof. intros ?. by apply array_set_Some. Qed.
End ArrayFacts.

Section CopyLoop.
Context {A : Type} (zero : A) (conv : JsonNode → A) (step : list A → nat → list A).
Variable elems : list JsonNode.
Hypothesis step_spec : ∀ out i node,
  elems !! i = Some node → out !! i = Some zero → step out i = <[i := conv node]> out.

Lemma copy_loop_prefix k :
  (k ≤ length elems)%nat →
  fold_left step (seq 0 k) (replicate (length elems) zero)
  = (conv <$> take k elems) ++ replicate (length elems - k) zero.
Proof.
  induction k as [|k IH]; intros Hk.
  - simpl. by rewrite Nat.sub_0_r.
  - rewrite seq_S, fold_left_app, IH by lia. simpl.
    destruct (lookup_lt_is_Some_2 elems k) as [node Hnode]; [lia|].
    rewrite (step_spec _ _ node Hnode).
    + rewrite (take_S_r _ _ _ Hnode), fmap_app. simpl.
      replace (length elems - k)%nat with (S (length elems - S k)) by lia.
      simpl. rewrite <- app_assoc. simpl.
      rewrite insert_app_r_alt; rewrite length_fmap, length_take; [|lia].
      replace (k - k `min` length elems)%nat with 0%nat by lia. done.
    + rewrite lookup_app_r; rewrite length_fmap, length_take; [|lia].
      apply lookup_replicate_2. lia.
Qed.

Lemma copy_loop :
  fold_left step (seq 0 (length elems)) (replicate (length elems) zero) = conv <$> elems.
Proof.
  rewrite copy_loop_prefix by lia.
  rewrite firstn_all, Nat.sub_diag. simpl. by rewrite app_nil_r.
Qed.
End CopyLoop.

Import JsonGlib Chart.

Lemma copy_timestamps_spec elems :
  copy_timestamps (Some elems) (length elems) = int_or_zero <$> elems.
Proof.
  unfold copy_timestamps. apply copy_loop.
  intros out i node Hnode Hout. simpl. rewrite Hnode.
  destruct node; simpl; try done; by rewrite list_insert_id.
Qed.

Lemma copy_prices_spec elems :
  copy_prices (Some elems) (length elems) = double_or_zero <$> elems.
Proof.
  unfold copy_prices. apply copy_loop.
  intros out i node Hnode Hout. simpl. rewrite Hnode.
  destruct node; simpl; try done; by rewrite list_insert_id.
Qed.

Lemma json_path_app p q n : json_path (p ++ q) n = json_path p n ≫= json_path q.
Proof.
  revert n. induction p as [|[name|k] p IH]; intros n; simpl; [done| |].
  - destruct n; simpl; try done.
    destruct (object_get_member members name); simpl; [apply IH|done].
  - destruct n; simpl; try done.
    destruct (elems !! k); simpl; [apply IH|done].
Qed.

Lemma parse_chart_json_walk root i chart :
  parse_chart_json (json_node_get_object root) i chart =
  match result_object root with
  | Some res => chart ← parse_timestamps (Some res) i chart; parse_prices (Some res) i chart
  | None => Some chart
  end.
Proof.
  unfold parse_chart_json, result_object, result_path, json_object_has_member,
    json_object_get_object_member, json_object_get_null_member,
    json_object_get_array_member, json_array_get_object_element,
    json_array_get_element, json_array_get_length, json_object_get_member.
  destruct root as [[]|]; simpl; try done.
  walk; destruct elems; simplify_eq/=; done.
Qed.

Lemma parse_timestamps_walk res i chart :
  parse_timestamps (Some res) i chart =
  match json_path [ Key "timestamp" ] (JObject res) with
  | Some (JArray elems) =>
      slot_update chart i
        (set_timestamps (int_or_zero <$> elems) (Z.of_nat (length elems)))
  | _ => Some chart
  end.
Proof.
  unfold parse_timestamps, json_object_has_member, json_object_get_array_member,
    json_object_get_member, json_array_get_length.
  simpl. walk. by rewrite copy_timestamps_spec.
Qed.

Lemma parse_prices_walk res i chart :
  parse_prices (Some res) i chart =
  match json_path [ Key "indicators"; Key "quote"; Index 0; Key "close" ] (JObject res) with
  | Some (JArray closes) =>
      slot_update chart i (set_prices_valid (double_or_zero <$> closes))
  | _ => Some chart
  end.
Proof.
  unfold parse_prices, json_object_has_member, json_object_get_object_member,
    json_object_get_array_member, json_array_get_object_element,
    json_array_get_element, json_array_get_length, json_object_get_member.
  simpl. walk; destruct elems; simplify_eq/=; by rewrite ?copy_prices_spec.
Qed.

Lemma array_at_result name path msg :
  array_at (result_path ++ Key name :: path) msg =
  match result_object (parsed_root msg) with
  | Some res =>
      match json_path (Key name :: path) (JObject res) with
      | Some (JArray elems) => Some elems
      | _ => None
      end
  | None => None
  end.
Proof.
  unfold array_at, result_object.
  destruct (parsed_root msg) as [node|]; [|done].
  cbv beta iota delta [mbind option_bind]. rewrite json_path_app.
  by destruct (json_path result_path node) as [[]|].
Qed.

Lemma parsed_root_walk msg i chart :
  (if negb (status_code msg =? SOUP_STATUS_OK) then Some chart
   else match response_json msg with
        | None => Some chart
        | Some root => parse_chart_json (json_node_get_object root) i chart
        end)
  = match result_object (parsed_root msg) with
    | Some res => chart ← parse_timestamps (Some res) i chart; parse_prices (Some res) i chart
    | None => Some chart
    end.
Proof.
  unfold parsed_root.
  destruct (status_code msg =? SOUP_STATUS_OK); simpl; [|done].
  destruct (response_json msg) as [root|]; simpl; [|done].
  apply parse_chart_json_walk.
Qed.

Lemma on_chart_data_received_walk msg i chart :
  on_chart_data_received msg i chart =
  chart ← store_timestamps msg i chart;
  chart ← store_prices msg i chart;
  Some (queue_draw_if_visible chart).
Proof.
  unfold on_chart_data_received. rewrite parsed_root_walk.
  unfold store_timestamps, store_prices, timestamp_array, close_array,
    timestamp_path, close_path.
  rewrite !array_at_result.
  destruct (result_object (parsed_root msg)) as [res|]; [|done].
  rewrite parse_timestamps_walk.
  destruct (json_path [Key "timestamp"] (JObject res)) as [[]|];
    cbv beta iota delta [mbind option_bind];
    try (rewrite parse_prices_walk; by destruct (json_path _ (JObject res)) as [[]|]).
  destruct (slot_update chart i _) as [c|]; [|done].
  rewrite parse_prices_walk. by destruct (json_path _ (JObject res)) as [[]|].
Qed.

(** ** The chart completion handler *)

Lemma chart_data_queue_draw chart :
  chart_data (queue_draw_if_visible chart) = chart_data chart.
Proof. unfold queue_draw_if_visible. by destruct (window_visible chart). Qed.

Lemma slot_update_in_range chart i f slot :
  array_get (chart_data chart) i = Some slot →
  slot_update chart i f
  = Some (with_chart_data chart (<[Z.to_nat i := f slot]> (chart_data chart))).
Proof.
  intros Hslot. unfold slot_update. rewrite Hslot. simpl.
  by rewrite array_set_in_range by (by eapply array_get_lt).
Qed.

Lemma slot_update_inv chart i f chart' :
  slot_update chart i f = Some chart' →
  ∃ slot, array_get (chart_data chart) i = Some slot
          ∧ chart' = with_chart_data chart (<[Z.to_nat i := f slot]> (chart_data chart)).
Proof.
  unfold slot_update. intros H.
  destruct (array_get (chart_data chart) i) as [slot|] eqn:Hslot; [|done].
  exists slot. split; [done|]. simpl in H.
  pose proof (array_get_lt _ _ _ Hslot) as Hr.
  rewrite (array_set_in_range _ _ _ Hr) in H. simpl in H. injection H as <-. done.
Qed.

Lemma array_get_insert {A} (a : list A) i x y :
  array_get a i = Some y → array_get (<[Z.to_nat i := x]> a) i = Some x.
Proof.
  intros H. pose proof (array_get_lt _ _ _ H). apply array_get_Some.
  split; [lia|]. apply list_lookup_insert_eq. lia.
Qed.

(** The handler on a slot that exists: the slot becomes [extracted]. *)
Lemma handler_in_range msg i chart slot :
  array_get (chart_data chart) i = Some slot →
  on_chart_data_received msg i chart
  = Some (queue_draw_if_visible
            (with_chart_data chart (<[Z.to_nat i := extracted msg slot]> (chart_data chart)))).
Proof.
  intros Hslot. rewrite on_chart_data_received_walk.
  unfold store_timestamps, store_prices, extracted.
  assert (with_chart_data chart (chart_data chart) = chart) as Hid by (by destruct chart).
  assert (<[Z.to_nat i := slot]> (chart_data chart) = chart_data chart) as Hins.
  { apply list_insert_id. by apply array_get_Some in Hslot as [_ ?]. }
  destruct (timestamp_array msg) as [elems|]; simpl.
  - rewrite (slot_update_in_range _ _ _ _ Hslot). simpl.
    destruct (close_array msg) as [closes|]; simpl; [|done].
    erewrite slot_update_in_range by (simpl; by eapply array_get_insert).
    simpl. by rewrite list_insert_insert_eq.
  - destruct (close_array msg) as [closes|]; simpl.
    + by rewrite (slot_update_in_range _ _ _ _ Hslot).
    + by rewrite Hins, Hid.
Qed.

(** The handler in general: either no store was attempted, or the slot
    exists and becomes [extracted]. *)
Lemma handler_result msg i chart chart' :
  on_chart_data_received msg i chart = Some chart' →
  (timestamp_array msg = None ∧ close_array msg = None
   ∧ chart' = queue_draw_if_visible chart)
  ∨ ∃ slot, array_get (chart_data chart) i = Some slot
            ∧ chart' = queue_draw_if_visible
                 (with_chart_data chart (<[Z.to_nat i := extracted msg slot]> (chart_data chart))).
Proof.
  intros H.
  destruct (array_get (chart_data chart) i) as [slot|] eqn:Hslot.
  - right. exists slot. split; [done|].
    rewrite (handler_in_range _ _ _ _ Hslot) in H. by simplify_eq.
  - left. rewrite on_chart_data_received_walk in H.
    unfold store_timestamps, store_prices in H.
    destruct (timestamp_array msg) as [elems|]; simpl in H.
    { destruct (slot_update chart i _) as [c|] eqn:Hc; [|done].
      apply slot_update_inv in Hc as (slot & ? & _). congruence. }
    destruct (close_array msg) as [closes|]; simpl in H.
    { destruct (slot_update chart i _) as [c|] eqn:Hc; [|done].
      apply slot_update_inv in Hc as (slot & ? & _). congruence. }
    by simplify_eq.
Qed.

Lemma failed_no_arrays msg :
  fetch_failed msg → timestamp_array msg = None ∧ close_array msg = None.
Proof.
  unfold fetch_failed, timestamp_array, close_array, array_at, parsed_root.
  intros [Hs | Hb].
  - destruct (Z.eqb_spec (status_code msg) SOUP_STATUS_OK); done.
  - rewrite Hb. by destruct (status_code msg =? SOUP_STATUS_OK).
Qed.

Lemma fetch_chart_data_started settings chart0 chart reqs req :
  fetch_chart_data settings chart0 = (chart, reqs) → req ∈ reqs →
  ∃ symbols sym,
    settings = Some symbols
    ∧ chart_data chart = empty_series <$> symbols
    ∧ symbols !! Z.to_nat (req_symbol_index req) = Some sym
    ∧ 0 <= req_symbol_index req.
Proof.
  unfold fetch_chart_data. intros Hf Hin.
  destruct settings as [[|s symbols]|]; simplify_eq; try by apply elem_of_nil in Hin.
  apply elem_of_lookup_imap in Hin as (i & sym & -> & Hsym).
  exists (s :: symbols), sym. simpl. rewrite Nat2Z.id.
  split_and!; [done| |done|lia].
  by rewrite chart_data_queue_draw.
Qed.

Lemma handler_slot msg i chart slot :
  array_get (chart_data chart) i = Some slot →
  ∃ chart',
    on_chart_data_received msg i chart = Some chart'
    ∧ array_get (chart_data chart') i = Some (extracted msg slot)
    ∧ length (chart_data chart') = length (chart_data chart)
    ∧ ∀ j, j ≠ Z.to_nat i → chart_data chart' !! j = chart_data chart !! j.
Proof.
  intros Hslot. eexists. split; [by apply handler_in_range|].
  rewrite chart_data_queue_draw. simpl. split_and!.
  - by eapply array_get_insert.
  - by rewrite length_insert.
  - intros j Hj. by rewrite list_lookup_insert_ne.
Qed.

Lemma extracted_timestamps msg slot elems :
  timestamp_array msg = Some elems →
  timestamps (extracted msg slot) = int_or_zero <$> elems
  ∧ data_count (extracted msg slot) = Z.of_nat (length elems).
Proof.
  intros H. unfold extracted. rewrite H. by destruct (close_array msg).
Qed.

Lemma extracted_no_timestamps msg slot :
  timestamp_array msg = None →
  timestamps (extracted msg slot) = timestamps slot
  ∧ data_count (extracted msg slot) = data_count slot.
Proof.
  intros H. unfold extracted. rewrite H. by destruct (close_array msg).
Qed.

Lemma extracted_prices msg slot closes :
  close_array msg = Some closes →
  prices (extracted msg slot) = double_or_zero <$> closes
  ∧ valid (extracted msg slot) = true.
Proof. intros H. unfold extracted. by rewrite H. Qed.

Lemma extracted_no_prices msg slot :
  close_array msg = None →
  prices (extracted msg slot) = prices slot ∧ valid (extracted msg slot) = valid slot.
Proof.
  intros H. unfold extracted. rewrite H. by destruct (timestamp_array msg).
Qed.

(** C4.  When the response has a timestamp array at
    [chart.result[0].timestamp] and the slot exists, the handler returns,
    [data_count] is the length of that array, the stored timestamps have
    the same length, and cell [j] holds element [j] when it is an integer
    and the zero of the allocation otherwise. *)
Theorem timestamps_copied_with_zero_sentinel msg i chart slot elems :
  array_get (chart_data chart) i = Some slot →
  timestamp_array msg = Some elems →
  ∃ chart' slot',
    on_chart_data_received msg i chart = Some chart'
    ∧ array_get (chart_data chart') i = Some slot'
    ∧ data_count slot' = Z.of_nat (length elems)
    ∧ length (timestamps slot') = length elems
    ∧ ∀ j node, elems !! j = Some node →
        timestamps slot' !! j = Some (match node with JInt n => n | _ => 0 end).
Proof.
  intros Hslot Hts.
  destruct (handler_slot msg _ _ _ Hslot) as (chart' & Hrun & Hslot' & _).
  destruct (extracted_timestamps msg slot elems Hts) as [Hcopy Hcount].
  exists chart', (extracted msg slot). split_and!; try done.
  - by rewrite Hcopy, length_fmap.
  - intros j node Hnode. rewrite Hcopy, list_lookup_fmap, Hnode. done.
Qed.

(** C4 at a response whose timestamp array holds a null and a double. *)
Lemma timestamps_copied_witness :
  ∃ chart' slot',
    on_chart_data_received
      (chart_response [ JInt 1000; JNull; JDouble 1.5; JInt 1020 ] [ JDouble 10 ]) 0
      (fst (fetch_chart_data (Some [ "IBM"%string ]) shown_chart)) = Some chart'
    ∧ array_get (chart_data chart') 0 = Some slot'
    ∧ data_count slot' = 4
    ∧ timestamps slot' = [ 1000; 0; 0; 1020 ].
Proof.
  destruct (timestamps_copied_with_zero_sentinel
              (chart_response [ JInt 1000; JNull; JDouble 1.5; JInt 1020 ] [ JDouble 10 ]) 0
              (fst (fetch_chart_data (Some [ "IBM"%string ]) shown_chart))
              (empty_series "IBM") [ JInt 1000; JNull; JDouble 1.5; JInt 1020 ]
              eq_refl eq_refl)
    as (chart' & slot' & Hrun & Hslot & Hcount & Hlen & Hcells).
  exists chart', slot'. split_and!; [done..|].
  pose proof (Hcells 0%nat _ eq_refl) as H0. pose proof (Hcells 1%nat _ eq_refl) as H1.
  pose proof (Hcells 2%nat _ eq_refl) as H2. pose proof (Hcells 3%nat _ eq_refl) as H3.
  destruct (timestamps slot') as [|a [|b [|c [|d [|]]]]]; simplify_eq/=; done.
Defined.

(** C2 fails as stated: three timestamps and two closing prices give
    [data_count = 3] and two prices. *)
Lemma prices_length_counterexample : ¬ prices_always_match_data_count.
Proof.
  intros H.
  destruct (H (chart_response [ JInt 1000; JInt 1010; JInt 1020 ] [ JDouble 10; JDouble 11 ])
              0 (fst (fetch_chart_data (Some [ "IBM"%string ]) shown_chart)) "IBM"%string
              _ _ eq_refl eq_refl eq_refl) as (_ & Hp & _).
  specialize (Hp ltac:(by eexists)). vm_compute in Hp. discriminate.
Qed.

(** C2, amended.  For a completion on a slot that exists the handler
    returns.  A timestamp array in the response sets [data_count] and the
    number of stored timestamps to its length; without one, the
    timestamps and [data_count] stay as they were.  A close array sets the
    number of stored prices to its own length, whatever [data_count] is;
    without one the prices stay as they were.  So the timestamps are as
    many as [data_count] says after the completion when they were before,
    and the prices are as many as [data_count] says after a completion
    with a close array exactly when that array has [data_count] elements.
    The timestamps are as many as [data_count] says in every slot of every
    collection that completions make of the collection of a fetch. *)
Theorem extracted_array_lengths :
  (∀ msg i chart slot,
     array_get (chart_data chart) i = Some slot →
     ∃ chart' slot',
       on_chart_data_received msg i chart = Some chart'
       ∧ array_get (chart_data chart') i = Some slot'
       ∧ match timestamp_array msg with
         | Some elems =>
             data_count slot' = Z.of_nat (length elems)
             ∧ length (timestamps slot') = length elems
         | None =>
             data_count slot' = data_count slot ∧ timestamps slot' = timestamps slot
         end
       ∧ match close_array msg with
         | Some closes =>
             length (prices slot') = length closes
             ∧ (Z.of_nat (length (prices slot')) = data_count slot'
                ↔ Z.of_nat (length closes) = data_count slot')
         | None => prices slot' = prices slot
         end
       ∧ (Z.of_nat (length (timestamps slot)) = data_count slot →
          Z.of_nat (length (timestamps slot')) = data_count slot'))
  ∧ (∀ symbols chart0 completions chart',
       symbols ≠ [] →
       ChartWindow.deliver completions (fetch_chart_data (Some symbols) chart0).1
       = Some chart' →
       Forall (λ slot, Z.of_nat (length (timestamps slot)) = data_count slot)
              (chart_data chart')).
Proof.
  assert (∀ msg slot,
            Z.of_nat (length (timestamps slot)) = data_count slot →
            Z.of_nat (length (timestamps (extracted msg slot)))
            = data_count (extracted msg slot)) as Hkeeps.
  { intros msg slot Hinv. destruct (timestamp_array msg) as [elems|] eqn:E.
    - destruct (extracted_timestamps msg slot elems E) as [-> ->]. by rewrite length_fmap.
    - by destruct (extracted_no_timestamps msg slot E) as [-> ->]. }
  split.
  - intros msg i chart slot Hslot.
    destruct (handler_slot msg _ _ _ Hslot) as (chart' & Hrun & Hslot' & _).
    exists chart', (extracted msg slot). split; [done|]. split; [done|]. split_and!.
    + destruct (timestamp_array msg) as [elems|] eqn:E.
      * destruct (extracted_timestamps msg slot elems E) as [-> ->]. by rewrite length_fmap.
      * by destruct (extracted_no_timestamps msg slot E) as [-> ->].
    + destruct (close_array msg) as [closes|] eqn:E.
      * destruct (extracted_prices msg slot closes E) as [-> _]. by rewrite length_fmap.
      * by destruct (extracted_no_prices msg slot E) as [-> _].
    + apply Hkeeps.
  - intros symbols chart0 completions chart' Hne.
    assert (Forall (λ slot, Z.of_nat (length (timestamps slot)) = data_count slot)
              (chart_data (fetch_chart_data (Some symbols) chart0).1)) as Hstart.
    { destruct symbols as [|sym symbols]; [done|]. simpl. rewrite chart_data_queue_draw.
      simpl. apply Forall_cons. split; [done|]. by apply Forall_fmap, Forall_true. }
    unfold ChartWindow.deliver.
    revert Hstart. generalize (fetch_chart_data (Some symbols) chart0).1.
    induction completions as [|[msg i] completions IH]; intros chart Hinv Hrun.
    + simpl in Hrun. by injection Hrun as <-.
    + simpl in Hrun.
      destruct (on_chart_data_received msg i chart) as [chart1|] eqn:Hone; [|done].
      simpl in Hrun. apply (IH chart1); [|done].
      apply handler_result in Hone as [(_ & _ & ->)|(slot & Hslot & ->)];
        rewrite chart_data_queue_draw; [done|]. simpl.
      apply Forall_insert; [done|]. apply Hkeeps.
      rewrite Forall_forall in Hinv. apply Hinv.
      apply array_get_Some in Hslot as [_ Hslot]. by eapply list_elem_of_lookup_2.
Qed.

(** C2, amended, at the same response, on a fresh slot and on the slot
    an earlier completion has filled. *)
Lemma extracted_array_lengths_witness :
  (∃ chart' slot',
     on_chart_data_received
       (chart_response [ JInt 1000; JInt 1010; JInt 1020 ] [ JDouble 10; JDouble 11 ]) 0
       (fst (fetch_chart_data (Some [ "IBM"%string ]) shown_chart)) = Some chart'
     ∧ array_get (chart_data chart') 0 = Some slot'
     ∧ data_count slot' = 3
     ∧ length (timestamps slot') = 3%nat
     ∧ length (prices slot') = 2%nat)
  ∧ (∃ chart' slot',
       on_chart_data_received (chart_response [ JInt 2000 ] [ JDouble 20 ]) 1 three_series
       = Some chart'
       ∧ array_get (chart_data chart') 1 = Some slot'
       ∧ data_count slot' = 1
       ∧ length (timestamps slot') = 1%nat
       ∧ length (prices slot') = 1%nat).
Proof.
  destruct extracted_array_lengths as [Hone _]. split.
  - destruct (Hone (chart_response [ JInt 1000; JInt 1010; JInt 1020 ]
                                   [ JDouble 10; JDouble 11 ])
                0 (fst (fetch_chart_data (Some [ "IBM"%string ]) shown_chart))
                (empty_series "IBM") eq_refl)
      as (chart' & slot' & Hrun & Hslot & Hts & Hps & _).
    exists chart', slot'. split; [done|]. split; [done|].
    assert (timestamp_array (chart_response [ JInt 1000; JInt 1010; JInt 1020 ]
                                            [ JDouble 10; JDouble 11 ])
            = Some [ JInt 1000; JInt 1010; JInt 1020 ]) as Et by (vm_compute; reflexivity).
    assert (close_array (chart_response [ JInt 1000; JInt 1010; JInt 1020 ]
                                        [ JDouble 10; JDouble 11 ])
            = Some [ JDouble 10; JDouble 11 ]) as Ec by (vm_compute; reflexivity).
    rewrite Et in Hts. rewrite Ec in Hps. destruct Hts as [? ?], Hps as [? _]. done.
  - destruct (Hone (chart_response [ JInt 2000 ] [ JDouble 20 ]) 1 three_series
                {| symbol := "BBB"; prices := [ 190; 200 ]%float;
                   timestamps := [ 1000; 1060 ]; data_count := 2; valid := true |} eq_refl)
      as (chart' & slot' & Hrun & Hslot & Hts & Hps & _).
    exists chart', slot'. split; [done|]. split; [done|].
    assert (timestamp_array (chart_response [ JInt 2000 ] [ JDouble 20 ])
            = Some [ JInt 2000 ]) as Et by (vm_compute; reflexivity).
    assert (close_array (chart_response [ JInt 2000 ] [ JDouble 20 ])
            = Some [ JDouble 20 ]) as Ec by (vm_compute; reflexivity).
    rewrite Et in Hts. rewrite Ec in Hps. destruct Hts as [? ?], Hps as [? _]. done.
Defined.

(** C5 fails as stated: the completion of the fetch before has marked
    the series valid, and a response of the current fetch that parses and
    has no close array leaves it valid. *)
Lemma valid_without_close_counterexample : ¬ valid_exactly_when_close_present.
Proof.
  intros H.
  pose proof (H (Some [ "IBM"%string ]) (Some [ "IBM"%string ]) shown_chart _ _ _ _
                {| req_url := chart_url "IBM" "1m" "1d"; req_user_agent := user_agent;
                   req_symbol_index := 0 |}
                (chart_response [ JInt 1000 ] [ JDouble 10 ])
                _
                {| req_url := chart_url "IBM" "1m" "1d"; req_user_agent := user_agent;
                   req_symbol_index := 0 |}
                {| status_code := 200; response_json := Some (Some (JObject [])) |}
                _ _
                eq_refl ltac:(apply list_elem_of_singleton; reflexivity)
                eq_refl ltac:(apply list_elem_of_singleton; reflexivity)
                eq_refl ltac:(by eexists) eq_refl eq_refl) as [Hvalid _].
  destruct (Hvalid eq_refl) as [closes Hcloses]. vm_compute in Hcloses. discriminate.
Qed.

(** C5, amended.  For a completion on a slot that exists the handler
    returns.  A close array in the response, at
    [chart.result[0].indicators.quote[0].close], marks the series valid,
    also when the array is empty; nothing in the handler clears the mark.
    So the series is valid after the completion exactly when the response
    has a close array or the series was valid before, and on a series that
    was not valid, exactly when the response has a close array.  Without a
    close array the mark and the prices stay as they were. *)
Theorem valid_set_by_close_array_never_cleared msg i chart slot :
  array_get (chart_data chart) i = Some slot →
  ∃ chart' slot',
    on_chart_data_received msg i chart = Some chart'
    ∧ array_get (chart_data chart') i = Some slot'
    ∧ (valid slot' = true ↔ is_Some (close_array msg) ∨ valid slot = true)
    ∧ (valid slot = false → (valid slot' = true ↔ is_Some (close_array msg)))
    ∧ (close_array msg = Some [] → valid slot' = true ∧ prices slot' = [])
    ∧ (close_array msg = None → valid slot' = valid slot ∧ prices slot' = prices slot).
Proof.
  intros Hslot.
  destruct (handler_slot msg _ _ _ Hslot) as (chart' & Hrun & Hslot' & _).
  exists chart', (extracted msg slot). split; [done|]. split; [done|].
  destruct (close_array msg) as [closes|] eqn:E.
  - destruct (extracted_prices msg slot closes E) as [Hp Hv]. split_and!.
    + split; [by left; eexists|done].
    + intros _. split; [by eexists|done].
    + intros [= ->]. by rewrite Hp.
    + done.
  - destruct (extracted_no_prices msg slot E) as [Hp Hv]. rewrite Hv, Hp. split_and!.
    + split; [by right|]. intros [[? ?]|?]; done.
    + intros ->. split; [done|]. by intros [? ?].
    + done.
    + done.
Qed.

(** C5, amended, at a response whose close array is present and empty,
    and at a response without close array on a valid series. *)
Lemma valid_set_by_close_array_witness :
  (∃ chart' slot',
     on_chart_data_received (chart_response [ JInt 1000 ] []) 0
       (fst (fetch_chart_data (Some [ "IBM"%string ]) shown_chart)) = Some chart'
     ∧ array_get (chart_data chart') 0 = Some slot'
     ∧ valid slot' = true ∧ prices slot' = [])
  ∧ (∃ chart' slot',
       on_chart_data_received
         {| status_code := 200; response_json := Some (Some (JObject [])) |} 1 three_series
       = Some chart'
       ∧ array_get (chart_data chart') 1 = Some slot'
       ∧ valid slot' = true ∧ prices slot' = [ 190; 200 ]%float).
Proof.
  split.
  - destruct (valid_set_by_close_array_never_cleared (chart_response [ JInt 1000 ] []) 0
                (fst (fetch_chart_data (Some [ "IBM"%string ]) shown_chart))
                (empty_series "IBM") eq_refl)
      as (chart' & slot' & Hrun & Hslot & _ & _ & Hempty & _).
    exists chart', slot'. split; [done|]. split; [done|]. by apply Hempty.
  - destruct (valid_set_by_close_array_never_cleared
                {| status_code := 200; response_json := Some (Some (JObject [])) |} 1
                three_series
                {| symbol := "BBB"; prices := [ 190; 200 ]%float;
                   timestamps := [ 1000; 1060 ]; data_count := 2; valid := true |} eq_refl)
      as (chart' & slot' & Hrun & Hslot & _ & _ & _ & Hnone).
    exists chart', slot'. split; [done|]. split; [done|].
    destruct Hnone as [-> ->]; [vm_compute; reflexivity|]. done.
Defined.

(** C6 fails as stated: the completion of the fetch before has stored a
    series, and a failed completion of the current fetch leaves it there,
    valid and with its arrays. *)
Lemma failed_completion_counterexample : ¬ failed_completion_yields_invalid_series.
Proof.
  intros H.
  pose proof (H (Some [ "IBM"%string ]) (Some [ "IBM"%string ]) shown_chart _ _ _ _
                {| req_url := chart_url "IBM" "1m" "1d"; req_user_agent := user_agent;
                   req_symbol_index := 0 |}
                (chart_response [ JInt 1000 ] [ JDouble 10 ])
                _
                {| req_url := chart_url "IBM" "1m" "1d"; req_user_agent := user_agent;
                   req_symbol_index := 0 |}
                (failed_response 500)
                _ _
                eq_refl ltac:(apply list_elem_of_singleton; reflexivity)
                eq_refl ltac:(apply list_elem_of_singleton; reflexivity)
                eq_refl ltac:(left; vm_compute; discriminate) eq_refl eq_refl) as [Hvalid _].
  vm_compute in Hvalid. discriminate.
Qed.

(** C6, amended.  A completion whose status is not OK, or whose body is
    not JSON, is handled without a fault whatever its slot index and
    whatever the collection holds, and it leaves the collection as it is:
    the series of its symbol and every other series are what they were.
    The series of its symbol is invalid with empty arrays afterwards when
    it was before, as in a slot that nothing was stored in since the
    fetch; a series that an earlier completion stored there stays. *)
Theorem failed_completion_changes_nothing msg i chart :
  fetch_failed msg →
  ∃ chart',
    on_chart_data_received msg i chart = Some chart'
    ∧ chart_data chart' = chart_data chart
    ∧ (∀ sym, array_get (chart_data chart) i = Some (empty_series sym) →
         array_get (chart_data chart') i
         = Some {| symbol := sym; prices := []; timestamps := []; data_count := 0;
                   valid := false |})
    ∧ (∀ settings chart0 reqs req,
         fetch_chart_data settings chart0 = (chart, reqs) → req ∈ reqs →
         i = req_symbol_index req →
         ∃ sym, array_get (chart_data chart') i
                = Some {| symbol := sym; prices := []; timestamps := []; data_count := 0;
                          valid := false |}).
Proof.
  intros Hfail.
  destruct (failed_no_arrays msg Hfail) as [Hts Hcl].
  exists (queue_draw_if_visible chart). rewrite chart_data_queue_draw.
  split_and!; [|done|done|].
  - rewrite on_chart_data_received_walk. unfold store_timestamps, store_prices.
    by rewrite Hts, Hcl.
  - intros settings chart0 reqs req Hfetch Hreq ->.
    destruct (fetch_chart_data_started _ _ _ _ _ Hfetch Hreq)
      as (symbols & sym & _ & Hdata & Hsym & Hpos).
    exists sym. apply array_get_Some. split; [done|].
    by rewrite Hdata, list_lookup_fmap, Hsym.
Qed.

(** C6, amended, at a completion with status 500: on a fresh slot, on a
    filled collection and for an index outside it. *)
Lemma failed_completion_witness :
  (∃ chart',
     on_chart_data_received (failed_response 500) 0
       (fst (fetch_chart_data (Some [ "IBM"%string ]) shown_chart)) = Some chart'
     ∧ array_get (chart_data chart') 0
       = Some {| symbol := "IBM"; prices := []; timestamps := []; data_count := 0;
                 valid := false |})
  ∧ (∃ chart',
       on_chart_data_received (failed_response 500) 1 three_series = Some chart'
       ∧ chart_data chart' = chart_data three_series)
  ∧ (∃ chart',
       on_chart_data_received (failed_response 500) 7 three_series = Some chart'
       ∧ chart_data chart' = chart_data three_series).
Proof.
  assert (fetch_failed (failed_response 500)) as Hfail by (left; vm_compute; discriminate).
  split_and!.
  - destruct (failed_completion_changes_nothing (failed_response 500) 0
                (fst (fetch_chart_data (Some [ "IBM"%string ]) shown_chart)) Hfail)
      as (chart' & Hrun & _ & Hfresh & _).
    exists chart'. split; [done|]. by apply Hfresh.
  - destruct (failed_completion_changes_nothing (failed_response 500) 1 three_series Hfail)
      as (chart' & Hrun & Hsame & _).
    by exists chart'.
  - destruct (failed_completion_changes_nothing (failed_response 500) 7 three_series Hfail)
      as (chart' & Hrun & Hsame & _).
    by exists chart'.
Defined.

(** C1 fails as stated: after a second fetch of the same symbol, the
    completion of the first fetch's request fills slot 0 of the new
    collection. *)
Lemma stale_completion_counterexample : ¬ superseded_completion_discarded.
Proof.
  intros H.
  pose proof (H (Some [ "IBM"%string ]) (Some [ "IBM"%string ]) shown_chart _ _ _ _
                {| req_url := chart_url "IBM" "1m" "1d"; req_user_agent := user_agent;
                   req_symbol_index := 0 |}
                (chart_response [ JInt 1000; JInt 1010; JInt 1020 ]
                                [ JDouble 10; JDouble 11; JDouble 12 ])
                _ eq_refl ltac:(apply list_elem_of_singleton; reflexivity) eq_refl
                ltac:(discriminate) eq_refl) as Heq.
  vm_compute in Heq. discriminate.
Qed.

Import Draw.

(** ** The order of doubles *)

Lemma SFltb_trans x y z :
  SFltb x y = true → SFltb y z = true → SFltb x z = true.
Proof.
  unfold SFltb, SFcompare.
  destruct x as [[]|[]| |[] mx ex], y as [[]|[]| |[] my ey], z as [[]|[]| |[] mz ez];
    try discriminate; try reflexivity; cbn;
    repeat match goal with
    | |- context [Z.compare ?a ?b] => destruct (Z.compare_spec a b)
    | |- context [Pos.compare_cont Eq ?a ?b] =>
        change (Pos.compare_cont Eq a b) with (Pos.compare a b);
        destruct (Pos.compare_spec a b)
    end; cbn; try discriminate; try reflexivity; intros; exfalso; subst; lia.
Qed.

Lemma SFltb_asym x y : SFltb x y = true → SFltb y x = false.
Proof.
  unfold SFltb, SFcompare.
  destruct x as [[]|[]| |[] mx ex], y as [[]|[]| |[] my ey];
    try discriminate; try reflexivity; cbn;
    repeat match goal with
    | |- context [Z.compare ?a ?b] => destruct (Z.compare_spec a b)
    | |- context [Pos.compare_cont Eq ?a ?b] =>
        change (Pos.compare_cont Eq a b) with (Pos.compare a b);
        destruct (Pos.compare_spec a b)
    end; cbn; try discriminate; try reflexivity; intros; exfalso; subst; lia.
Qed.

Lemma float_ltb_trans (x y z : float) :
  (x <? y)%float = true → (y <? z)%float = true → (x <? z)%float = true.
Proof. rewrite !FloatAxioms.ltb_spec. apply SFltb_trans. Qed.

Lemma float_ltb_asym (x y : float) : (x <? y)%float = true → (y <? x)%float = false.
Proof. rewrite !FloatAxioms.ltb_spec. apply SFltb_asym. Qed.

(** ** The exchange sort *)

Section Sorting.
Implicit Types (a : list StockSortInfo) (x y z : StockSortInfo) (i j k m p q : nat).

Lemma exchange_head_Permutation a j x y :
  a !! j = Some y → y :: <[j := x]> a ≡ₚ x :: a.
Proof.
  revert j. induction a as [|h a IH]; intros [|j] Hj; simplify_eq/=.
  - apply perm_swap.
  - rewrite (perm_swap h y), (IH _ Hj). apply perm_swap.
Qed.

Lemma exchange_Permutation a i j x y :
  (i < j)%nat → a !! i = Some x → a !! j = Some y →
  <[j := x]> (<[i := y]> a) ≡ₚ a.
Proof.
  revert i j. induction a as [|h a IH]; intros i j Hij Hi Hj; [done|].
  destruct j as [|j]; [lia|]. destruct i as [|i]; simplify_eq/=.
  - by apply exchange_head_Permutation.
  - f_equiv. apply IH; [lia|done..].
Qed.

Lemma swap_if_less_cases a i j x y :
  a !! i = Some x → a !! j = Some y →
  swap_if_less i j a = if below x y then <[j := x]> (<[i := y]> a) else a.
Proof. intros Hi Hj. unfold swap_if_less, below. by rewrite Hi, Hj. Qed.

Lemma swap_if_less_out a i j : a !! j = None → swap_if_less i j a = a.
Proof. intros Hj. unfold swap_if_less. rewrite Hj. by destruct (a !! i). Qed.

(** The inner loop, after the cells [i+1 .. i+m] were compared with cell [i]. *)
Lemma inner_loop a i m :
  (i < length a)%nat →
  let a' := fold_left (λ a j, swap_if_less i j a) (seq (S i) m) a in
  length a' = length a
  ∧ (∀ q, (q < i ∨ S i + m ≤ q)%nat → a' !! q = a !! q)
  ∧ a' ≡ₚ a
  ∧ (∀ x q y, a' !! i = Some x → (i < q < S i + m)%nat → a' !! q = Some y →
       below x y = false).
Proof.
  intros Hi. cbv zeta. induction m as [|m IH].
  { simpl. split_and!; try done. intros; lia. }
  rewrite seq_S, fold_left_app. simpl.
  destruct IH as (Hlen & Hout & Hperm & Hdom).
  set (a' := fold_left (λ a j, swap_if_less i j a) (seq (S i) m) a) in *.
  destruct (a' !! S (i + m)) as [y|] eqn:Hj.
  2:{ rewrite (swap_if_less_out _ _ _ Hj). split_and!; try done.
      - intros q Hq. apply Hout. lia.
      - intros x q y Hx Hq Hy. destruct (decide (q = S (i + m))) as [->|]; [congruence|].
        eapply Hdom; [done| |done]. lia. }
  destruct (lookup_lt_is_Some_2 a' i) as [x Hx]; [lia|].
  rewrite (swap_if_less_cases _ _ _ _ _ Hx Hj).
  destruct (below x y) eqn:Hxy.
  - assert (i < length a')%nat by lia.
    assert (S (i + m) < length a')%nat by (by eapply lookup_lt_Some).
    split_and!.
    + by rewrite !length_insert.
    + intros q Hq. rewrite !list_lookup_insert_ne by lia. apply Hout. lia.
    + rewrite exchange_Permutation; [done|lia|done..].
    + intros x' q z Hx' Hq Hz.
      rewrite list_lookup_insert_ne in Hx' by lia.
      rewrite list_lookup_insert_eq in Hx' by lia. simplify_eq.
      destruct (decide (q = S (i + m))) as [->|Hne].
      * rewrite list_lookup_insert_eq in Hz by (rewrite length_insert; lia). simplify_eq.
        by apply float_ltb_asym.
      * rewrite !list_lookup_insert_ne in Hz by lia.
        destruct (below x' z) eqn:Hyz; [|done].
        assert (below x z = true) as Hxz by (by eapply float_ltb_trans).
        rewrite (Hdom x q z Hx) in Hxz; [done|lia|done].
  - split_and!; try done.
    + intros q Hq. apply Hout. lia.
    + intros x' q z Hx' Hq Hz. simplify_eq.
      destruct (decide (q = S (i + m))) as [->|Hne]; [congruence|].
      eapply Hdom; [done| |done]. lia.
Qed.

Lemma sort_pass_spec a i :
  (i < length a)%nat →
  length (sort_pass (length a) i a) = length a
  ∧ (∀ q, (q < i)%nat → sort_pass (length a) i a !! q = a !! q)
  ∧ sort_pass (length a) i a ≡ₚ a
  ∧ (∀ x q y, sort_pass (length a) i a !! i = Some x → (i < q)%nat →
       sort_pass (length a) i a !! q = Some y → below x y = false).
Proof.
  intros Hi. unfold sort_pass.
  destruct (inner_loop a i (length a - S i) Hi) as (Hlen & Hout & Hperm & Hdom).
  split_and!; try done.
  - intros q Hq. apply Hout. lia.
  - intros x q y Hx Hq Hy. eapply Hdom; [done| |done].
    apply lookup_lt_Some in Hy. lia.
Qed.

Lemma outer_loop a k :
  (k ≤ length a - 1)%nat →
  let a' := fold_left (λ b i, sort_pass (length a) i b) (seq 0 k) a in
  length a' = length a
  ∧ a' ≡ₚ a
  ∧ (∀ p q x y, (p < k)%nat → (p < q)%nat → a' !! p = Some x → a' !! q = Some y →
       below x y = false).
Proof.
  cbv zeta. induction k as [|k IH]; intros Hk.
  { simpl. split_and!; try done. intros; lia. }
  rewrite seq_S, fold_left_app. simpl.
  destruct IH as (Hlen & Hperm & Hsorted); [lia|].
  set (a' := fold_left (λ b i, sort_pass (length a) i b) (seq 0 k) a) in *.
  destruct (sort_pass_spec a' k) as (Hlen' & Hpre & Hperm' & Hdom); [lia|].
  rewrite Hlen in Hlen', Hpre, Hperm', Hdom.
  set (a'' := sort_pass (length a) k a') in *.
  split_and!; [lia|by rewrite Hperm'|].
  intros p q x y Hp Hq Hx Hy.
  destruct (decide (p = k)) as [->|Hpk]; [by eapply (Hdom x q y)|].
  rewrite Hpre in Hx by lia.
  destruct (decide (q < k)%nat) as [Hqk|Hqk].
  { rewrite Hpre in Hy by lia. eapply Hsorted; [| |done..]; lia. }
  assert (take k a'' = take k a') as Htake.
  { apply list_eq. intros n. destruct (decide (n < k)%nat).
    - rewrite !lookup_take_lt by done. by apply Hpre.
    - rewrite !lookup_take_ge by lia. done. }
  assert (drop k a'' ≡ₚ drop k a') as Hdrop.
  { apply (Permutation_app_inv_l (take k a')).
    rewrite <- Htake at 1. by rewrite !take_drop. }
  assert (y ∈ drop k a') as Hin.
  { rewrite <- Hdrop. apply list_elem_of_lookup. exists (q - k)%nat.
    rewrite lookup_drop. by replace (k + (q - k))%nat with q by lia. }
  apply list_elem_of_lookup in Hin as [n Hn]. rewrite lookup_drop in Hn.
  eapply (Hsorted p (k + n)%nat); [lia|lia|done..].
Qed.

(** The sort returns a rearrangement of its input in which no entry is
    below a later one. *)
Lemma sort_by_price_spec a :
  sort_by_price a ≡ₚ a
  ∧ ∀ p q x y, (p < q)%nat → sort_by_price a !! p = Some x →
      sort_by_price a !! q = Some y → below x y = false.
Proof.
  unfold sort_by_price.
  destruct (outer_loop a (length a - 1)) as (Hlen & Hperm & Hsorted); [lia|].
  split; [done|]. intros p q x y Hpq Hx Hy.
  eapply (Hsorted p q); [|done..].
  apply lookup_lt_Some in Hy. rewrite Hlen in Hy. lia.
Qed.
End Sorting.

(** ** Loops that may fault *)

Section ForEach.
Context {S A : Type} (body : A → S → option S).

Lemma for_each_cons x l s :
  for_each body (x :: l) s = body x s ≫= for_each body l.
Proof. done. Qed.

Lemma for_each_app l1 l2 s :
  for_each body (l1 ++ l2) s = for_each body l1 s ≫= for_each body l2.
Proof.
  revert s. induction l1 as [|x l1 IH]; intros s; simpl; [done|].
  destruct (body x s); simpl; [apply IH|done].
Qed.

(** A property of the loop state kept by every iteration holds at the end. *)
Lemma for_each_invariant (P : S → Prop) l s s' :
  (∀ x s s', x ∈ l → P s → body x s = Some s' → P s') →
  P s → for_each body l s = Some s' → P s'.
Proof.
  revert s. induction l as [|x l IH]; intros s Hstep Hs Hrun; simpl in Hrun.
  - by simplify_eq.
  - destruct (body x s) as [s1|] eqn:Hx; [|done]. simpl in Hrun.
    eapply (IH s1); [|by eapply Hstep; [left|..]|done].
    intros y t t' Hy. apply Hstep. by right.
Qed.

(** A loop whose iterations all succeed succeeds. *)
Lemma for_each_total (P : S → Prop) l s :
  (∀ x s, x ∈ l → P s → ∃ s', body x s = Some s' ∧ P s') →
  P s → ∃ s', for_each body l s = Some s' ∧ P s'.
Proof.
  revert s. induction l as [|x l IH]; intros s Hstep Hs; simpl.
  - by exists s.
  - destruct (Hstep x s) as (s1 & -> & Hs1); [by left|done|]. simpl.
    apply IH; [|done]. intros y t Hy. apply Hstep. by right.
Qed.
End ForEach.

(** ** The draw pass: series lines and legend *)

Lemma draw_point_path width r y_scale slot j st st' :
  draw_point width r y_scale slot j st = Some st' →
  forallb is_path_cmd st.1 = true → forallb is_path_cmd st'.1 = true.
Proof.
  unfold draw_point. destruct st as [cmds first_point]. simpl. intros Hrun Hcmds.
  destruct (array_get (prices slot) j) as [p|]; [|done]. simpl in Hrun.
  destruct (0 <? p)%float; [|by simplify_eq].
  destruct (array_get (timestamps slot) j) as [t|]; [|done]. simpl in Hrun.
  destruct ((0 <? t) && (t <? 9999999999)); [|by simplify_eq].
  destruct first_point; simplify_eq; simpl; rewrite forallb_app, Hcmds; done.
Qed.

Local Arguments Nat.modulo : simpl never.

Lemma draw_stock_inv width r y_scale chart i info cmds cmds' :
  draw_stock width r y_scale chart (i, info) cmds = Some cmds' →
  ∃ slot line p,
    array_get (chart_data chart) (index info) = Some slot
    ∧ forallb is_path_cmd line = true
    ∧ array_get (prices slot) (data_count slot - 1) = Some p
    ∧ cmds' = cmds ++ [ SetSourceColor (palette_color i); SetLineWidth 2 ] ++ line
                ++ [ Stroke; MoveTo (Z2F (width - 200)) (Z2F (30 + Z.of_nat i * 20));
                     ShowText (LegendText (symbol slot) p) ].
Proof.
  unfold draw_stock. intros Hrun.
  destruct (array_get (chart_data chart) (index info)) as [slot|] eqn:Hslot; [|done].
  simpl in Hrun.
  destruct (for_each _ _ _) as [[line b]|] eqn:Hline; [|done]. simpl in Hrun.
  destruct (array_get (prices slot) (data_count slot - 1)) as [p|] eqn:Hp; [|done].
  simpl in Hrun. exists slot, line, p. split_and!; try done.
  - eapply (for_each_invariant _ (λ st, forallb is_path_cmd st.1 = true)) in Hline;
      [done| |done].
    intros j st st' _ Hst Hj. by eapply draw_point_path.
  - injection Hrun as <-. reflexivity.
Qed.

Lemma omap_path_nil {B} (f : DrawCmd → option B) line :
  (∀ x y, f (MoveTo x y) = None) → (∀ x y, f (LineTo x y) = None) →
  forallb is_path_cmd line = true → omap f line = [].
Proof.
  intros Hm Hl. induction line as [|c line IH]; [done|]. simpl.
  intros [Hc Hline]%andb_prop. destruct c; try done; rewrite ?Hm, ?Hl; by apply IH.
Qed.

Lemma draw_stocks_from width r y_scale chart infos k acc lines :
  Forall (recorded chart) infos →
  for_each (draw_stock width r y_scale chart) (imap (λ i, pair (k + i)%nat) infos) acc
  = Some lines →
  legend_rows lines
  = legend_rows acc
    ++ ((λ info, (series_symbol chart (index info), current_price info)) <$> infos)
  ∧ stroke_colors lines
    = stroke_colors acc ++ imap (λ i _, palette_color (k + i)) infos
  ∧ shown_messages lines = shown_messages acc
  ∧ (Forall (λ c, ∀ r g b, c ≠ SetSourceRgb r g b) acc →
     Forall (λ c, ∀ r g b, c ≠ SetSourceRgb r g b) lines).
Proof.
  revert k acc. induction infos as [|info infos IH]; intros k acc Hrec Hrun.
  { simpl in Hrun. simplify_eq. by rewrite !app_nil_r. }
  apply Forall_cons in Hrec as [(slot & Hslot & _ & Hlast) Hrec].
  rewrite imap_cons, for_each_cons in Hrun.
  destruct (draw_stock _ _ _ _ _ acc) as [acc'|] eqn:Hone; [|done].
  cbn [mbind option_bind] in Hrun. rewrite Nat.add_0_r in Hone.
  apply draw_stock_inv in Hone as (slot' & line & p & Hslot' & Hline & Hp & ->).
  rewrite Hslot in Hslot'. injection Hslot' as <-. rewrite Hlast in Hp. injection Hp as <-.
  rewrite (imap_ext _ (λ i, pair (S k + i)%nat)) in Hrun
    by (intros; simpl; f_equal; lia).
  destruct (IH _ _ Hrec Hrun) as (Hleg & Hcol & Hmsg & Hrgb).
  rewrite Hleg, Hcol, Hmsg. unfold legend_rows, stroke_colors, shown_messages.
  rewrite !omap_app, !(omap_path_nil _ line) by done. simpl.
  rewrite <- !app_assoc. simpl. unfold series_symbol. rewrite Hslot. simpl.
  split_and!; try done.
  - rewrite Nat.add_0_r. do 2 f_equal. apply imap_ext. intros; simpl. f_equal. lia.
  - by rewrite app_nil_r.
  - intros Hacc. apply Hrgb. rewrite !Forall_app. split_and!; [done|..].
    + by repeat constructor.
    + clear -Hline. induction line as [|c line IH]; [done|].
      simpl in Hline. apply andb_prop in Hline as [Hc Hline].
      constructor; [|by apply IH]. by destruct c.
    + by repeat constructor.
Qed.

Lemma collect_from chart l k acc infos :
  (∀ i, l !! i = chart_data chart !! (k + i)%nat) →
  Forall (recorded chart) acc →
  for_each collect_stock (imap (λ i, pair (k + i)%nat) l) acc = Some infos →
  infos = acc ++ omap qualifying_entry (imap (λ i, pair (k + i)%nat) l)
  ∧ Forall (recorded chart) infos.
Proof.
  revert k acc. induction l as [|slot l IH]; intros k acc Hl Hacc Hrun.
  { simpl in Hrun. simplify_eq. by rewrite app_nil_r. }
  rewrite imap_cons, for_each_cons in Hrun. rewrite imap_cons.
  rewrite (imap_ext _ (λ i, pair (S k + i)%nat)) in Hrun by (intros; simpl; f_equal; lia).
  rewrite (imap_ext (_ ∘ S) (λ i, pair (S k + i)%nat)) by (intros; simpl; f_equal; lia).
  assert (∀ i, l !! i = chart_data chart !! (S k + i)%nat) as Hl'.
  { intros i. replace (S k + i)%nat with (k + S i)%nat by lia. by rewrite <- Hl. }
  pose proof (Hl 0%nat) as Hslot. simpl in Hslot. rewrite Nat.add_0_r in *.
  destruct (collect_stock (k, slot) acc) as [acc'|] eqn:Hone; [|done].
  cbn [mbind option_bind] in Hrun.
  change (omap qualifying_entry ((k, slot) :: ?t))
    with (match qualifying_entry (k, slot) with
          | Some y => y :: omap qualifying_entry t
          | None => omap qualifying_entry t
          end).
  unfold collect_stock in Hone. unfold qualifying_entry at 1. cbn [fst snd].
  destruct (qualifies slot) eqn:Hq.
  - destruct (array_get (prices slot) (data_count slot - 1)) as [p|] eqn:Hp; [|done].
    cbn [mbind option_bind] in *. injection Hone as <-.
    assert (Forall (recorded chart)
              (acc ++ [ {| index := Z.of_nat k; current_price := p |} ])) as Hacc'.
    { apply Forall_app. split; [done|]. constructor; [|done].
      exists slot. simpl. split_and!; [|done..].
      apply array_get_Some. rewrite Nat2Z.id. split; [lia|done]. }
    destruct (IH _ _ Hl' Hacc' Hrun) as [-> Hall].
    split; [|done]. by rewrite <- app_assoc.
  - injection Hone as <-. by apply IH.
Qed.

Lemma collect_sort_info_spec chart infos :
  collect_sort_info chart = Some infos →
  infos = qualifying_series chart ∧ Forall (recorded chart) infos.
Proof.
  unfold collect_sort_info. intros Hrun.
  rewrite (imap_ext pair (λ i, pair (0 + i)%nat)) in Hrun by done.
  by apply (collect_from chart) in Hrun as [-> ?].
Qed.

(** The commands of a pass that is not a placeholder. *)
Lemma chart_draw_cb_geometry width height chart cmds :
  reaches_geometry chart →
  chart_draw_cb width height chart = Some cmds →
  ∃ r y_scale lines,
    Forall (recorded chart) (qualifying_series chart)
    ∧ draw_stocks width r y_scale chart (sort_by_price (qualifying_series chart))
      = Some lines
    ∧ cmds = clear_background ++ draw_grid width height ++ draw_price_labels height r
               ++ draw_time_labels width height (chart_range chart) r ++ lines.
Proof.
  intros (Hvalid & r & Hr & Hmiss). unfold chart_draw_cb.
  rewrite Hvalid, Hr. simpl. rewrite Hmiss.
  destruct (collect_sort_info chart) as [infos|] eqn:Hinfos; [|done]. simpl.
  apply collect_sort_info_spec in Hinfos as [-> Hrec].
  destruct (draw_stocks _ _ _ _ _) as [lines|] eqn:Hlines; [|done]. simpl.
  intros [= <-]. by eexists _, _, lines.
Qed.

(** ** The draw pass: no read outside the arrays of aligned series *)

Lemma qualifies_count slot : qualifies slot = true → 0 < data_count slot.
Proof. unfold qualifies. intros [_ ?%Z.ltb_lt]%andb_prop. done. Qed.

Lemma scan_series_total slot r : in_bounds slot → is_Some (scan_series slot r).
Proof.
  intros Hb. unfold scan_series. destruct (qualifies slot) eqn:Hq; [|by eexists].
  destruct (Hb Hq) as [Hp Ht]. pose proof (qualifies_count _ Hq).
  destruct (for_each_total (scan_price slot) (λ _, True) (seqZ 0 (data_count slot)) r)
    as (r' & -> & _); [|done|].
  { intros j s [? ?]%elem_of_seqZ _. unfold scan_price.
    destruct (array_get_in_range (prices slot) j) as [p ->]; [lia|]. simpl.
    destruct (0 <? p)%float; by eexists. }
  simpl.
  destruct (array_get_in_range (timestamps slot) 0) as [first ->]; [lia|]. simpl.
  destruct (0 <? first); [|by eexists].
  destruct (array_get_in_range (timestamps slot) (data_count slot - 1)) as [last ->]; [lia|].
  simpl. destruct ((0 <? last) && (first <? 9999999999)); by eexists.
Qed.

Lemma find_ranges_total chart : all_in_bounds chart → is_Some (find_ranges chart).
Proof.
  intros Hall. unfold find_ranges.
  destruct (for_each_total scan_series (λ _, True) (chart_data chart) initial_ranges)
    as (r & -> & _); [|done|by eexists].
  intros slot r Hslot _.
  destruct (scan_series_total slot r) as [r' ->]; [|by eexists].
  unfold all_in_bounds in Hall. rewrite Forall_forall in Hall. by apply Hall.
Qed.

Lemma collect_sort_info_total chart :
  all_in_bounds chart → is_Some (collect_sort_info chart).
Proof.
  intros Hall. unfold collect_sort_info.
  destruct (for_each_total collect_stock (λ _, True) (imap pair (chart_data chart)) [])
    as (infos & -> & _); [|done|by eexists].
  intros [i0 slot0] acc Hin _. unfold collect_stock.
  apply elem_of_lookup_imap in Hin as (i & slot & [= -> ->] & Hslot).
  destruct (qualifies slot) eqn:Hq; [|by eexists].
  unfold all_in_bounds in Hall. rewrite Forall_forall in Hall.
  destruct (Hall slot) as [Hp _]; [by eapply list_elem_of_lookup_2|done|].
  pose proof (qualifies_count _ Hq).
  destruct (array_get_in_range (prices slot) (data_count slot - 1)) as [p ->]; [lia|].
  by eexists.
Qed.

Lemma draw_stock_total width r y_scale chart i info cmds :
  all_in_bounds chart → recorded chart info →
  is_Some (draw_stock width r y_scale chart (i, info) cmds).
Proof.
  intros Hall (slot & Hslot & Hq & Hlast). unfold draw_stock. rewrite Hslot. simpl.
  unfold all_in_bounds in Hall. rewrite Forall_forall in Hall.
  destruct (Hall slot) as [Hp Ht]; [|done|].
  { apply array_get_Some in Hslot as [_ Hslot]. by eapply list_elem_of_lookup_2. }
  destruct (for_each_total (draw_point width r y_scale slot) (λ _, True)
              (seqZ 0 (data_count slot)) ([], true)) as ([line b] & -> & _); [|done|].
  { intros j [c b] [? ?]%elem_of_seqZ _. unfold draw_point.
    destruct (array_get_in_range (prices slot) j) as [p ->]; [lia|]. simpl.
    destruct (0 <? p)%float; [|by eexists].
    destruct (array_get_in_range (timestamps slot) j) as [t ->]; [lia|]. simpl.
    destruct ((0 <? t) && (t <? 9999999999)); [|by eexists].
    destruct b; by eexists. }
  simpl. rewrite Hlast. by eexists.
Qed.

Lemma draw_stocks_total width r y_scale chart infos :
  all_in_bounds chart → Forall (recorded chart) infos →
  is_Some (draw_stocks width r y_scale chart infos).
Proof.
  intros Hall Hrec. unfold draw_stocks.
  destruct (for_each_total (draw_stock width r y_scale chart) (λ _, True)
              (imap pair infos) []) as (lines & -> & _); [|done|by eexists].
  intros [i0 info0] acc Hin _.
  apply elem_of_lookup_imap in Hin as (i & info & [= -> ->] & Hinfo).
  destruct (draw_stock_total width r y_scale chart i info acc) as [acc' ->];
    [done| |by eexists].
  rewrite Forall_forall in Hrec. apply Hrec. by eapply list_elem_of_lookup_2.
Qed.

(** A draw pass over aligned series runs to its end. *)
Lemma chart_draw_cb_total width height chart :
  all_in_bounds chart → is_Some (chart_draw_cb width height chart).
Proof.
  intros Hall. unfold chart_draw_cb.
  destruct (has_valid_data chart); simpl; [|by eexists].
  destruct (find_ranges_total chart Hall) as [r ->]. simpl.
  destruct (ranges_missing r); [by eexists|].
  destruct (collect_sort_info_total chart Hall) as [infos Hinfos]. rewrite Hinfos. simpl.
  apply collect_sort_info_spec in Hinfos as [-> Hrec].
  match goal with
  | |- context [draw_stocks ?w ?r ?ys ?c ?l] =>
      destruct (draw_stocks_total w r ys c l Hall) as [lines ->]
  end.
  { destruct (sort_by_price_spec (qualifying_series chart)) as [Hperm _].
    by rewrite Hperm. }
  by eexists.
Qed.

(** ** The draw pass: what the fixed parts show *)

Lemma omap_flat_map_nil {A B C} (f : B → option C) (g : A → list B) l :
  (∀ x, omap f (g x) = []) → omap f (flat_map g l) = [].
Proof.
  intros Hg. induction l as [|x l IH]; [done|].
  simpl. by rewrite omap_app, Hg, IH.
Qed.

Lemma frame_projection {C} (f : DrawCmd → option C) width height range r :
  (∀ c, f c ≠ None → ∃ t, c = ShowText t ∨ ∃ s, c = SetSourceColor s) →
  (∀ p, f (ShowText (PriceText p)) = None) →
  (∀ fmt t, f (ShowText (TimeText fmt t)) = None) →
  omap f (clear_background ++ draw_grid width height ++ draw_price_labels height r
            ++ draw_time_labels width height range r) = [].
Proof.
  intros Hf Hprice Htime.
  assert (∀ c, (∀ t, c ≠ ShowText t) → (∀ s, c ≠ SetSourceColor s) → f c = None)
    as Hnone.
  { intros c Ht Hs. destruct (f c) eqn:E; [|done].
    destruct (Hf c) as [t [->|[s ->]]]; [by rewrite E|by destruct (Ht t)|by destruct (Hs s)]. }
  unfold clear_background, draw_grid, draw_price_labels, draw_time_labels.
  rewrite !omap_app.
  rewrite !omap_flat_map_nil.
  - simpl. by rewrite !Hnone.
  - intros i. simpl. by rewrite Htime, Hnone.
  - intros i. simpl. by rewrite Hprice, Hnone.
  - intros i. simpl. by rewrite !Hnone.
  - intros i. simpl. by rewrite !Hnone.
Qed.

Lemma draw_stocks_projections width r y_scale chart infos lines :
  Forall (recorded chart) infos →
  draw_stocks width r y_scale chart infos = Some lines →
  legend_rows lines
  = (λ info, (series_symbol chart (index info), current_price info)) <$> infos
  ∧ stroke_colors lines = imap (λ i _, palette_color i) infos
  ∧ shown_messages lines = []
  ∧ Forall (λ c, ∀ r g b, c ≠ SetSourceRgb r g b) lines.
Proof.
  intros Hrec Hrun. unfold draw_stocks in Hrun.
  rewrite (imap_ext pair (λ i, pair (0 + i)%nat)) in Hrun by done.
  destruct (draw_stocks_from _ _ _ _ _ _ _ _ Hrec Hrun) as (? & ? & ? & Hrgb).
  split_and!; try done. by apply Hrgb.
Qed.

(** ** The placeholders *)

Lemma failed_handler msg i chart :
  fetch_failed msg → on_chart_data_received msg i chart = Some (queue_draw_if_visible chart).
Proof.
  intros [Hts Hcl]%failed_no_arrays.
  rewrite on_chart_data_received_walk. unfold store_timestamps, store_prices.
  by rewrite Hts, Hcl.
Qed.

(** C3 fails as stated: after a status-500 completion for the only
    symbol the draw pass shows "Loading chart data...". *)
Lemma failed_fetch_shows_loading : ¬ no_data_shown_after_failed_fetch.
Proof.
  intros H.
  pose proof (H "IBM"%string shown_chart _ _ (failed_response 500) _ 800 500 _
                eq_refl ltac:(vm_compute; discriminate) eq_refl eq_refl) as Hshown.
  vm_compute in Hshown. discriminate.
Qed.

(** ** The grid *)

(** C9 fails as stated: an 800 by 500 pass strokes eleven rows. *)
Lemma eleven_gridlines_counterexample : ¬ ten_gridlines_each_way.
Proof.
  intros H.
  assert (∃ cmds,
            chart_draw_cb 800 500 three_series = Some cmds
            ∧ length (filter (λ p, is_horizontal p = true) (grid_lines cmds)) = 11%nat)
    as (cmds & Hcmds & Hrows).
  { eexists. split; [vm_compute; reflexivity|]. vm_compute. reflexivity. }
  assert (reaches_geometry three_series) as Hgeo.
  { split; [reflexivity|]. eexists. split; [vm_compute; reflexivity|]. vm_compute. reflexivity. }
  destruct (H 800 500 three_series cmds Hgeo Hcmds) as [Hten _].
  rewrite Hrows in Hten. discriminate.
Qed.

Lemma grid_grey : is_grid_grey 0.9 0.9 0.9 = true.
Proof. vm_compute. reflexivity. Qed.

Lemma black_not_grid_grey : is_grid_grey 0 0 0 = false.
Proof. vm_compute. reflexivity. Qed.

Lemma white_not_grid_grey : is_grid_grey 1 1 1 = false.
Proof. vm_compute. reflexivity. Qed.

(** A run of one-segment strokes in the grid grey adds one grid line each. *)
Lemma pen_strokes {A} (segment : A → DrawCmd * DrawCmd) l lines :
  (∀ x, is_path_cmd (segment x).1 = true ∧ is_path_cmd (segment x).2 = true) →
  fold_left pen_step (flat_map (λ x, [ (segment x).1; (segment x).2; Stroke ]) l)
    {| pen_grid := true; pen_path := []; pen_lines := lines |}
  = {| pen_grid := true; pen_path := [];
       pen_lines := lines ++ ((λ x, [ (segment x).1; (segment x).2 ]) <$> l) |}.
Proof.
  intros Hseg. revert lines. induction l as [|x l IH]; intros lines.
  { simpl. by rewrite app_nil_r. }
  destruct (Hseg x) as [H1 H2]. simpl.
  destruct (segment x) as [c1 c2]. simpl in *.
  destruct c1; try done; destruct c2; try done; simpl; rewrite IH, <- app_assoc; done.
Qed.

(** Commands that select no RGB source leave a pen that is not on the grid
    grey without new grid lines. *)
Lemma pen_off_grid l pen :
  Forall (λ c, ∀ r g b, c ≠ SetSourceRgb r g b) l →
  pen_grid pen = false →
  pen_lines (fold_left pen_step l pen) = pen_lines pen.
Proof.
  revert pen. induction l as [|c l IH]; intros pen Hl Hpen; [done|].
  apply Forall_cons in Hl as [Hc Hl]. simpl.
  rewrite IH; [|done|]; destruct c; simpl; try done; try by rewrite Hpen.
  all: by destruct (Hc r g b).
Qed.

Lemma Forall_flat_map_all {A B} (P : B → Prop) (g : A → list B) l :
  (∀ x, Forall P (g x)) → Forall P (flat_map g l).
Proof.
  intros Hg. induction l as [|x l IH]; [constructor|].
  simpl. apply Forall_app. by split.
Qed.

Lemma fold_left_cons {A B} (f : A → B → A) x l s :
  fold_left f (x :: l) s = fold_left f l (f s x).
Proof. done. Qed.

(** The pen after the background and the grid: on the grid grey, with an
    empty path and the eleven rows and eleven columns stroked. *)
Lemma pen_after_grid width height :
  fold_left pen_step (clear_background ++ draw_grid width height)
    {| pen_grid := false; pen_path := []; pen_lines := [] |}
  = {| pen_grid := true; pen_path := [];
       pen_lines :=
         ((λ i, [ MoveTo 50 (grid_position height i);
                  LineTo (Z2F (width - 50)) (grid_position height i) ])
            <$> seqZ 0 11)
         ++ ((λ i, [ MoveTo (grid_position width i) 50;
                     LineTo (grid_position width i) (Z2F (height - 50)) ])
               <$> seqZ 0 11) |}.
Proof.
  unfold clear_background, draw_grid.
  rewrite !fold_left_app, !fold_left_cons.
  cbn [fold_left pen_step pen_grid pen_path pen_lines].
  rewrite grid_grey.
  rewrite (pen_strokes
             (λ i, (MoveTo 50 (grid_position height i),
                    LineTo (Z2F (width - 50)) (grid_position height i))))
    by done.
  rewrite (pen_strokes
             (λ i, (MoveTo (grid_position width i) 50,
                    LineTo (grid_position width i) (Z2F (height - 50)))))
    by done.
  done.
Qed.

(** The labels select black and no other RGB source. *)
Lemma labels_off_grid width height range r lines pen :
  Forall (λ c, ∀ r g b, c ≠ SetSourceRgb r g b) lines →
  pen_lines
    (fold_left pen_step
       (draw_price_labels height r ++ draw_time_labels width height range r ++ lines) pen)
  = pen_lines pen.
Proof.
  intros Hlines. unfold draw_price_labels, draw_time_labels.
  rewrite <- app_assoc. cbn [app]. rewrite fold_left_cons.
  rewrite pen_off_grid; [done| |].
  - do 2 (apply Forall_cons; split; [done|]).
    rewrite !Forall_app. split_and!; [| |done].
    + apply Forall_flat_map_all. intros i. by repeat constructor.
    + apply Forall_flat_map_all. intros i. by repeat constructor.
  - cbn [pen_step pen_grid]. apply black_not_grid_grey.
Qed.

(** C9, amended.  A draw pass over series that are in bounds and that
    gets past the placeholders returns, and the lines it strokes in the
    grid grey are eleven rows, row [i = 0 .. 10] from x = 50 to
    x = width - 50 at y = 50 + i * (height - 100) / 10, followed by eleven
    columns, column [i] from y = 50 to y = height - 50 at
    x = 50 + i * (width - 100) / 10. *)
Theorem grid_is_eleven_by_eleven width height chart :
  all_in_bounds chart →
  reaches_geometry chart →
  ∃ cmds,
    chart_draw_cb width height chart = Some cmds
    ∧ grid_lines cmds
      = ((λ i, [ MoveTo 50 (50 + Z2F i * Z2F (height - 100) / 10);
                 LineTo (Z2F (width - 50)) (50 + Z2F i * Z2F (height - 100) / 10) ]%float)
           <$> [ 0; 1; 2; 3; 4; 5; 6; 7; 8; 9; 10 ])
        ++ ((λ i, [ MoveTo (50 + Z2F i * Z2F (width - 100) / 10) 50;
                    LineTo (50 + Z2F i * Z2F (width - 100) / 10) (Z2F (height - 50)) ]%float)
              <$> [ 0; 1; 2; 3; 4; 5; 6; 7; 8; 9; 10 ]).
Proof.
  intros Hall Hgeo.
  destruct (chart_draw_cb_total width height chart Hall) as [cmds Hcmds].
  exists cmds. split; [done|].
  destruct (chart_draw_cb_geometry _ _ _ _ Hgeo Hcmds)
    as (r & y_scale & lines & Hrec & Hlines & ->).
  apply draw_stocks_projections in Hlines as (_ & _ & _ & Hrgb);
    [|by destruct (sort_by_price_spec (qualifying_series chart)) as [-> _]].
  unfold grid_lines.
  rewrite (app_assoc clear_background), fold_left_app, pen_after_grid.
  rewrite labels_off_grid by done.
  reflexivity.
Qed.

(** C9, amended, at an 800 by 500 pass. *)
Lemma grid_witness :
  ∃ cmds,
    chart_draw_cb 800 500 three_series = Some cmds
    ∧ length (grid_lines cmds) = 22%nat
    ∧ length (filter (λ p, is_horizontal p = true) (grid_lines cmds)) = 11%nat
    ∧ length (filter (λ p, is_vertical p = true) (grid_lines cmds)) = 11%nat.
Proof.
  destruct (grid_is_eleven_by_eleven 800 500 three_series) as (cmds & Hcmds & Hgrid).
  - do 3 (constructor; [intros _; simpl; lia|]). constructor.
  - split; [reflexivity|]. eexists. split; [vm_compute; reflexivity|]. vm_compute. reflexivity.
  - exists cmds. split; [done|]. rewrite Hgrid. split_and!; vm_compute; reflexivity.
Defined.

(** ** Reads past the end of the price array *)

(** C10, at the failing input.  A response with three timestamps and an
    empty close array leaves a valid series with [data_count = 3] and no
    prices; the series qualifies, and the draw pass reads [prices[0]]
    outside the array. *)
Theorem draw_reads_past_short_prices :
  ∃ chart,
    on_chart_data_received (chart_response [ JInt 1000; JInt 1010; JInt 1020 ] []) 0
      (fst (fetch_chart_data (Some [ "IBM"%string ]) shown_chart)) = Some chart
    ∧ chart_data chart
      = [ {| symbol := "IBM"; prices := []; timestamps := [ 1000; 1010; 1020 ];
             data_count := 3; valid := true |} ]
    ∧ has_valid_data chart = true
    ∧ chart_draw_cb 800 500 chart = None.
Proof. eexists. split; [reflexivity|]. split_and!; reflexivity. Qed.

Import Applet.

(** ** The summary completion handler *)

Lemma parse_stock_json_walk root i applet :
  parse_stock_json (json_node_get_object root) i applet =
  match root ≫= json_path meta_path with
  | Some (JObject meta) =>
      let current_price := json_object_get_double_member (Some meta) "regularMarketPrice" in
      let prev_close := json_object_get_double_member (Some meta) "previousClose" in
      if ((0 <? current_price) && (0 <? prev_close))%float then
        store_stock i current_price (((current_price - prev_close) / prev_close) * 100)%float
          applet
      else Some applet
  | _ => Some applet
  end.
Proof.
  unfold parse_stock_json, meta_path, result_path, json_object_has_member,
    json_object_get_object_member, json_object_get_null_member,
    json_object_get_array_member, json_array_get_object_element,
    json_array_get_element, json_array_get_length, json_object_get_member.
  destruct root as [[]|]; simpl; try done.
  walk; destruct elems; simplify_eq/=; done.
Qed.

Local Arguments json_path : simpl never.

Lemma stock_store_walk msg i applet :
  (if negb (status_code msg =? SOUP_STATUS_OK) then Some applet
   else match response_json msg with
        | None => Some applet
        | Some root => parse_stock_json (json_node_get_object root) i applet
        end)
  = match positive_quote msg with
    | Some (current, previous) =>
        store_stock i current (((current - previous) / previous) * 100)%float applet
    | None => Some applet
    end.
Proof.
  unfold positive_quote, summary_quote, parsed_root.
  destruct (status_code msg =? SOUP_STATUS_OK); simpl; [|done].
  destruct (response_json msg) as [root|]; simpl; [|done].
  rewrite parse_stock_json_walk.
  destruct root as [node|]; simpl; [|done].
  destruct (json_path meta_path node) as [[]|]; simpl; try done.
  match goal with |- context [if ?b then _ else _] => by destruct b end.
Qed.

Lemma store_stock_in_range i current change applet :
  parallel_arrays applet → 0 <= i < total_symbols applet →
  ∃ applet',
    store_stock i current change applet = Some applet'
    ∧ stock_prices applet' = <[Z.to_nat i := current]> (stock_prices applet)
    ∧ stock_changes applet' = <[Z.to_nat i := change]> (stock_changes applet)
    ∧ stock_valid applet' = <[Z.to_nat i := true]> (stock_valid applet)
    ∧ stock_symbols applet' = stock_symbols applet
    ∧ total_symbols applet' = total_symbols applet
    ∧ pending_requests applet' = pending_requests applet.
Proof.
  intros (Hs & Hp & Hc & Hv) Hi. unfold store_stock.
  rewrite !array_set_in_range by lia. simpl. by eexists.
Qed.

Lemma valid_indices_in_range applet :
  parallel_arrays applet →
  ∃ valid_indices,
    get_valid_stock_indices applet = Some valid_indices
    ∧ Forall (λ i, 0 <= i < total_symbols applet) valid_indices.
Proof.
  intros (Hs & Hp & Hc & Hv). unfold get_valid_stock_indices.
  apply (for_each_total _ (Forall (λ i, 0 <= i < total_symbols applet))); [|constructor].
  intros i acc [? ?]%elem_of_seqZ Hacc.
  destruct (array_get_in_range (stock_valid applet) i) as [v ->]; [lia|]. simpl.
  eexists. split; [done|]. destruct v; [|done].
  apply Forall_app. split; [done|]. constructor; [lia|constructor].
Qed.

Lemma display_stock_total stock_index applet :
  parallel_arrays applet → 0 <= stock_index < total_symbols applet →
  ∃ applet',
    display_stock_at_index stock_index applet = Some applet'
    ∧ stock_symbols applet' = stock_symbols applet
    ∧ stock_prices applet' = stock_prices applet
    ∧ stock_changes applet' = stock_changes applet
    ∧ stock_valid applet' = stock_valid applet
    ∧ total_symbols applet' = total_symbols applet.
Proof.
  intros (Hs & Hp & Hc & Hv) Hi. unfold display_stock_at_index.
  destruct (_ || _); [by eexists|].
  destruct (array_get_in_range (stock_symbols applet) stock_index) as [sym ->]; [lia|].
  destruct (array_get_in_range (stock_prices applet) stock_index) as [p ->]; [lia|].
  destruct (array_get_in_range (stock_changes applet) stock_index) as [c ->]; [lia|].
  simpl. by eexists.
Qed.

Lemma create_stock_tooltip_total applet :
  parallel_arrays applet → is_Some (create_stock_tooltip applet).
Proof.
  intros (Hs & Hp & Hc & Hv). unfold create_stock_tooltip.
  match goal with
  | |- context [for_each ?body ?l ?s] =>
      destruct (for_each_total body (λ _, True) l s) as ([lines n] & -> & _); [|done|]
  end.
  - intros i [lines n] [? ?]%elem_of_seqZ _.
    destruct (array_get_in_range (stock_valid applet) i) as [v ->]; [lia|].
    destruct (array_get_in_range (stock_symbols applet) i) as [sym ->]; [lia|].
    destruct (array_get_in_range (stock_prices applet) i) as [p ->]; [lia|].
    destruct (array_get_in_range (stock_changes applet) i) as [c ->]; [lia|].
    simpl. destruct v; by eexists.
  - simpl. destruct (n =? 0); by eexists.
Qed.

(** The block at the end of a generation reads inside the arrays and
    leaves them as they are. *)
Lemma all_requests_done_total applet :
  parallel_arrays applet →
  ∃ applet',
    all_requests_done applet = Some applet'
    ∧ stock_prices applet' = stock_prices applet
    ∧ stock_changes applet' = stock_changes applet
    ∧ stock_valid applet' = stock_valid applet.
Proof.
  intros Hpar. unfold all_requests_done.
  destruct (0 <? total_symbols applet); [|by eexists].
  destruct (valid_indices_in_range (set_cycle 0 false applet) Hpar)
    as (valid_indices & -> & Hrange).
  simpl. destruct valid_indices as [|first others]; [by eexists|].
  apply Forall_cons in Hrange as [Hfirst _].
  destruct (display_stock_total first (set_cycle 0 false applet) Hpar Hfirst)
    as (a1 & -> & Hs1 & Hp1 & Hc1 & Hv1 & Ht1).
  simpl.
  assert (parallel_arrays a1) as Hpar1.
  { unfold parallel_arrays. rewrite Hs1, Hp1, Hc1, Hv1, Ht1. exact Hpar. }
  match goal with
  | |- context [create_stock_tooltip ?a] =>
      destruct (create_stock_tooltip_total a) as [t ->]
  end.
  { by destruct (bool_decide _). }
  simpl. eexists. split; [done|].
  destruct (bool_decide _); simpl; by rewrite Hp1, Hc1, Hv1.
Qed.

(** C8.  A summary completion for a slot of well-formed parallel arrays
    is handled without a fault.  When the response has a [meta] object and
    both [regularMarketPrice] and [previousClose] are strictly positive,
    the slot receives the price, the change
    [(current - previous) / previous * 100] and the valid mark; in every
    other case the prices, changes and valid marks are left as they were. *)
Theorem percent_change_only_for_positive_prices msg i applet :
  parallel_arrays applet →
  0 <= i < total_symbols applet →
  ∃ applet',
    on_stock_data_received msg i applet = Some applet'
    ∧ match summary_quote msg with
      | Some (current, previous) =>
          if ((0 <? current) && (0 <? previous))%float then
            stock_prices applet' = <[Z.to_nat i := current]> (stock_prices applet)
            ∧ stock_changes applet'
              = <[Z.to_nat i := ((current - previous) / previous * 100)%float]>
                  (stock_changes applet)
            ∧ stock_valid applet' = <[Z.to_nat i := true]> (stock_valid applet)
          else
            stock_prices applet' = stock_prices applet
            ∧ stock_changes applet' = stock_changes applet
            ∧ stock_valid applet' = stock_valid applet
      | None =>
          stock_prices applet' = stock_prices applet
          ∧ stock_changes applet' = stock_changes applet
          ∧ stock_valid applet' = stock_valid applet
      end.
Proof.
  intros Hpar Hi. unfold on_stock_data_received. rewrite stock_store_walk.
  match goal with
  | |- context [mbind ?tail _] =>
      assert (∀ a, parallel_arrays a →
                ∃ a', mbind tail (Some a) = Some a'
                      ∧ stock_prices a' = stock_prices a
                      ∧ stock_changes a' = stock_changes a
                      ∧ stock_valid a' = stock_valid a) as Htail
  end.
  { intros a Ha. cbn [mbind option_bind]. cbv zeta. destruct (_ =? 0); [|by eexists].
    by apply (all_requests_done_total (set_pending _ a)). }
  unfold positive_quote.
  destruct (summary_quote msg) as [[current previous]|].
  2:{ destruct (Htail applet Hpar) as (a' & -> & ?). by exists a'. }
  destruct ((0 <? current) && (0 <? previous))%float.
  2:{ destruct (Htail applet Hpar) as (a' & -> & ?). by exists a'. }
  destruct (store_stock_in_range i current
              ((current - previous) / previous * 100)%float applet Hpar Hi)
    as (a1 & -> & Hp1 & Hc1 & Hv1 & Hs1 & Ht1 & _).
  destruct (Htail a1) as (a' & -> & Hp & Hc & Hv).
  { destruct Hpar as (Hs & Hp & Hc & Hv). unfold parallel_arrays.
    rewrite Hs1, Hp1, Hc1, Hv1, Ht1, !length_insert. done. }
  exists a'. split; [done|]. by rewrite Hp, Hc, Hv.
Qed.

(** C8 at a quote of 110 after a previous close of 100: a change of 10
    percent. *)
Lemma percent_change_witness :
  ∃ applet',
    on_stock_data_received (ibm_summary (JDouble 110) (JDouble 100)) 0
      (fst (invest_applet_update_stocks (Some [ "IBM"%string ])
              {| stock_summary := None; change_percent := 0; tooltip := None;
                 pending_requests := 0; total_symbols := 0; stock_symbols := [];
                 stock_prices := []; stock_changes := []; stock_valid := [];
                 cycle_position := 0; cycle_timer_armed := false |}))
    = Some applet'
    ∧ stock_prices applet' = [ 110%float ]
    ∧ stock_changes applet' = [ 10%float ]
    ∧ stock_valid applet' = [ true ].
Proof.
  destruct (percent_change_only_for_positive_prices
              (ibm_summary (JDouble 110) (JDouble 100)) 0
              (fst (invest_applet_update_stocks (Some [ "IBM"%string ])
                      {| stock_summary := None; change_percent := 0; tooltip := None;
                         pending_requests := 0; total_symbols := 0; stock_symbols := [];
                         stock_prices := []; stock_changes := []; stock_valid := [];
                         cycle_position := 0; cycle_timer_armed := false |})))
    as (applet' & Hrun & Hquote).
  - repeat split.
  - simpl. lia.
  - exists applet'. split; [done|]. vm_compute in Hquote. exact Hquote.
Defined.

(** * Further properties of the code *)

(** ** The chart completion handler: faults and order of arrival *)

Lemma slot_update_out_of_range chart i f :
  array_get (chart_data chart) i = None → slot_update chart i f = None.
Proof. intros H. unfold slot_update. by rewrite H. Qed.

Lemma handler_no_arrays msg i chart :
  timestamp_array msg = None → close_array msg = None →
  on_chart_data_received msg i chart = Some (queue_draw_if_visible chart).
Proof.
  intros Ht Hc. rewrite on_chart_data_received_walk.
  unfold store_timestamps, store_prices. by rewrite Ht, Hc.
Qed.

Lemma handler_out_of_range msg i chart :
  is_Some (timestamp_array msg) ∨ is_Some (close_array msg) →
  array_get (chart_data chart) i = None →
  on_chart_data_received msg i chart = None.
Proof.
  intros H Hslot.
  rewrite on_chart_data_received_walk. unfold store_timestamps, store_prices.
  destruct (timestamp_array msg); simpl.
  { by rewrite slot_update_out_of_range. }
  destruct (close_array msg); simpl.
  { by rewrite slot_update_out_of_range. }
  destruct H as [[? ?]|[? ?]]; done.
Qed.

Lemma arrays_or_none msg :
  (is_Some (timestamp_array msg) ∨ is_Some (close_array msg))
  ∨ (timestamp_array msg = None ∧ close_array msg = None).
Proof. destruct (timestamp_array msg), (close_array msg); eauto. Qed.

Lemma array_get_None {A} (a : list A) i :
  array_get a i = None ↔ ¬ (0 <= i < Z.of_nat (length a)).
Proof.
  split.
  - intros H Hr. apply (array_get_in_range a) in Hr as [? ?]. congruence.
  - intros H. destruct (array_get a i) eqn:E; [|done].
    apply array_get_lt in E. done.
Qed.

Lemma queue_draw_fields chart :
  window_visible (queue_draw_if_visible chart) = window_visible chart
  ∧ chart_range (queue_draw_if_visible chart) = chart_range chart
  ∧ chart_interval (queue_draw_if_visible chart) = chart_interval chart
  ∧ redraws_queued (queue_draw_if_visible chart)
    = (redraws_queued chart + if window_visible chart then 1 else 0)%nat.
Proof.
  unfold queue_draw_if_visible.
  destruct (window_visible chart) eqn:E; simpl; rewrite ?E; auto with lia.
Qed.

Lemma extracted_idempotent msg slot :
  extracted msg (extracted msg slot) = extracted msg slot.
Proof.
  unfold extracted. by destruct (timestamp_array msg), (close_array msg).
Qed.

(** C1, amended.  A completion carries its slot index and nothing that
    names the fetch that issued it, and the handler compares neither.
    Whatever fetch is current when a completion is handled: when its index
    is a slot of the current collection, the handler returns, keeps the
    number of slots, leaves every slot but the one at its index as it is,
    and writes there what it extracts from the response; when its index is
    not a slot of the current collection, the handler changes nothing if
    the response has neither a timestamp nor a close array, and otherwise
    stores outside the collection.  It returns and changes nothing at all
    when the fetch failed or the response has neither array. *)
Theorem completion_confined_to_its_slot msg i chart :
  (0 <= i < chart_data_count chart →
   ∃ slot chart',
     array_get (chart_data chart) i = Some slot
     ∧ on_chart_data_received msg i chart = Some chart'
     ∧ length (chart_data chart') = length (chart_data chart)
     ∧ (∀ j, j ≠ Z.to_nat i → chart_data chart' !! j = chart_data chart !! j)
     ∧ array_get (chart_data chart') i = Some (extracted msg slot))
  ∧ (¬ (0 <= i < chart_data_count chart) →
     if bool_decide (timestamp_array msg = None ∧ close_array msg = None)
     then ∃ chart', on_chart_data_received msg i chart = Some chart'
                    ∧ chart_data chart' = chart_data chart
     else on_chart_data_received msg i chart = None)
  ∧ (timestamp_array msg = None → close_array msg = None →
     ∃ chart', on_chart_data_received msg i chart = Some chart'
               ∧ chart_data chart' = chart_data chart)
  ∧ (fetch_failed msg →
     ∃ chart', on_chart_data_received msg i chart = Some chart'
               ∧ chart_data chart' = chart_data chart)
  ∧ (∀ chart', on_chart_data_received msg i chart = Some chart' →
       length (chart_data chart') = length (chart_data chart)
       ∧ (∀ j, j ≠ Z.to_nat i → chart_data chart' !! j = chart_data chart !! j)
       ∧ (∀ slot, array_get (chart_data chart) i = Some slot →
            array_get (chart_data chart') i = Some (extracted msg slot))).
Proof.
  assert (timestamp_array msg = None → close_array msg = None →
          ∃ chart', on_chart_data_received msg i chart = Some chart'
                    ∧ chart_data chart' = chart_data chart) as Hnone.
  { intros Hts Hcl. eexists. split; [by apply handler_no_arrays|].
    apply chart_data_queue_draw. }
  unfold chart_data_count. split_and!.
  - intros Hi. destruct (array_get_in_range (chart_data chart) i Hi) as [slot Hslot].
    destruct (handler_slot msg i chart slot Hslot) as (chart' & Hrun & Hnew & Hlen & Hothers).
    by exists slot, chart'.
  - intros Hout%array_get_None.
    destruct (arrays_or_none msg) as [Hsome|[Hts Hcl]].
    + rewrite bool_decide_eq_false_2.
      * by apply handler_out_of_range.
      * intros [Hts Hcl]. rewrite Hts, Hcl in Hsome. destruct Hsome as [[? ?]|[? ?]]; done.
    + rewrite bool_decide_eq_true_2 by done. by apply Hnone.
  - exact Hnone.
  - intros [Hts Hcl]%failed_no_arrays. by apply Hnone.
  - intros chart' Hrun.
    destruct (handler_result _ _ _ _ Hrun) as [(Hts & Hcl & ->) | (slot & Hslot & ->)].
    + rewrite chart_data_queue_draw. split_and!; try done.
      intros slot Hslot. destruct (handler_slot msg _ _ _ Hslot) as (c & Hc & Hs & _).
      rewrite Hc in Hrun. injection Hrun as ->. by rewrite chart_data_queue_draw in Hs.
    + rewrite chart_data_queue_draw in *. simpl in *. split_and!.
      * by rewrite length_insert.
      * intros j Hj. by rewrite list_lookup_insert_ne.
      * intros slot' Hslot'. rewrite Hslot in Hslot'. injection Hslot' as <-.
        by eapply array_get_insert.
Qed.

(** C1, amended, at completions of the requests of a replaced fetch.  The
    first fills slot 0 of the current collection and leaves slot 1 alone;
    the second, for a symbol the current fetch no longer has, stores
    outside the collection. *)
Lemma completion_confined_witness :
  (∃ chart',
     on_chart_data_received
       (chart_response [ JInt 1000; JInt 1010; JInt 1020 ]
                       [ JDouble 10; JDouble 11; JDouble 12 ]) 0
       (fst (fetch_chart_data (Some [ "IBM"; "AAPL" ]%string)
               (fst (fetch_chart_data (Some [ "IBM"%string ]) shown_chart)))) = Some chart'
     ∧ chart_data chart' !! 1%nat = Some (empty_series "AAPL")
     ∧ array_get (chart_data chart') 0
       = Some {| symbol := "IBM"; prices := [ 10; 11; 12 ]%float;
                 timestamps := [ 1000; 1010; 1020 ]; data_count := 3; valid := true |})
  ∧ on_chart_data_received
      (chart_response [ JInt 1000; JInt 1010; JInt 1020 ]
                      [ JDouble 10; JDouble 11; JDouble 12 ]) 1
      (fst (fetch_chart_data (Some [ "IBM"%string ])
              (fst (fetch_chart_data (Some [ "IBM"; "AAPL" ]%string) shown_chart)))) = None.
Proof.
  split.
  - destruct (completion_confined_to_its_slot
                (chart_response [ JInt 1000; JInt 1010; JInt 1020 ]
                                [ JDouble 10; JDouble 11; JDouble 12 ]) 0
                (fst (fetch_chart_data (Some [ "IBM"; "AAPL" ]%string)
                        (fst (fetch_chart_data (Some [ "IBM"%string ]) shown_chart)))))
      as (Hin & _).
    destruct Hin as (slot & chart' & Hslot & Hrun & _ & Hothers & Hnew);
      [vm_compute; split; [discriminate|reflexivity]|].
    exists chart'. split; [exact Hrun|]. split.
    + rewrite (Hothers 1%nat); [reflexivity|discriminate].
    + rewrite Hnew. vm_compute in Hslot. injection Hslot as <-. vm_compute. reflexivity.
  - destruct (completion_confined_to_its_slot
                (chart_response [ JInt 1000; JInt 1010; JInt 1020 ]
                                [ JDouble 10; JDouble 11; JDouble 12 ]) 1
                (fst (fetch_chart_data (Some [ "IBM"%string ])
                        (fst (fetch_chart_data (Some [ "IBM"; "AAPL" ]%string) shown_chart)))))
      as (_ & Hout & _).
    assert (bool_decide
              (timestamp_array (chart_response [ JInt 1000; JInt 1010; JInt 1020 ]
                                               [ JDouble 10; JDouble 11; JDouble 12 ]) = None
               ∧ close_array (chart_response [ JInt 1000; JInt 1010; JInt 1020 ]
                                             [ JDouble 10; JDouble 11; JDouble 12 ]) = None)
            = false) as E.
    { apply bool_decide_eq_false_2. intros [Hts _]. vm_compute in Hts. discriminate. }
    rewrite E in Hout. apply Hout. vm_compute. intros [_ H]. discriminate.
Defined.

(** X1.  The handler faults exactly when the response has a timestamp
    array or a close array and the slot index of the completion is
    outside the collection: that is when it writes through
    [chart_data[symbol_index]] outside the allocation. *)
Theorem completion_faults_iff_stray_store msg i chart :
  on_chart_data_received msg i chart = None
  ↔ (is_Some (timestamp_array msg) ∨ is_Some (close_array msg))
    ∧ ¬ (0 <= i < chart_data_count chart).
Proof.
  unfold chart_data_count. rewrite <- array_get_None.
  destruct (array_get (chart_data chart) i) as [slot|] eqn:Hslot.
  - rewrite (handler_in_range _ _ _ _ Hslot). split; [done|]. by intros [_ ?].
  - destruct (arrays_or_none msg) as [Hc|[Ht Hc]].
    + by rewrite handler_out_of_range.
    + rewrite handler_no_arrays by done. rewrite Ht, Hc.
      split; [done|]. intros [[[? ?]|[? ?]] _]; done.
Qed.

(** X2.  Handling the same response for the same slot a second time
    returns and leaves the collection as the first handling left it. *)
Theorem completion_is_idempotent msg i chart chart1 :
  on_chart_data_received msg i chart = Some chart1 →
  ∃ chart2, on_chart_data_received msg i chart1 = Some chart2
            ∧ chart_data chart2 = chart_data chart1.
Proof.
  intros H. apply handler_result in H as [(Ht & Hc & ->)|(slot & Hslot & ->)].
  - eexists. split; [by apply handler_no_arrays|].
    by rewrite !chart_data_queue_draw.
  - eexists. split.
    + apply handler_in_range. rewrite chart_data_queue_draw. simpl.
      by eapply array_get_insert.
    + rewrite !chart_data_queue_draw. simpl.
      by rewrite extracted_idempotent, list_insert_insert_eq.
Qed.

Lemma completion_is_idempotent_witness :
  ∃ chart1 chart2,
    on_chart_data_received (chart_response [ JInt 1000; JInt 1010 ] [ JDouble 10; JDouble 11 ]) 0
      (fst (fetch_chart_data (Some [ "IBM"%string ]) shown_chart)) = Some chart1
    ∧ on_chart_data_received (chart_response [ JInt 1000; JInt 1010 ] [ JDouble 10; JDouble 11 ]) 0
        chart1 = Some chart2
    ∧ chart_data chart2 = chart_data chart1.
Proof.
  eexists.
  assert (on_chart_data_received (chart_response [ JInt 1000; JInt 1010 ] [ JDouble 10; JDouble 11 ]) 0
            (fst (fetch_chart_data (Some [ "IBM"%string ]) shown_chart))
          = Some {| window_visible := true; redraws_queued := 2;
                    chart_data := [ {| symbol := "IBM"; prices := [ 10; 11 ]%float;
                                       timestamps := [ 1000; 1010 ]; data_count := 2;
                                       valid := true |} ];
                    chart_range := Some "1d"%string; chart_interval := Some "1m"%string |}) as H1
    by (vm_compute; reflexivity).
  destruct (completion_is_idempotent _ _ _ _ H1) as (chart2 & H2 & H3).
  exists chart2. split; [exact H1|]. split; [exact H2|exact H3].
Defined.

Lemma with_chart_data_queue_draw chart data :
  queue_draw_if_visible (with_chart_data chart data)
  = with_chart_data (queue_draw_if_visible chart) data.
Proof. by destruct chart as [[] ? ? ? ?]. Qed.

Lemma with_chart_data_twice chart data1 data2 :
  with_chart_data (with_chart_data chart data1) data2 = with_chart_data chart data2.
Proof. done. Qed.

Lemma queue_draw_with_data_twice chart data1 data2 :
  queue_draw_if_visible (with_chart_data (queue_draw_if_visible (with_chart_data chart data1)) data2)
  = with_chart_data (queue_draw_if_visible (queue_draw_if_visible chart)) data2.
Proof. by destruct chart as [[] ? ? ? ?]. Qed.

(** X3.  Two completions for different slots can be handled in either
    order: both orders fault or both return, and then they return the
    same chart. *)
Theorem completions_for_different_slots_commute msg1 i1 msg2 i2 chart :
  i1 ≠ i2 →
  (chart ← on_chart_data_received msg1 i1 chart; on_chart_data_received msg2 i2 chart)
  = (chart ← on_chart_data_received msg2 i2 chart; on_chart_data_received msg1 i1 chart).
Proof.
  intros Hne.
  assert (∀ msg i msg' i', i ≠ i' →
            timestamp_array msg = None → close_array msg = None →
            (chart ← on_chart_data_received msg i chart; on_chart_data_received msg' i' chart)
            = (chart ← on_chart_data_received msg' i' chart; on_chart_data_received msg i chart))
    as Hquiet.
  { intros msg i msg' i' _ Ht Hc. rewrite (handler_no_arrays msg i chart) by done. simpl.
    destruct (array_get (chart_data chart) i') as [slot|] eqn:Hslot.
    - rewrite (handler_in_range _ _ _ _ Hslot). simpl.
      rewrite (handler_no_arrays msg i) by done.
      erewrite handler_in_range by (rewrite chart_data_queue_draw; done).
      rewrite chart_data_queue_draw. f_equal.
      by destruct chart as [[] ? ? ? ?].
    - destruct (arrays_or_none msg') as [Hs|[Ht' Hc']].
      + rewrite !handler_out_of_range; rewrite ?chart_data_queue_draw; done.
      + rewrite !(handler_no_arrays msg') by done. simpl.
        by rewrite handler_no_arrays. }
  destruct (arrays_or_none msg1) as [Hs1|[Ht1 Hc1]]; [|by apply Hquiet].
  destruct (arrays_or_none msg2) as [Hs2|[Ht2 Hc2]]; [|symmetry; by apply Hquiet].
  destruct (array_get (chart_data chart) i1) as [slot1|] eqn:Hslot1;
    destruct (array_get (chart_data chart) i2) as [slot2|] eqn:Hslot2.
  - rewrite (handler_in_range _ _ _ _ Hslot1), (handler_in_range _ _ _ _ Hslot2). simpl.
    pose proof (array_get_lt _ _ _ Hslot1). pose proof (array_get_lt _ _ _ Hslot2).
    assert (Z.to_nat i1 ≠ Z.to_nat i2) as Hn by lia.
    erewrite (handler_in_range msg2 i2 _ slot2); last first.
    { rewrite chart_data_queue_draw. simpl. apply array_get_Some in Hslot2 as [? ?].
      apply array_get_Some. split; [done|]. by rewrite list_lookup_insert_ne. }
    erewrite (handler_in_range msg1 i1 _ slot1); last first.
    { rewrite chart_data_queue_draw. simpl. apply array_get_Some in Hslot1 as [? ?].
      apply array_get_Some. split; [done|]. by rewrite list_lookup_insert_ne. }
    rewrite !chart_data_queue_draw. simpl.
    rewrite !queue_draw_with_data_twice. do 2 f_equal.
    by apply list_insert_insert_ne.
  - rewrite (handler_in_range _ _ _ _ Hslot1). simpl.
    rewrite !handler_out_of_range; rewrite ?chart_data_queue_draw; try done.
    simpl. apply array_get_None. rewrite length_insert. by apply array_get_None.
  - rewrite (handler_in_range _ _ _ _ Hslot2). simpl.
    rewrite !handler_out_of_range; rewrite ?chart_data_queue_draw; try done.
    simpl. apply array_get_None. rewrite length_insert. by apply array_get_None.
  - rewrite !handler_out_of_range; done.
Qed.

Lemma completions_for_different_slots_commute_witness :
  0 ≠ 1
  ∧ (chart ← on_chart_data_received (chart_response [ JInt 1000 ] [ JDouble 10 ]) 0
               (fst (fetch_chart_data (Some [ "IBM"; "AAPL" ]%string) shown_chart));
     on_chart_data_received (failed_response 500) 1 chart)
    = (chart ← on_chart_data_received (failed_response 500) 1
                 (fst (fetch_chart_data (Some [ "IBM"; "AAPL" ]%string) shown_chart));
       on_chart_data_received (chart_response [ JInt 1000 ] [ JDouble 10 ]) 0 chart).
Proof.
  split; [lia|]. apply completions_for_different_slots_commute. lia.
Defined.

(** X4.  When the response has a close array and the slot exists, the
    handler returns, the series is marked valid, the stored prices have
    the length of the close array, and cell [j] holds element [j] when it
    is a double and 0.0 otherwise: a null, and also a price written as an
    integer literal, is stored as 0.0. *)
Theorem prices_copied_with_zero_sentinel msg i chart slot closes :
  array_get (chart_data chart) i = Some slot →
  close_array msg = Some closes →
  ∃ chart' slot',
    on_chart_data_received msg i chart = Some chart'
    ∧ array_get (chart_data chart') i = Some slot'
    ∧ valid slot' = true
    ∧ length (prices slot') = length closes
    ∧ ∀ j node, closes !! j = Some node →
        prices slot' !! j = Some (match node with JDouble d => d | _ => 0%float end).
Proof.
  intros Hslot Hc.
  destruct (handler_slot msg i chart slot Hslot) as (chart' & H1 & H2 & _).
  destruct (extracted_prices msg slot closes Hc) as [Hp Hv].
  exists chart', (extracted msg slot). split_and!; [done|done|done| |].
  - by rewrite Hp, length_fmap.
  - intros j node Hj. rewrite Hp, list_lookup_fmap, Hj. done.
Qed.

Lemma prices_copied_witness :
  ∃ chart' slot',
    on_chart_data_received
      (chart_response [ JInt 1000; JInt 1010; JInt 1020 ] [ JDouble 10.5; JInt 150; JNull ]) 0
      (fst (fetch_chart_data (Some [ "IBM"%string ]) shown_chart)) = Some chart'
    ∧ array_get (chart_data chart') 0 = Some slot'
    ∧ valid slot' = true
    ∧ prices slot' = [ 10.5; 0; 0 ]%float.
Proof.
  assert (array_get (chart_data (fst (fetch_chart_data (Some [ "IBM"%string ]) shown_chart))) 0
          = Some (empty_series "IBM")) as Hslot by reflexivity.
  assert (close_array
            (chart_response [ JInt 1000; JInt 1010; JInt 1020 ] [ JDouble 10.5; JInt 150; JNull ])
          = Some [ JDouble 10.5; JInt 150; JNull ]) as Hc by (vm_compute; reflexivity).
  destruct (prices_copied_with_zero_sentinel _ _ _ _ _ Hslot Hc)
    as (chart' & slot' & H1 & H2 & H3 & H4 & H5).
  exists chart', slot'. split_and!; [done|done|done|].
  pose proof (H5 0%nat _ eq_refl) as P0.
  pose proof (H5 1%nat _ eq_refl) as P1.
  pose proof (H5 2%nat _ eq_refl) as P2.
  destruct (prices slot') as [|p0 [|p1 [|p2 [|]]]]; simplify_eq/=. done.
Defined.

Lemma responses_for_cons j msg i completions :
  responses_for j ((msg, i) :: completions)
  = if decide (i = Z.of_nat j) then msg :: responses_for j completions
    else responses_for j completions.
Proof.
  unfold responses_for. rewrite filter_cons. simpl. by destruct (decide (i = Z.of_nat j)).
Qed.

(** X5.  Completions whose slot indices are inside the collection can be
    delivered in any number and order: every one returns, slot [j] ends
    up as the responses for [j] applied to it one after the other in their
    order of arrival, whatever was delivered to other slots in between,
    and a visible window is asked to redraw once per completion. *)
Theorem deliveries_act_slot_by_slot completions chart :
  Forall (λ completion, 0 <= completion.2 < chart_data_count chart) completions →
  ∃ chart',
    ChartWindow.deliver completions chart = Some chart'
    ∧ chart_data chart'
      = imap (λ j slot, foldl (λ slot msg, extracted msg slot) slot (responses_for j completions))
             (chart_data chart)
    ∧ redraws_queued chart'
      = (redraws_queued chart + if window_visible chart then length completions else 0)%nat
    ∧ window_visible chart' = window_visible chart.
Proof.
  unfold ChartWindow.deliver, chart_data_count.
  revert chart. induction completions as [|[msg i] completions IH]; intros chart Hall.
  - exists chart. split_and!; [done| |by destruct (window_visible chart); simpl; lia|done].
    apply list_eq. intros j. rewrite list_lookup_imap. by destruct (chart_data chart !! j).
  - apply Forall_cons in Hall as [Hi Hall]. simpl in Hi.
    destruct (array_get_in_range (chart_data chart) i Hi) as [slot Hslot].
    rewrite for_each_cons. simpl. rewrite (handler_in_range _ _ _ _ Hslot). simpl.
    destruct (IH (queue_draw_if_visible
                    (with_chart_data chart (<[Z.to_nat i := extracted msg slot]> (chart_data chart)))))
      as (chart' & Hd & Hdata & Hredraw & Hvis).
    { rewrite chart_data_queue_draw. simpl. by rewrite length_insert. }
    exists chart'. split; [done|].
    rewrite chart_data_queue_draw in Hdata. simpl in Hdata.
    destruct (queue_draw_fields
                (with_chart_data chart (<[Z.to_nat i := extracted msg slot]> (chart_data chart))))
      as (Hv & _ & _ & Hr).
    simpl in Hv, Hr. rewrite Hv in Hvis, Hredraw. rewrite Hr in Hredraw.
    split_and!; [|rewrite Hredraw; destruct (window_visible chart); simpl; lia|done].
    rewrite Hdata. apply list_eq. intros j. rewrite !list_lookup_imap.
    rewrite responses_for_cons.
    apply array_get_Some in Hslot as [? Hslot].
    destruct (decide (i = Z.of_nat j)) as [->|Hne].
    + rewrite Nat2Z.id in Hslot |- *.
      rewrite list_lookup_insert_eq by (by eapply lookup_lt_Some).
      by rewrite Hslot.
    + by rewrite list_lookup_insert_ne by lia.
Qed.

Lemma deliveries_act_slot_by_slot_witness :
  ∃ chart',
    ChartWindow.deliver
      [ (chart_response [ JInt 1000 ] [ JDouble 10 ], 1); (failed_response 500, 0);
        (chart_response [ JInt 2000 ] [ JDouble 20 ], 1) ]
      (fst (fetch_chart_data (Some [ "IBM"; "AAPL" ]%string) shown_chart)) = Some chart'
    ∧ chart_data chart'
      = [ empty_series "IBM";
          {| symbol := "AAPL"; prices := [ 20%float ]; timestamps := [ 2000 ];
             data_count := 1; valid := true |} ]
    ∧ redraws_queued chart' = 4%nat.
Proof.
  destruct (deliveries_act_slot_by_slot
              [ (chart_response [ JInt 1000 ] [ JDouble 10 ], 1); (failed_response 500, 0);
                (chart_response [ JInt 2000 ] [ JDouble 20 ], 1) ]
              (fst (fetch_chart_data (Some [ "IBM"; "AAPL" ]%string) shown_chart)))
    as (chart' & Hd & Hdata & Hredraw & _).
  { repeat (apply Forall_cons; split; [vm_compute; split; [discriminate|reflexivity]|]).
    apply Forall_nil_2. }
  exists chart'. split; [exact Hd|]. split.
  - rewrite Hdata. vm_compute. reflexivity.
  - rewrite Hredraw. reflexivity.
Defined.

(** ** From the completions to the draw pass *)

Lemma extracted_covering msg slot :
  covering_response msg →
  data_count slot <= Z.of_nat (length (timestamps slot))
  ∧ (valid slot = true → data_count slot <= Z.of_nat (length (prices slot))) →
  data_count (extracted msg slot) <= Z.of_nat (length (timestamps (extracted msg slot)))
  ∧ (valid (extracted msg slot) = true →
     data_count (extracted msg slot) <= Z.of_nat (length (prices (extracted msg slot)))).
Proof.
  unfold covering_response, extracted. intros Hc Hslot.
  destruct (timestamp_array msg) as [elems|], (close_array msg) as [closes|];
    try done; simpl.
  rewrite !length_fmap. split; [lia|]. intros _. lia.
Qed.

Lemma deliver_covering completions chart :
  Forall (λ slot, data_count slot <= Z.of_nat (length (timestamps slot))
                  ∧ (valid slot = true → data_count slot <= Z.of_nat (length (prices slot))))
         (chart_data chart) →
  Forall (λ completion, covering_response completion.1
                        ∧ 0 <= completion.2 < chart_data_count chart) completions →
  ∃ chart', ChartWindow.deliver completions chart = Some chart' ∧ all_in_bounds chart'.
Proof.
  unfold ChartWindow.deliver, chart_data_count.
  revert chart. induction completions as [|[msg i] completions IH]; intros chart Hdata Hall.
  - exists chart. split; [done|]. unfold all_in_bounds.
    eapply Forall_impl; [exact Hdata|]. intros slot [Ht Hp] [Hv _]%andb_prop. auto.
  - apply Forall_cons in Hall as [[Hc Hi] Hall]. simpl in Hc, Hi.
    destruct (array_get_in_range (chart_data chart) i Hi) as [slot Hslot].
    rewrite for_each_cons. simpl. rewrite (handler_in_range _ _ _ _ Hslot). simpl.
    apply IH.
    + rewrite chart_data_queue_draw. simpl. apply Forall_insert; [done|].
      apply extracted_covering; [done|].
      rewrite Forall_forall in Hdata. apply Hdata.
      apply array_get_Some in Hslot as [_ Hslot]. by eapply list_elem_of_lookup_2.
    + rewrite chart_data_queue_draw. simpl. by rewrite length_insert.
Qed.

(** X6.  After a fetch, completions are delivered in any number and
    order.  When each response has a close array at least as long as its
    timestamp array, or neither array, and each slot index is that of a
    configured symbol, every completion returns and the draw pass that
    follows returns: it reads no array outside its allocation. *)
Theorem draw_returns_after_covering_completions symbols chart0 completions width height :
  symbols ≠ [] →
  Forall (λ completion, covering_response completion.1
                        ∧ 0 <= completion.2 < Z.of_nat (length symbols)) completions →
  ∃ chart' cmds,
    ChartWindow.deliver completions (fetch_chart_data (Some symbols) chart0).1 = Some chart'
    ∧ chart_draw_cb width height chart' = Some cmds.
Proof.
  intros Hne Hall.
  assert (chart_data (fetch_chart_data (Some symbols) chart0).1 = empty_series <$> symbols)
    as Hdata.
  { destruct symbols; [done|]. simpl. by rewrite chart_data_queue_draw. }
  destruct (deliver_covering completions (fetch_chart_data (Some symbols) chart0).1)
    as (chart' & Hd & Hb).
  - rewrite Hdata. apply Forall_fmap, Forall_true. intros sym. simpl. done.
  - unfold chart_data_count. by rewrite Hdata, length_fmap.
  - destruct (chart_draw_cb_total width height chart' Hb) as [cmds Hcmds]. eauto.
Qed.

Lemma draw_returns_witness :
  ∃ chart' cmds,
    ChartWindow.deliver
      [ (chart_response [ JInt 1000; JInt 1060 ] [ JDouble 10; JNull; JDouble 12 ], 1);
        (failed_response 404, 0) ]
      (fetch_chart_data (Some [ "IBM"; "AAPL" ]%string) shown_chart).1 = Some chart'
    ∧ chart_draw_cb 800 500 chart' = Some cmds.
Proof.
  apply (draw_returns_after_covering_completions [ "IBM"; "AAPL" ]%string shown_chart); [done|].
  apply Forall_cons. split.
  { split; [vm_compute; lia|simpl; lia]. }
  apply Forall_cons. split.
  { split; [vm_compute; exact I|simpl; lia]. }
  apply Forall_nil_2.
Defined.

Lemma for_each_fault {S A} (body : A → S → option S) l s x :
  x ∈ l → (∀ s, body x s = None) → for_each body l s = None.
Proof.
  intros Hin Hx. revert s. induction l as [|y l IH]; intros s.
  - by apply elem_of_nil in Hin.
  - rewrite for_each_cons. apply elem_of_cons in Hin as [<-|Hin].
    + by rewrite Hx.
    + destruct (body y s); [|done]. simpl. by apply IH.
Qed.

Lemma has_valid_data_elem chart slot :
  slot ∈ chart_data chart → qualifies slot = true → has_valid_data chart = true.
Proof.
  intros Hin Hq. unfold has_valid_data. apply existsb_exists. exists slot.
  split; [|done]. by apply list_elem_of_In.
Qed.

(** X7.  A draw pass over a collection that holds a valid series with
    fewer prices than its [data_count] faults, whatever the other series
    and the size of the drawing area are: the scan for the price range
    reads [prices[j]] for every [j] below [data_count]. *)
Theorem draw_faults_on_short_prices width height chart slot :
  slot ∈ chart_data chart →
  valid slot = true →
  Z.of_nat (length (prices slot)) < data_count slot →
  chart_draw_cb width height chart = None.
Proof.
  intros Hin Hv Hshort.
  assert (qualifies slot = true) as Hq.
  { unfold qualifies. rewrite Hv. simpl. apply Z.ltb_lt. lia. }
  unfold chart_draw_cb. rewrite (has_valid_data_elem chart slot Hin Hq). simpl.
  unfold find_ranges. rewrite (for_each_fault scan_series _ _ slot); [done|done|].
  intros r. unfold scan_series. rewrite Hq.
  rewrite (for_each_fault (scan_price slot) _ _ (Z.of_nat (length (prices slot)))); [done| |].
  - apply elem_of_seqZ. lia.
  - intros r'. unfold scan_price.
    rewrite (proj2 (array_get_None (prices slot) _)); [done|lia].
Qed.

Lemma draw_faults_on_short_prices_witness :
  chart_draw_cb 800 500
    {| window_visible := true; redraws_queued := 0;
       chart_data :=
         [ {| symbol := "AAA"; prices := [ 48; 50 ]%float; timestamps := [ 1000; 1060 ];
              data_count := 2; valid := true |};
           {| symbol := "BBB"; prices := [ 190%float ]; timestamps := [ 1000; 1060 ];
              data_count := 2; valid := true |} ];
       chart_range := Some "1d"%string; chart_interval := Some "1m"%string |} = None.
Proof.
  apply (draw_faults_on_short_prices 800 500 _
           {| symbol := "BBB"; prices := [ 190%float ]; timestamps := [ 1000; 1060 ];
              data_count := 2; valid := true |}).
  - simpl. apply list_elem_of_further, list_elem_of_here.
  - reflexivity.
  - simpl. lia.
Defined.

(** ** The draw pass: nothing to plot, and the line of a series *)

Lemma scan_series_no_price slot r :
  in_bounds slot →
  (qualifies slot = true → ∀ p, p ∈ prices slot → (0 <? p)%float = false) →
  ∃ r', scan_series slot r = Some r' ∧ min_price r' = min_price r.
Proof.
  intros Hb Hnone. unfold scan_series. destruct (qualifies slot) eqn:Hq; [|by eexists].
  destruct (Hb Hq) as [Hp Ht]. pose proof (qualifies_count _ Hq).
  destruct (for_each_total (scan_price slot) (λ r', min_price r' = min_price r)
              (seqZ 0 (data_count slot)) r) as (r' & -> & Hr'); [|done|].
  { intros j s [? ?]%elem_of_seqZ Hs. unfold scan_price.
    destruct (array_get_in_range (prices slot) j) as [p Hj]; [lia|]. rewrite Hj. simpl.
    rewrite (Hnone eq_refl p); [by eexists|].
    apply array_get_Some in Hj as [_ Hj]. by eapply list_elem_of_lookup_2. }
  simpl.
  destruct (array_get_in_range (timestamps slot) 0) as [first ->]; [lia|]. simpl.
  destruct (0 <? first); [|by eexists].
  destruct (array_get_in_range (timestamps slot) (data_count slot - 1)) as [last ->]; [lia|].
  simpl. destruct ((0 <? last) && (first <? 9999999999)); by eexists.
Qed.

(** X8.  Take a collection whose valid series have at least
    [data_count] prices and timestamps.  When it has a valid series but
    no valid series has a positive price (every close was null, say), the
    draw pass shows the placeholder "No chart data available" and nothing
    else: no grid, no labels, no legend. *)
Theorem no_positive_price_placeholder width height chart :
  all_in_bounds chart →
  has_valid_data chart = true →
  (∀ slot p, slot ∈ chart_data chart → qualifies slot = true → p ∈ prices slot →
             (0 <? p)%float = false) →
  chart_draw_cb width height chart
  = Some (clear_background ++ draw_loading_message width height "No chart data available").
Proof.
  intros Hall Hvalid Hnone. unfold chart_draw_cb. rewrite Hvalid. simpl.
  unfold find_ranges.
  destruct (for_each_total scan_series (λ r, min_price r = G_MAXDOUBLE)
              (chart_data chart) initial_ranges) as (r & -> & Hr); [|done|].
  { intros slot r Hslot Hr.
    destruct (scan_series_no_price slot r) as (r' & -> & Hr').
    - unfold all_in_bounds in Hall. rewrite Forall_forall in Hall. by apply Hall.
    - intros Hq p Hp. by eapply Hnone.
    - exists r'. split; [done|congruence]. }
  simpl. unfold ranges_missing. rewrite Hr. done.
Qed.

Lemma no_positive_price_witness :
  ∃ chart,
    on_chart_data_received (chart_response [ JInt 1000; JInt 1060 ] [ JNull; JNull ]) 0
      (fetch_chart_data (Some [ "IBM"%string ]) shown_chart).1 = Some chart
    ∧ chart_draw_cb 800 500 chart
      = Some (clear_background ++ draw_loading_message 800 500 "No chart data available").
Proof.
  eexists. split; [vm_compute; reflexivity|].
  apply no_positive_price_placeholder.
  - apply Forall_cons. split; [|apply Forall_nil_2]. intros _. simpl. lia.
  - reflexivity.
  - simpl. intros slot p ->%list_elem_of_singleton _ Hp. simpl in Hp.
    apply elem_of_cons in Hp as [->|Hp]; [reflexivity|].
    apply list_elem_of_singleton in Hp as ->. reflexivity.
Defined.

Lemma polyline_snoc pts q :
  polyline (pts ++ [ q ])
  = polyline pts ++ [ if bool_decide (pts = []) then MoveTo q.1 q.2 else LineTo q.1 q.2 ].
Proof.
  destruct pts as [|first rest]; [done|]. simpl. by rewrite fmap_app.
Qed.

Lemma omap_cons_eq {A B} (f : A → option B) x l :
  omap f (x :: l) = match f x with Some y => y :: omap f l | None => omap f l end.
Proof. done. Qed.

Lemma draw_point_step width r y_scale slot j cmds first_point p t :
  array_get (prices slot) j = Some p →
  array_get (timestamps slot) j = Some t →
  draw_point width r y_scale slot j (cmds, first_point)
  = Some (if plottable p t
          then (cmds ++ [ if first_point
                          then MoveTo (canvas_x width slot j) (canvas_y r y_scale p)
                          else LineTo (canvas_x width slot j) (canvas_y r y_scale p) ],
                false)
          else (cmds, first_point)).
Proof.
  intros Hp Ht. unfold draw_point, plottable. rewrite Hp. cbn [mbind option_bind].
  destruct (0 <? p)%float; [|done]. rewrite Ht. cbn [mbind option_bind andb].
  destruct ((0 <? t) && (t <? 9999999999)); [|done]. by destruct first_point.
Qed.

Lemma draw_points_polyline width r y_scale slot l pts :
  (∀ j, j ∈ l → 0 <= j < Z.of_nat (length (prices slot))
                ∧ j < Z.of_nat (length (timestamps slot))) →
  for_each (draw_point width r y_scale slot) l (polyline pts, bool_decide (pts = []))
  = Some (polyline
            (pts ++ omap (λ j,
                            p ← array_get (prices slot) j;
                            t ← array_get (timestamps slot) j;
                            if plottable p t
                            then Some (canvas_x width slot j, canvas_y r y_scale p)
                            else None) l),
          bool_decide
            (pts ++ omap (λ j,
                            p ← array_get (prices slot) j;
                            t ← array_get (timestamps slot) j;
                            if plottable p t
                            then Some (canvas_x width slot j, canvas_y r y_scale p)
                            else None) l = [])).
Proof.
  revert pts. induction l as [|j l IH]; intros pts Hl.
  - simpl. by rewrite app_nil_r.
  - rewrite for_each_cons. destruct (Hl j) as [Hp Ht]; [by apply list_elem_of_here|].
    destruct (array_get_in_range (prices slot) j Hp) as [p Hpj].
    destruct (array_get_in_range (timestamps slot) j) as [t Htj]; [lia|].
    assert (∀ k, k ∈ l → 0 <= k < Z.of_nat (length (prices slot))
                         ∧ k < Z.of_nat (length (timestamps slot))) as Hl'.
    { intros k Hk. apply Hl. by apply list_elem_of_further. }
    rewrite (draw_point_step _ _ _ _ _ _ _ p t Hpj Htj). cbn [mbind option_bind].
    rewrite omap_cons_eq. rewrite Hpj, Htj. cbn [mbind option_bind].
    destruct (plottable p t); [|by apply IH].
    rewrite (cons_middle _ pts), app_assoc.
    rewrite <- (IH (pts ++ [ (canvas_x width slot j, canvas_y r y_scale p) ]) Hl').
    f_equal. rewrite polyline_snoc. simpl.
    rewrite (bool_decide_eq_false_2 (pts ++ _ = [])) by (by destruct pts).
    by destruct (bool_decide (pts = [])).
Qed.

(** X9.  The line of a series is the open polyline through its plottable
    points in index order: those among the first [data_count] whose price
    is positive and whose timestamp lies strictly between 0 and
    9999999999.  The first of them starts the path, every further one
    extends it by a segment, the others leave no trace; the path is
    stroked in the palette colour and followed by the legend row. *)
Theorem series_drawn_as_polyline width r y_scale chart i info cmds slot last :
  array_get (chart_data chart) (index info) = Some slot →
  data_count slot <= Z.of_nat (length (prices slot)) →
  data_count slot <= Z.of_nat (length (timestamps slot)) →
  array_get (prices slot) (data_count slot - 1) = Some last →
  draw_stock width r y_scale chart (i, info) cmds
  = Some (cmds
            ++ [ SetSourceColor (palette_color i); SetLineWidth 2 ]
            ++ polyline (plotted_points width r y_scale slot)
            ++ [ Stroke; MoveTo (Z2F (width - 200)) (Z2F (30 + Z.of_nat i * 20));
                 ShowText (LegendText (symbol slot) last) ]).
Proof.
  intros Hslot Hp Ht Hlast. unfold draw_stock. rewrite Hslot. cbn [mbind option_bind].
  assert (for_each (draw_point width r y_scale slot) (seqZ 0 (data_count slot)) ([], true)
          = Some (polyline (plotted_points width r y_scale slot),
                  bool_decide (plotted_points width r y_scale slot = []))) as ->.
  { apply (draw_points_polyline width r y_scale slot (seqZ 0 (data_count slot)) []).
    intros j [? ?]%elem_of_seqZ. lia. }
  cbn [mbind option_bind]. rewrite Hlast. cbn [mbind option_bind]. reflexivity.
Qed.

Lemma series_drawn_as_polyline_witness :
  draw_stock 800
    {| min_price := 10; max_price := 20; min_time := 1000; max_time := 1180 |} 40
    {| window_visible := true; redraws_queued := 0;
       chart_data :=
         [ {| symbol := "AAA"; prices := [ 12; 0; 14; 16 ]%float;
              timestamps := [ 1000; 1060; 0; 1180 ]; data_count := 4; valid := true |} ];
       chart_range := Some "1d"%string; chart_interval := Some "1m"%string |}
    (0%nat, {| index := 0; current_price := 16 |}) []
  = Some [ SetSourceColor "#CC0000"; SetLineWidth 2;
           MoveTo 50 370; LineTo 750 210;
           Stroke; MoveTo 600 30; ShowText (LegendText "AAA" 16) ]%float.
Proof.
  rewrite (series_drawn_as_polyline 800 _ 40 _ 0 _ []
             {| symbol := "AAA"; prices := [ 12; 0; 14; 16 ]%float;
                timestamps := [ 1000; 1060; 0; 1180 ]; data_count := 4; valid := true |}
             16%float);
    [vm_compute; reflexivity|reflexivity|simpl; lia|simpl; lia|reflexivity].
Defined.

Lemma draw_stock_recorded width r y_scale chart i info cmds :
  all_in_bounds chart → recorded chart info →
  draw_stock width r y_scale chart (i, info) cmds
  = Some (cmds ++ series_commands width r y_scale chart i info).
Proof.
  intros Hall (slot & Hslot & Hq & Hlast). unfold series_commands. rewrite Hslot.
  unfold all_in_bounds in Hall. rewrite Forall_forall in Hall.
  destruct (Hall slot) as [Hp Ht]; [|done|].
  { apply array_get_Some in Hslot as [_ Hslot]. by eapply list_elem_of_lookup_2. }
  unfold draw_stock. rewrite Hslot. cbn [mbind option_bind].
  assert (for_each (draw_point width r y_scale slot) (seqZ 0 (data_count slot)) ([], true)
          = Some (polyline (plotted_points width r y_scale slot),
                  bool_decide (plotted_points width r y_scale slot = []))) as ->.
  { apply (draw_points_polyline width r y_scale slot (seqZ 0 (data_count slot)) []).
    intros j [? ?]%elem_of_seqZ. lia. }
  cbn [mbind option_bind]. rewrite Hlast. cbn [mbind option_bind]. reflexivity.
Qed.

Lemma draw_stocks_blocks width r y_scale chart infos k acc :
  all_in_bounds chart → Forall (recorded chart) infos →
  for_each (draw_stock width r y_scale chart) (imap (λ i, pair (k + i)%nat) infos) acc
  = Some (acc ++ mjoin (imap (λ i, series_commands width r y_scale chart (k + i)) infos)).
Proof.
  intros Hall. revert k acc. induction infos as [|info infos IH]; intros k acc Hrec.
  { simpl. by rewrite app_nil_r. }
  apply Forall_cons in Hrec as [Hinfo Hrec].
  rewrite !imap_cons, for_each_cons, Nat.add_0_r.
  rewrite (draw_stock_recorded _ _ _ _ _ _ _ Hall Hinfo). cbn [mbind option_bind].
  rewrite (imap_ext _ (λ i, pair (S k + i)%nat)) by (intros; simpl; f_equal; lia).
  rewrite (IH (S k) _ Hrec). rewrite <- app_assoc. do 2 f_equal.
  simpl. f_equal. f_equal. apply imap_ext. intros; simpl. f_equal. lia.
Qed.

(** X10.  Over valid series that have at least [data_count] prices and
    timestamps, a draw pass that gets past both placeholders draws, in
    this order: the white background, the grid, the six price labels, the six
    time labels, and then one block per qualifying series, the series
    taken by descending last price; the block of a series is its colour,
    its polyline, the stroke and its legend row.  Nothing else is
    drawn. *)
Theorem draw_pass_layout width height chart r0 :
  all_in_bounds chart →
  has_valid_data chart = true →
  find_ranges chart = Some r0 →
  ranges_missing r0 = false →
  let r := pad_prices r0 in
  let y_scale := (Z2F (height - 100) / (max_price r - min_price r))%float in
  chart_draw_cb width height chart
  = Some (clear_background
            ++ draw_grid width height
            ++ draw_price_labels height r
            ++ draw_time_labels width height (chart_range chart) r
            ++ mjoin (imap (series_commands width r y_scale chart)
                           (sort_by_price (qualifying_series chart)))).
Proof.
  intros Hall Hvalid Hr Hmiss. cbv zeta. unfold chart_draw_cb.
  rewrite Hvalid, Hr. cbn [negb mbind option_bind]. rewrite Hmiss.
  destruct (collect_sort_info_total chart Hall) as [infos Hinfos]. rewrite Hinfos.
  cbn [mbind option_bind].
  apply collect_sort_info_spec in Hinfos as [-> Hrec].
  unfold draw_stocks.
  rewrite (draw_stocks_blocks _ _ _ chart (sort_by_price (qualifying_series chart)) 0 []
             Hall).
  - reflexivity.
  - destruct (sort_by_price_spec (qualifying_series chart)) as [Hperm _].
    by rewrite Hperm.
Qed.

Lemma draw_pass_layout_witness :
  ∃ r,
    chart_draw_cb 800 500 three_series
    = Some (clear_background
              ++ draw_grid 800 500
              ++ draw_price_labels 500 r
              ++ draw_time_labels 800 500 (Some "1d"%string) r
              ++ mjoin (imap (series_commands 800 r (Z2F 400 / (max_price r - min_price r))
                                three_series)
                             [ {| index := 1; current_price := 200 |};
                               {| index := 0; current_price := 50 |};
                               {| index := 2; current_price := 10 |} ])).
Proof.
  exists (pad_prices {| min_price := 10; max_price := 200; min_time := 1000;
                        max_time := 1060 |}).
  rewrite (draw_pass_layout 800 500 three_series
             {| min_price := 10; max_price := 200; min_time := 1000; max_time := 1060 |}).
  - reflexivity.
  - do 3 (apply Forall_cons; split; [intros _; simpl; lia|]). apply Forall_nil_2.
  - reflexivity.
  - vm_compute. reflexivity.
  - vm_compute. reflexivity.
Defined.

(** ** The draw pass: which series is shown in which colour *)

Lemma brush_keeps_shown l brush :
  Forall (λ c, ∀ sym price, c ≠ ShowText (LegendText sym price)) l →
  brush_shown (fold_left brush_step l brush) = brush_shown brush.
Proof.
  intros Hl. revert brush. induction Hl as [|c l Hc _ IH]; intros brush; [done|].
  rewrite fold_left_cons, IH. destruct c as [| | | | | | | | |[]]; try done.
  by destruct (Hc sym price).
Qed.

Lemma brush_path_cmds l brush :
  forallb is_path_cmd l = true →
  fold_left brush_step l brush
  = {| brush_color := brush_color brush; brush_path := brush_path brush ++ l;
       brush_line := brush_line brush; brush_shown := brush_shown brush |}.
Proof.
  revert brush. induction l as [|c l IH]; intros brush Hl.
  { rewrite app_nil_r. by destruct brush. }
  simpl in Hl. apply andb_prop in Hl as [Hc Hl].
  rewrite fold_left_cons, (IH _ Hl), (cons_middle c), app_assoc.
  by destruct c.
Qed.

Lemma polyline_path points : forallb is_path_cmd (polyline points) = true.
Proof.
  destruct points as [|first rest]; [done|]. simpl.
  induction rest as [|q rest IH]; [done|]. done.
Qed.

Lemma frame_without_legend width height range r :
  Forall (λ c, ∀ sym price, c ≠ ShowText (LegendText sym price))
         (clear_background ++ draw_grid width height ++ draw_price_labels height r
            ++ draw_time_labels width height range r).
Proof.
  unfold clear_background, draw_grid, draw_price_labels, draw_time_labels.
  rewrite !Forall_app. split_and!;
    try (apply Forall_flat_map_all; intros i);
    repeat (apply Forall_cons; split; [done|]); apply Forall_nil_2.
Qed.

Lemma series_commands_shown width r y_scale chart i info brush :
  recorded chart info →
  brush_shown (fold_left brush_step (series_commands width r y_scale chart i info) brush)
  = brush_shown brush
    ++ [ (palette_color i, series_line width r y_scale chart info,
          (series_symbol chart (index info), current_price info)) ].
Proof.
  intros (slot & Hslot & _ & _).
  unfold series_commands, series_line, series_symbol. rewrite Hslot.
  cbn [app fold_left_cons]. rewrite !fold_left_cons. cbn [brush_step].
  rewrite fold_left_app, (brush_path_cmds _ _ (polyline_path _)).
  reflexivity.
Qed.

Lemma mjoin_cons_eq {A} (x : list A) (l : list (list A)) : mjoin (x :: l) = x ++ mjoin l.
Proof. done. Qed.

Lemma series_blocks_shown width r y_scale chart infos k brush :
  Forall (recorded chart) infos →
  brush_shown
    (fold_left brush_step
       (mjoin (imap (λ i, series_commands width r y_scale chart (k + i)) infos)) brush)
  = brush_shown brush
    ++ imap (λ i info, (palette_color (k + i), series_line width r y_scale chart info,
                        (series_symbol chart (index info), current_price info))) infos.
Proof.
  revert k brush. induction infos as [|info infos IH]; intros k brush Hrec.
  { simpl. by rewrite app_nil_r. }
  apply Forall_cons in Hrec as [Hinfo Hrec].
  rewrite !imap_cons, mjoin_cons_eq, fold_left_app.
  rewrite (imap_ext _ (λ i, series_commands width r y_scale chart (S k + i)))
    by (intros; simpl; f_equal; lia).
  rewrite (IH (S k) _ Hrec), (series_commands_shown _ _ _ _ _ _ _ Hinfo).
  rewrite <- app_assoc, Nat.add_0_r. do 2 f_equal.
  apply imap_ext. intros; simpl. do 3 f_equal. lia.
Qed.

(** C7.  A draw pass over series that are in bounds and that gets past
    the placeholders returns; its legend rows and stroke colours follow one
    order of the qualifying series, a rearrangement of them in which no
    entry has a last price below that of a later entry; the row of entry
    [i] shows its symbol and last price, and its colour is the palette
    entry [i mod 8].  Entry [i] of that order is the series shown in
    colour [i mod 8]: that colour is selected, the line of the series is
    stroked in it and its legend row is shown in it, for the entries in
    turn and nothing else. *)
Theorem legend_and_colors_by_descending_last_price width height chart :
  all_in_bounds chart →
  reaches_geometry chart →
  ∃ cmds order r0,
    chart_draw_cb width height chart = Some cmds
    ∧ order ≡ₚ qualifying_series chart
    ∧ (∀ p q x y, (p < q)%nat → order !! p = Some x → order !! q = Some y →
         (current_price x <? current_price y)%float = false)
    ∧ legend_rows cmds
      = (λ info, (series_symbol chart (index info), current_price info)) <$> order
    ∧ stroke_colors cmds
      = imap (λ i _, default ""%string (colors !! (i mod length colors)%nat)) order
    ∧ find_ranges chart = Some r0
    ∧ series_shown cmds
      = imap (λ i info,
                (default ""%string (colors !! (i mod length colors)%nat),
                 series_line width (pad_prices r0)
                   (Z2F (height - 100)
                    / (max_price (pad_prices r0) - min_price (pad_prices r0)))%float
                   chart info,
                 (series_symbol chart (index info), current_price info))) order.
Proof.
  intros Hall (Hvalid & r0 & Hr & Hmiss).
  destruct (sort_by_price_spec (qualifying_series chart)) as [Hperm Hsorted].
  destruct (collect_sort_info_total chart Hall) as [infos Hinfos].
  pose proof Hinfos as Hspec. apply collect_sort_info_spec in Hspec as [-> Hrec].
  assert (Forall (recorded chart) (sort_by_price (qualifying_series chart))) as Hrec'
    by (by rewrite Hperm).
  assert (draw_stocks width (pad_prices r0)
            (Z2F (height - 100)
             / (max_price (pad_prices r0) - min_price (pad_prices r0)))%float
            chart (sort_by_price (qualifying_series chart))
          = Some (mjoin (imap (series_commands width (pad_prices r0)
                                 (Z2F (height - 100)
                                  / (max_price (pad_prices r0)
                                     - min_price (pad_prices r0)))%float chart)
                              (sort_by_price (qualifying_series chart))))) as Hlines.
  { unfold draw_stocks.
    rewrite (draw_stocks_blocks _ _ _ chart (sort_by_price (qualifying_series chart)) 0 []
               Hall Hrec').
    reflexivity. }
  eexists _, (sort_by_price (qualifying_series chart)), r0. split.
  { unfold chart_draw_cb. rewrite Hvalid, Hr. cbn [negb mbind option_bind].
    rewrite Hmiss, Hinfos. cbn [mbind option_bind].
    rewrite Hlines. reflexivity. }
  destruct (draw_stocks_projections _ _ _ _ _ _ Hrec' Hlines) as (Hleg & Hcol & _ & _).
  split_and!; [done|done| | |done|].
  - unfold legend_rows in *. rewrite !app_assoc, omap_app, <- !app_assoc.
    rewrite frame_projection, Hleg; [done| |done..].
    intros [] Hne; try done. by eexists; left.
  - unfold stroke_colors in *. rewrite !app_assoc, omap_app, <- !app_assoc.
    rewrite frame_projection, Hcol; [done| |done..].
    intros [] Hne; try done. exists (Message ""). right. by eexists.
  - unfold series_shown. rewrite !app_assoc, fold_left_app, <- !app_assoc.
    rewrite (series_blocks_shown _ _ _ _ _ 0 _ Hrec').
    by rewrite brush_keeps_shown by apply frame_without_legend.
Qed.

(** C7 at three series whose last prices are 50, 200 and 10: the rows
    read 200, 50, 10 and take the first three palette colours, each row
    in the colour of its line. *)
Lemma legend_and_colors_witness :
  ∃ cmds,
    chart_draw_cb 800 500 three_series = Some cmds
    ∧ legend_rows cmds = [ ("BBB", 200); ("AAA", 50); ("CCC", 10) ]%string%float
    ∧ stroke_colors cmds = [ "#CC0000"; "#3465A4"; "#73D216" ]%string
    ∧ (λ shown, (shown.1.1, shown.2)) <$> series_shown cmds
      = [ ("#CC0000", ("BBB", 200)); ("#3465A4", ("AAA", 50));
          ("#73D216", ("CCC", 10)) ]%string%float.
Proof.
  destruct (legend_and_colors_by_descending_last_price 800 500 three_series)
    as (cmds & order & r0 & Hcmds & _).
  - do 3 (constructor; [intros _; simpl; lia|]). constructor.
  - split; [reflexivity|]. eexists. split; [vm_compute; reflexivity|]. vm_compute. reflexivity.
  - exists cmds. split; [done|].
    vm_compute in Hcmds. injection Hcmds as <-. split_and!; vm_compute; reflexivity.
Defined.

(** ** The price range of a draw pass *)

Lemma SFltb_cotrans x y z :
  SFltb x z = true → SFltb (S754_zero false) y = true →
  SFltb x y = true ∨ SFltb y z = true.
Proof.
  unfold SFltb, SFcompare.
  destruct x as [[]|[]| |[] mx ex], y as [[]|[]| |[] my ey], z as [[]|[]| |[] mz ez];
    try discriminate; try (left; reflexivity); try (right; reflexivity); cbn;
    repeat match goal with
    | |- context [Z.compare ?a ?b] => destruct (Z.compare_spec a b)
    | |- context [Pos.compare_cont Eq ?a ?b] =>
        change (Pos.compare_cont Eq a b) with (Pos.compare a b);
        destruct (Pos.compare_spec a b)
    end; cbn; try discriminate; try (left; reflexivity); try (right; reflexivity);
    intros; exfalso; subst; lia.
Qed.

Lemma at_most_refl x : at_most x x.
Proof.
  unfold at_most. destruct (x <? x)%float eqn:E; [|done].
  by rewrite (float_ltb_asym _ _ E) in E.
Qed.

Lemma at_most_trans x y z :
  (0 <? y)%float = true → at_most x y → at_most y z → at_most x z.
Proof.
  unfold at_most. intros Hy Hxy Hyz. destruct (z <? x)%float eqn:E; [|done].
  rewrite FloatAxioms.ltb_spec in *.
  destruct (SFltb_cotrans _ (Prim2SF y) _ E) as [H|H]; [exact Hy|congruence|congruence].
Qed.

Lemma MIN_at_most a b : at_most (MIN a b) a ∧ at_most (MIN a b) b.
Proof.
  unfold MIN, at_most. destruct (a <? b)%float eqn:E.
  - split; [apply at_most_refl|by apply float_ltb_asym].
  - split; [done|apply at_most_refl].
Qed.

Lemma MAX_at_most a b : at_most a (MAX a b) ∧ at_most b (MAX a b).
Proof.
  unfold MAX, at_most. destruct (b <? a)%float eqn:E.
  - split; [apply at_most_refl|by apply float_ltb_asym].
  - split; [done|apply at_most_refl].
Qed.

Lemma for_each_covers {S A B} (body : A → S → option S)
    (Inv : S → Prop) (Q : A → S → Prop) (C : B → S → Prop) l s s' :
  (∀ x s s', x ∈ l → Inv s → body x s = Some s' →
             Inv s' ∧ Q x s' ∧ ∀ b, C b s → C b s') →
  (∀ x s s', Q x s → (∀ b, C b s → C b s') → Q x s') →
  Inv s → for_each body l s = Some s' →
  Inv s' ∧ (∀ x, x ∈ l → Q x s') ∧ ∀ b, C b s → C b s'.
Proof.
  intros Hbody Hstable. revert s. induction l as [|x l IH]; intros s Hs Hrun.
  - simpl in Hrun. simplify_eq. split_and!; [done| |done]. by intros x ?%elem_of_nil.
  - rewrite for_each_cons in Hrun.
    destruct (body x s) as [s1|] eqn:Hx; [|done]. cbn [mbind option_bind] in Hrun.
    destruct (Hbody x s s1) as (Hs1 & Hq & Hc); [by apply list_elem_of_here|done|done|].
    destruct (IH (λ y t t' Hy, Hbody y t t' (list_elem_of_further _ _ _ Hy)) s1 Hs1 Hrun)
      as (Hs' & Hqs & Hcs).
    split_and!; [done| |by auto].
    intros y [->|Hy]%elem_of_cons; [by eapply Hstable|by apply Hqs].
Qed.

Lemma scan_price_covers slot j r r' :
  (0 <? min_price r)%float = true ∧ (0 <? max_price r)%float = true →
  scan_price slot j r = Some r' →
  ((0 <? min_price r')%float = true ∧ (0 <? max_price r')%float = true)
  ∧ (∀ p, array_get (prices slot) j = Some p → (0 <? p)%float = true → covers r' p)
  ∧ ∀ p, covers r p → covers r' p.
Proof.
  intros [Hmin Hmax]. unfold scan_price.
  destruct (array_get (prices slot) j) as [q|]; [|done]. cbn [mbind option_bind].
  destruct (0 <? q)%float eqn:Hq; intros [= <-].
  - unfold covers. cbn [min_price max_price].
    destruct (MIN_at_most (min_price r) q) as [Hm1 Hm2].
    destruct (MAX_at_most (max_price r) q) as [HM1 HM2].
    split; [split|split].
    + unfold MIN. by destruct (min_price r <? q)%float.
    + unfold MAX. by destruct (q <? max_price r)%float.
    + intros p [= <-] _. done.
    + intros p [Hp1 Hp2]. split.
      * by apply (at_most_trans _ (min_price r)).
      * by apply (at_most_trans _ (max_price r)).
  - split; [done|]. split; [|done]. intros p [= <-]. congruence.
Qed.

Lemma scan_series_covers slot r r' :
  (0 <? min_price r)%float = true ∧ (0 <? max_price r)%float = true →
  scan_series slot r = Some r' →
  ((0 <? min_price r')%float = true ∧ (0 <? max_price r')%float = true)
  ∧ (qualifies slot = true →
     ∀ j, j ∈ seqZ 0 (data_count slot) →
          ∀ p, array_get (prices slot) j = Some p → (0 <? p)%float = true → covers r' p)
  ∧ ∀ p, covers r p → covers r' p.
Proof.
  intros Hr. unfold scan_series. destruct (qualifies slot); [|by intros [= <-]].
  destruct (for_each _ _ r) as [r1|] eqn:Hloop; [|done]. cbn [mbind option_bind].
  apply (for_each_covers (scan_price slot)
           (λ r, (0 <? min_price r)%float = true ∧ (0 <? max_price r)%float = true)
           (λ j r, ∀ p, array_get (prices slot) j = Some p → (0 <? p)%float = true →
                        covers r p)
           (λ p r, covers r p)) in Hloop as (Hr1 & Hq1 & Hc1); [| |auto|done].
  2:{ intros j s s' _ Hs Hj. by apply scan_price_covers. }
  assert (∀ r2, min_price r2 = min_price r1 → max_price r2 = max_price r1 →
            ((0 <? min_price r2)%float = true ∧ (0 <? max_price r2)%float = true)
            ∧ (true = true →
               ∀ j, j ∈ seqZ 0 (data_count slot) →
                    ∀ p, array_get (prices slot) j = Some p → (0 <? p)%float = true →
                         covers r2 p)
            ∧ ∀ p, covers r p → covers r2 p) as Hsame.
  { intros r2 E1 E2. unfold covers in *. rewrite E1, E2.
    split; [done|]. split; [by auto|by auto]. }
  destruct (array_get (timestamps slot) 0) as [first|]; [|done]. cbn [mbind option_bind].
  destruct (0 <? first); [|intros [= <-]; by apply Hsame].
  destruct (array_get (timestamps slot) (data_count slot - 1)) as [last|]; [|done].
  cbn [mbind option_bind].
  destruct ((0 <? last) && (first <? 9999999999)); intros [= <-]; by apply Hsame.
Qed.

(** X11.  The price range a draw pass finds covers every price it can
    plot: no positive price among the first [data_count] prices of a
    valid series is below the minimum or above the maximum of the
    range. *)
Theorem price_range_covers_every_positive_price chart r slot j p :
  find_ranges chart = Some r →
  slot ∈ chart_data chart →
  qualifies slot = true →
  0 <= j < data_count slot →
  array_get (prices slot) j = Some p →
  (0 <? p)%float = true →
  covers r p.
Proof.
  intros Hfind Hslot Hq Hj Hp Hpos. unfold find_ranges in Hfind.
  apply (for_each_covers scan_series
           (λ r, (0 <? min_price r)%float = true ∧ (0 <? max_price r)%float = true)
           (λ slot r, qualifies slot = true →
                      ∀ j, j ∈ seqZ 0 (data_count slot) →
                           ∀ p, array_get (prices slot) j = Some p →
                                (0 <? p)%float = true → covers r p)
           (λ p r, covers r p)) in Hfind as (_ & Hall & _).
  - apply (Hall slot Hslot Hq j); [|done|done]. apply elem_of_seqZ. lia.
  - intros x s s' _ Hs Hx. by apply scan_series_covers.
  - intros x s s' Hx Hmono Hqx k Hk q Hkq Hq0. apply Hmono. by eapply Hx.
  - split; reflexivity.
Qed.

Lemma price_range_covers_witness :
  ∃ r, find_ranges three_series = Some r ∧ covers r 190 ∧ covers r 12.
Proof.
  exists {| min_price := 10; max_price := 200; min_time := 1000; max_time := 1060 |}.
  assert (find_ranges three_series
          = Some {| min_price := 10; max_price := 200; min_time := 1000; max_time := 1060 |})
    as Hfind by (vm_compute; reflexivity).
  split; [exact Hfind|]. split.
  - apply (price_range_covers_every_positive_price three_series _
             {| symbol := "BBB"; prices := [ 190; 200 ]%float; timestamps := [ 1000; 1060 ];
                data_count := 2; valid := true |} 0 190%float Hfind); try reflexivity.
    + apply list_elem_of_further, list_elem_of_here.
    + simpl. lia.
  - apply (price_range_covers_every_positive_price three_series _
             {| symbol := "CCC"; prices := [ 12; 10 ]%float; timestamps := [ 1000; 1060 ];
                data_count := 2; valid := true |} 0 12%float Hfind); try reflexivity.
    + apply list_elem_of_further, list_elem_of_further, list_elem_of_here.
    + simpl. lia.
Defined.

(** ** The placeholders of a draw pass *)

Lemma float_ltb_not_eqb (a b : float) : (a <? b)%float = true → (a =? b)%float = false.
Proof.
  rewrite FloatAxioms.ltb_spec, FloatAxioms.eqb_spec. unfold SFltb, SFeqb.
  by destruct (SFcompare _ _) as [[]|].
Qed.

Lemma SFltb_not_eqb_sym x y : SFltb x y = true → SFeqb y x = false.
Proof.
  unfold SFltb, SFeqb, SFcompare.
  destruct x as [[]|[]| |[] mx ex], y as [[]|[]| |[] my ey]; try done;
    repeat match goal with
    | |- context [Z.compare ?a ?b] => destruct (Z.compare_spec a b)
    | |- context [Pos.compare_cont Eq ?a ?b] =>
        change (Pos.compare_cont Eq a b) with (Pos.compare a b);
        destruct (Pos.compare_spec a b)
    end; cbn; try done; intros; subst; lia.
Qed.

Lemma float_ltb_not_eqb_sym (a b : float) :
  (a <? b)%float = true → (b =? a)%float = false.
Proof. rewrite FloatAxioms.ltb_spec, FloatAxioms.eqb_spec. apply SFltb_not_eqb_sym. Qed.

Lemma SF_positive_not_lt_eq x y :
  SFltb (S754_zero false) x = true → SFltb (S754_zero false) y = true →
  SFltb x y = false → SFltb y x = false → x = y.
Proof.
  unfold SFltb, SFcompare.
  destruct x as [[]|[]| |[] mx ex], y as [[]|[]| |[] my ey];
    try discriminate; try reflexivity; cbn;
    repeat match goal with
    | |- context [Z.compare ?a ?b] => destruct (Z.compare_spec a b)
    | |- context [Pos.compare_cont Eq ?a ?b] =>
        change (Pos.compare_cont Eq a b) with (Pos.compare a b);
        destruct (Pos.compare_spec a b)
    end; cbn; try discriminate; intros; subst; try reflexivity; exfalso; lia.
Qed.

Lemma float_positive_not_lt_eq (p c : float) :
  (0 <? p)%float = true → (0 <? c)%float = true →
  (p <? c)%float = false → (c <? p)%float = false → p = c.
Proof.
  rewrite !FloatAxioms.ltb_spec. intros Hp Hc H1 H2.
  apply Prim2SF_inj. by apply SF_positive_not_lt_eq.
Qed.

Lemma float_ltb_cotrans (x y z : float) :
  (x <? z)%float = true → (0 <? y)%float = true →
  (x <? y)%float = true ∨ (y <? z)%float = true.
Proof. rewrite !FloatAxioms.ltb_spec. apply SFltb_cotrans. Qed.

Lemma for_each_prefix {S A} (body : A → S → option S) (P : list A → S → Prop) l s s' :
  P [] s →
  (∀ pre x s s', x ∈ l → P pre s → body x s = Some s' → P (pre ++ [ x ]) s') →
  for_each body l s = Some s' → P l s'.
Proof.
  intros Hstart Hstep.
  assert (∀ pre t, P pre t → for_each body l t = Some s' → P (pre ++ l) s') as Hgen.
  { clear Hstart. revert Hstep. induction l as [|x l IH]; intros Hstep pre t Hpre Hrun.
    - simpl in Hrun. injection Hrun as <-. by rewrite app_nil_r.
    - rewrite for_each_cons in Hrun. destruct (body x t) as [t1|] eqn:Hx; [|done].
      cbn [mbind option_bind] in Hrun. rewrite (cons_middle x), app_assoc.
      apply (IH (λ pre y u u' Hy, Hstep pre y u u' (list_elem_of_further _ _ _ Hy))
                (pre ++ [ x ]) t1); [|done].
      apply (Hstep pre x t t1); [apply list_elem_of_here|done|done]. }
  apply (Hgen [] s Hstart).
Qed.

Lemma scanned_same seen seen' timed timed' r r' :
  (∀ p, seen p ↔ seen' p) → (timed ↔ timed') →
  min_price r' = min_price r → max_price r' = max_price r →
  min_time r' = min_time r → max_time r' = max_time r →
  scanned seen timed r → scanned seen' timed' r'.
Proof.
  intros Hseen Htimed E1 E2 E3 E4 (Hmin & Hmax & Htime).
  unfold scanned. rewrite E1, E2, E3, E4. split_and!.
  - destruct Hmin as [[? Hall]|[? (p & Hp & ?)]]; [left|right]; split; try done.
    + intros p Hp. apply Hall. by apply Hseen.
    + exists p. split; [by apply Hseen|done].
  - destruct Hmax as [[? Hall]|[? (p & Hp & ?)]]; [left|right]; split; try done.
    + intros p Hp. apply Hall. by apply Hseen.
    + exists p. split; [by apply Hseen|done].
  - destruct Htime as [(? & ? & ?)|(? & ? & ?)]; [left|right]; split_and!; tauto.
Qed.

Lemma scanned_price seen timed r q :
  (0 <? q)%float = true →
  scanned seen timed r →
  scanned (λ p, seen p ∨ p = q) timed
    {| min_price := MIN (min_price r) q; max_price := MAX (max_price r) q;
       min_time := min_time r; max_time := max_time r |}.
Proof.
  intros Hq (Hmin & Hmax & Htime). split_and!; cbn [min_price max_price min_time max_time].
  - unfold MIN. destruct Hmin as [[-> Hall]|[Hlt (p & Hp & Hplt)]].
    + destruct (q <? G_MAXDOUBLE)%float eqn:Hqlt.
      * right. rewrite (float_ltb_asym _ _ Hqlt). split; [done|]. exists q. auto.
      * left. split.
        -- destruct (G_MAXDOUBLE <? q)%float eqn:Hgt; [done|].
           by apply float_positive_not_lt_eq.
        -- intros p [Hp| ->]; [by apply Hall|done].
    + right. split.
      * destruct (min_price r <? q)%float eqn:Hmq; [done|].
        destruct (float_ltb_cotrans _ q _ Hlt Hq) as [H|H]; [congruence|done].
      * exists p. auto.
  - unfold MAX. destruct Hmax as [[-> Hall]|[Hlt (p & Hp & Hplt)]].
    + destruct (G_MINDOUBLE <? q)%float eqn:Hqgt.
      * right. rewrite (float_ltb_asym _ _ Hqgt). split; [done|]. exists q. auto.
      * left. split.
        -- destruct (q <? G_MINDOUBLE)%float eqn:Hlt; [done|].
           by apply float_positive_not_lt_eq.
        -- intros p [Hp| ->]; [by apply Hall|done].
    + right. split.
      * destruct (q <? max_price r)%float eqn:Hqm; [done|].
        destruct (float_ltb_cotrans _ q _ Hlt Hq) as [H|H]; [done|congruence].
      * exists p. auto.
  - done.
Qed.

Lemma scanned_time seen timed r first last :
  0 < first → 0 < last → first < 9999999999 →
  scanned seen timed r →
  scanned seen True
    {| min_price := min_price r; max_price := max_price r;
       min_time := MINZ (min_time r) first; max_time := MAXZ (max_time r) last |}.
Proof.
  intros Hf Hl Hbound (Hmin & Hmax & Htime). split_and!; [done|done|].
  right. cbn [min_time max_time]. unfold MINZ, MAXZ, G_MAXINT64, G_MININT64 in *.
  destruct (min_time r <? first) eqn:E1, (last <? max_time r) eqn:E2;
    destruct Htime as [(? & ? & ?)|(? & ? & ?)]; split_and!; try done; lia.
Qed.

Lemma scan_price_scanned slot seen timed j r r' :
  scanned seen timed r →
  scan_price slot j r = Some r' →
  scanned (λ p, seen p ∨ (array_get (prices slot) j = Some p ∧ (0 <? p)%float = true))
          timed r'.
Proof.
  intros Hr. unfold scan_price.
  destruct (array_get (prices slot) j) as [q|]; [|done]. cbn [mbind option_bind].
  destruct (0 <? q)%float eqn:Hq; intros [= <-].
  - eapply scanned_same; [| | | | | |by apply (scanned_price seen timed r q Hq)]; try done.
    intros p. split; intros [?| H]; auto.
    + subst. auto.
    + destruct H as [[= ->] _]. auto.
  - eapply scanned_same; [| | | | | |exact Hr]; try done.
    intros p. split; [auto|]. intros [?|[[= ->] ?]]; [done|congruence].
Qed.

Lemma scan_series_scanned slot seen timed r r' :
  scanned seen timed r →
  scan_series slot r = Some r' →
  scanned (λ p, seen p
                ∨ (qualifies slot = true
                   ∧ ∃ j, 0 <= j < data_count slot
                          ∧ array_get (prices slot) j = Some p ∧ (0 <? p)%float = true))
          (timed ∨ timed_series slot) r'.
Proof.
  intros Hr. unfold scan_series, timed_series.
  destruct (qualifies slot) eqn:Hq.
  2:{ intros [= <-]. eapply scanned_same; [| | | | | |exact Hr]; try done.
      - intros p. split; [auto|]. by intros [?|[? _]].
      - split; [auto|]. by intros [?|[? _]]. }
  destruct (for_each _ _ r) as [r1|] eqn:Hloop; [|done]. cbn [mbind option_bind].
  apply (for_each_prefix (scan_price slot)
           (λ pre r, scanned (λ p, seen p
                                   ∨ ∃ j, j ∈ pre ∧ array_get (prices slot) j = Some p
                                          ∧ (0 <? p)%float = true) timed r)) in Hloop.
  2:{ eapply scanned_same; [| | | | | |exact Hr]; try done.
      intros p. split; [auto|]. intros [?|(j & Hj%elem_of_nil & _)]; done. }
  2:{ intros pre j s s' _ Hs Hj.
      eapply scanned_same; [| | | | | |by apply (scan_price_scanned slot _ _ j s s' Hs Hj)];
        try done.
      intros p. split.
      - intros [[?|(k & Hk & ?)]|[? ?]]; [by left| |].
        + right. exists k. split; [|done]. apply elem_of_app. by left.
        + right. exists j. split; [|done]. apply elem_of_app. right.
          apply list_elem_of_singleton. done.
      - intros [?|(k & Hk & Hkp & ?)]; [by left; left|].
        apply elem_of_app in Hk as [Hk|Hk%list_elem_of_singleton].
        + left. right. by exists k.
        + subst. by right. }
  assert (∀ p, (seen p ∨ ∃ j, j ∈ seqZ 0 (data_count slot)
                               ∧ array_get (prices slot) j = Some p
                               ∧ (0 <? p)%float = true)
               ↔ (seen p ∨ (true = true
                            ∧ ∃ j, 0 <= j < data_count slot
                                   ∧ array_get (prices slot) j = Some p
                                   ∧ (0 <? p)%float = true))) as Hseen.
  { intros p. split.
    - intros [?|(j & Hj%elem_of_seqZ & ?)]; [by left|]. right. split; [done|].
      exists j. split; [lia|done].
    - intros [?|(_ & j & Hj & ?)]; [by left|]. right. exists j.
      split; [apply elem_of_seqZ; lia|done]. }
  destruct (array_get (timestamps slot) 0) as [first|] eqn:Hfirst; [|done].
  cbn [mbind option_bind].
  destruct (Z.ltb_spec 0 first) as [Hf|Hf].
  2:{ intros [= <-]. eapply scanned_same; [exact Hseen| | | | | |exact Hloop]; try done.
      split; [auto|]. intros [?|(_ & f & l & [= <-] & _ & ? & _)]; [done|lia]. }
  destruct (array_get (timestamps slot) (data_count slot - 1)) as [last|] eqn:Hlast; [|done].
  cbn [mbind option_bind].
  destruct (Z.ltb_spec 0 last) as [Hl|Hl], (Z.ltb_spec first 9999999999) as [Hb|Hb];
    cbn [andb]; intros [= <-].
  - eapply scanned_same;
      [exact Hseen| | | | | |by apply (scanned_time _ timed r1 first last Hf Hl Hb)];
      try done.
    split; [|done]. intros _. right. split; [done|]. by exists first, last.
  - eapply scanned_same; [exact Hseen| | | | | |exact Hloop]; try done.
    split; [auto|]. intros [?|(_ & f & l & [= <-] & [= <-] & ? & ? & ?)]; [done|lia].
  - eapply scanned_same; [exact Hseen| | | | | |exact Hloop]; try done.
    split; [auto|]. intros [?|(_ & f & l & [= <-] & [= <-] & ? & ? & ?)]; [done|lia].
  - eapply scanned_same; [exact Hseen| | | | | |exact Hloop]; try done.
    split; [auto|]. intros [?|(_ & f & l & [= <-] & [= <-] & ? & ? & ?)]; [done|lia].
Qed.

Lemma find_ranges_scanned chart r :
  find_ranges chart = Some r →
  scanned (counted_price chart) (∃ slot, slot ∈ chart_data chart ∧ timed_series slot) r.
Proof.
  intros Hfind. unfold find_ranges in Hfind.
  apply (for_each_prefix scan_series
           (λ pre r,
              scanned (λ p, ∃ slot j,
                              slot ∈ pre ∧ qualifies slot = true
                              ∧ 0 <= j < data_count slot
                              ∧ array_get (prices slot) j = Some p
                              ∧ (0 <? p)%float = true)
                      (∃ slot, slot ∈ pre ∧ timed_series slot) r)) in Hfind; [done| |].
  - split_and!.
    + left. split; [done|]. by intros p (slot & j & Hin%elem_of_nil & _).
    + left. split; [done|]. by intros p (slot & j & Hin%elem_of_nil & _).
    + left. split_and!; [done|done|]. by intros (slot & Hin%elem_of_nil & _).
  - intros pre slot s s' _ Hs Hslot.
    eapply scanned_same;
      [| | | | | |by apply (scan_series_scanned slot _ _ s s' Hs Hslot)]; try done.
    + intros p. split.
      * intros [(x & j & Hx & ?)|(? & j & ?)].
        -- exists x, j. split; [|done]. apply elem_of_app. by left.
        -- exists slot, j. split; [|done]. apply elem_of_app. right.
           by apply list_elem_of_singleton.
      * intros (x & j & Hx & Hq & ?).
        apply elem_of_app in Hx as [Hx|Hx%list_elem_of_singleton].
        -- left. by exists x, j.
        -- subst. right. split; [done|]. by exists j.
    + split.
      * intros [(x & Hx & ?)|?].
        -- exists x. split; [|done]. apply elem_of_app. by left.
        -- exists slot. split; [|done]. apply elem_of_app. right.
           by apply list_elem_of_singleton.
      * intros (x & Hx & ?).
        apply elem_of_app in Hx as [Hx|Hx%list_elem_of_singleton].
        -- left. by exists x.
        -- subst. by right.
Qed.

(** The bounds the scan leaves at their initial values, in terms of the
    series. *)
Lemma ranges_missing_iff chart r :
  find_ranges chart = Some r →
  ranges_missing r = true ↔ no_price_range chart ∨ no_time_range chart.
Proof.
  intros (Hmin & Hmax & Htime)%find_ranges_scanned.
  unfold ranges_missing, no_price_range, no_time_range.
  destruct Hmin as [[-> Hlow]|[Hlt (p & Hp & Hplt)]].
  { split; [|done]. intros _. left. by left. }
  rewrite (float_ltb_not_eqb _ _ Hlt). cbn [orb].
  destruct Hmax as [[-> Hhigh]|[Hgt (q & Hq & Hqgt)]].
  { split; [|done]. intros _. left. by right. }
  rewrite (float_ltb_not_eqb_sym _ _ Hgt).
  cbn [orb].
  destruct Htime as [(-> & -> & Hnone)|(Hlo & Hhi & slot & Hslot & Hts)].
  { split; [|done]. intros _. right. intros slot Hslot Hts. apply Hnone. by exists slot. }
  rewrite (proj2 (Z.eqb_neq _ _)) by lia. rewrite (proj2 (Z.eqb_neq _ _)) by lia.
  split; [done|]. intros [[Hall|Hall]|Hall]; exfalso.
  - specialize (Hall p Hp). congruence.
  - specialize (Hall q Hq). congruence.
  - by apply (Hall slot).
Qed.

(** C3, amended.  When no series qualifies the draw pass shows
    "Loading chart data...", whether or not a fetch has completed.  "No
    chart data available" is shown, and then alone, exactly when a series
    qualifies and the scan of the qualifying series found no price range or
    no time range: among their first [data_count] prices no positive one
    is below [G_MAXDOUBLE], or none is above [G_MINDOUBLE] (both are so
    when none is positive), or no qualifying series has a first timestamp
    strictly between 0 and 9999999999 and a positive last timestamp.
    After the failed fetch of a single configured symbol the chart shows
    "Loading chart data...". *)
Theorem placeholder_messages width height chart :
  (has_valid_data chart = false →
   chart_draw_cb width height chart
   = Some (clear_background
             ++ draw_loading_message width height "Loading chart data..."))
  ∧ (∀ cmds, chart_draw_cb width height chart = Some cmds →
       (has_valid_data chart = false → shown_messages cmds = [ "Loading chart data..."%string ])
       ∧ ("No chart data available"%string ∈ shown_messages cmds →
          has_valid_data chart = true
          ∧ ∃ r, find_ranges chart = Some r ∧ ranges_missing r = true)
       ∧ ("No chart data available"%string ∈ shown_messages cmds
          ↔ has_valid_data chart = true ∧ (no_price_range chart ∨ no_time_range chart))
       ∧ ("No chart data available"%string ∈ shown_messages cmds →
          cmds = clear_background
                   ++ draw_loading_message width height "No chart data available"))
  ∧ (∀ sym chart0 reqs msg chart',
       fetch_chart_data (Some [ sym ]) chart0 = (chart, reqs) →
       fetch_failed msg →
       on_chart_data_received msg 0 chart = Some chart' →
       shown_messages <$> chart_draw_cb width height chart'
       = Some [ "Loading chart data..."%string ]).
Proof.
  assert (∀ c, has_valid_data c = false →
            chart_draw_cb width height c
            = Some (clear_background
                      ++ draw_loading_message width height "Loading chart data..."))
    as Hloading.
  { intros c Hc. unfold chart_draw_cb. by rewrite Hc. }
  assert (∀ cmds, chart_draw_cb width height chart = Some cmds →
            "No chart data available"%string ∈ shown_messages cmds →
            has_valid_data chart = true
            ∧ ∃ r, find_ranges chart = Some r ∧ ranges_missing r = true
                   ∧ cmds = clear_background
                              ++ draw_loading_message width height "No chart data available")
    as Hshown.
  { intros cmds Hcmds Hin. destruct (has_valid_data chart) eqn:Hc.
    2:{ rewrite (Hloading _ Hc) in Hcmds. injection Hcmds as <-.
        apply list_elem_of_singleton in Hin. discriminate. }
    split; [done|]. unfold chart_draw_cb in Hcmds. rewrite Hc in Hcmds. simpl in Hcmds.
    destruct (find_ranges chart) as [r|] eqn:Hr; [|done]. simpl in Hcmds.
    exists r. split; [done|].
    destruct (ranges_missing r) eqn:Hmiss; [by injection Hcmds as <-|exfalso].
    destruct (chart_draw_cb_geometry width height chart cmds)
      as (r' & y_scale & lines & Hrec & Hlines & ->).
    { split; [done|]. by exists r. }
    { unfold chart_draw_cb. rewrite Hc, Hr. simpl. by rewrite Hmiss. }
    apply draw_stocks_projections in Hlines as (_ & _ & Hmsg & _);
      [|by destruct (sort_by_price_spec (qualifying_series chart)) as [-> _]].
    unfold shown_messages in *. rewrite !app_assoc, omap_app, <- !app_assoc in Hin.
    rewrite frame_projection, Hmsg in Hin; [by apply elem_of_nil in Hin| |done..].
    intros [] Hne; try done. by eexists; left. }
  split_and!.
  - apply Hloading.
  - intros cmds Hcmds. split_and!.
    + intros Hc. rewrite (Hloading _ Hc) in Hcmds. by injection Hcmds as <-.
    + intros Hin. destruct (Hshown cmds Hcmds Hin) as (? & r & ? & ? & _). eauto.
    + split.
      * intros Hin. destruct (Hshown cmds Hcmds Hin) as (? & r & Hr & Hmiss & _).
        split; [done|]. by apply (ranges_missing_iff chart r Hr).
      * intros [Hc Hnone]. unfold chart_draw_cb in Hcmds. rewrite Hc in Hcmds.
        simpl in Hcmds. destruct (find_ranges chart) as [r|] eqn:Hr; [|done].
        simpl in Hcmds. rewrite (proj2 (ranges_missing_iff chart r Hr) Hnone) in Hcmds.
        injection Hcmds as <-. apply list_elem_of_singleton. reflexivity.
    + intros Hin. by destruct (Hshown cmds Hcmds Hin) as (_ & r & _ & _ & ->).
  - intros sym chart0 reqs msg chart' Hfetch Hfail Hrun.
    rewrite (failed_handler _ _ _ Hfail) in Hrun. injection Hrun as <-.
    rewrite Hloading; [done|].
    unfold has_valid_data. rewrite chart_data_queue_draw.
    unfold fetch_chart_data in Hfetch. injection Hfetch as <- _.
    by rewrite chart_data_queue_draw.
Qed.

(** C3, amended, at a collection whose only valid series has two positive
    prices, both below [G_MINDOUBLE]: the draw pass shows "No chart data
    available", and no counted price is above [G_MINDOUBLE]. *)
Lemma placeholder_messages_witness :
  chart_draw_cb 800 500
    {| window_visible := true; redraws_queued := 0;
       chart_data :=
         [ {| symbol := "AAA"; prices := [ 0x1p-1030; 0x1p-1029 ]%float;
              timestamps := [ 1000; 1060 ]; data_count := 2; valid := true |} ];
       chart_range := Some "1d"%string; chart_interval := Some "1m"%string |}
  = Some (clear_background ++ draw_loading_message 800 500 "No chart data available")
  ∧ (no_price_range
       {| window_visible := true; redraws_queued := 0;
          chart_data :=
            [ {| symbol := "AAA"; prices := [ 0x1p-1030; 0x1p-1029 ]%float;
                 timestamps := [ 1000; 1060 ]; data_count := 2; valid := true |} ];
          chart_range := Some "1d"%string; chart_interval := Some "1m"%string |}
     ∨ no_time_range
         {| window_visible := true; redraws_queued := 0;
            chart_data :=
              [ {| symbol := "AAA"; prices := [ 0x1p-1030; 0x1p-1029 ]%float;
                   timestamps := [ 1000; 1060 ]; data_count := 2; valid := true |} ];
            chart_range := Some "1d"%string; chart_interval := Some "1m"%string |}).
Proof.
  assert (chart_draw_cb 800 500
            {| window_visible := true; redraws_queued := 0;
               chart_data :=
                 [ {| symbol := "AAA"; prices := [ 0x1p-1030; 0x1p-1029 ]%float;
                      timestamps := [ 1000; 1060 ]; data_count := 2; valid := true |} ];
               chart_range := Some "1d"%string; chart_interval := Some "1m"%string |}
          = Some (clear_background
                    ++ draw_loading_message 800 500 "No chart data available")) as Hcmds
    by (vm_compute; reflexivity).
  split; [exact Hcmds|].
  destruct (placeholder_messages 800 500
              {| window_visible := true; redraws_queued := 0;
                 chart_data :=
                   [ {| symbol := "AAA"; prices := [ 0x1p-1030; 0x1p-1029 ]%float;
                        timestamps := [ 1000; 1060 ]; data_count := 2; valid := true |} ];
                 chart_range := Some "1d"%string; chart_interval := Some "1m"%string |})
    as (_ & Hshown & _).
  destruct (Hshown _ Hcmds) as (_ & _ & Hiff & _).
  apply Hiff. apply list_elem_of_singleton. reflexivity.
Defined.

(** ** The chart window and its toolbar *)

Lemma fetch_chart_data_fields settings chart :
  window_visible (fetch_chart_data settings chart).1 = window_visible chart
  ∧ chart_range (fetch_chart_data settings chart).1 = chart_range chart
  ∧ chart_interval (fetch_chart_data settings chart).1 = chart_interval chart
  ∧ ∀ req, req ∈ (fetch_chart_data settings chart).2 →
      ∃ sym, Chart.req_url req
             = chart_url sym (default "1m"%string (chart_interval chart))
                 (default "1d"%string (chart_range chart)).
Proof.
  destruct settings as [[|s symbols]|]; simpl;
    try (split_and!; [done|done|done|by intros req ?%elem_of_nil]).
  destruct chart as [[] n data range interval]; simpl;
    (split_and!; [by destruct data|by destruct data|by destruct data|]);
    intros req Hreq; destruct data; simpl in Hreq;
    (apply elem_of_cons in Hreq as [->|Hreq]; [by eexists|]);
    apply elem_of_lookup_imap in Hreq as (i & sym & -> & _); by eexists.
Qed.

Lemma create_chart_toolbar_range chart chart' :
  chart_range chart = chart_range chart' →
  ChartWindow.create_chart_toolbar chart = ChartWindow.create_chart_toolbar chart'.
Proof. unfold ChartWindow.create_chart_toolbar. by intros ->. Qed.

(** X12.  Clicking a range button of the toolbar the window was built
    with leaves the toolbar as [create_chart_toolbar] would build it for
    the chart after the click: the clicked button is the one insensitive
    button.  The chart has the range and the interval of the button, and
    every request the click issues asks for them. *)
Theorem clicked_range_button_is_selected k settings chart text range interval :
  ChartWindow.ranges !! k = Some (text, range, interval) →
  ∃ toolbar chart' reqs,
    ChartWindow.click_range_button k (ChartWindow.create_chart_toolbar chart) settings chart
    = Some (toolbar, (chart', reqs))
    ∧ toolbar = ChartWindow.create_chart_toolbar chart'
    ∧ (∀ j button, toolbar !! j = Some button →
         ChartWindow.button_sensitive button = bool_decide (j ≠ k))
    ∧ chart_range chart' = Some range
    ∧ chart_interval chart' = Some interval
    ∧ ∀ req, req ∈ reqs → ∃ sym, Chart.req_url req = chart_url sym interval range.
Proof.
  intros Hk.
  assert (ChartWindow.create_chart_toolbar chart !! k
          = Some {| ChartWindow.button_text := text;
                    ChartWindow.button_range := range;
                    ChartWindow.button_interval := interval;
                    ChartWindow.button_sensitive :=
                      negb (bool_decide (chart_range chart = Some range)) |}) as Hw.
  { unfold ChartWindow.create_chart_toolbar. by rewrite list_lookup_fmap, Hk. }
  unfold ChartWindow.click_range_button. rewrite Hw.
  cbn [mbind option_bind ChartWindow.button_range ChartWindow.button_interval].
  unfold chart_range_button_clicked.
  match goal with
  | |- context [fetch_chart_data settings ?c] =>
      destruct (fetch_chart_data_fields settings c) as (_ & Hr & Hi & Hreqs);
      simpl in Hr, Hi, Hreqs;
      exists (<[k := ChartWindow.set_sensitive false
                       {| ChartWindow.button_text := text;
                          ChartWindow.button_range := range;
                          ChartWindow.button_interval := interval;
                          ChartWindow.button_sensitive :=
                            negb (bool_decide (chart_range chart = Some range)) |}]>
                (ChartWindow.set_sensitive true <$> ChartWindow.create_chart_toolbar chart)),
             (fetch_chart_data settings c).1, (fetch_chart_data settings c).2
  end.
  split; [by rewrite <- surjective_pairing|].
  split_and!; [| |done|done|done].
  - rewrite (create_chart_toolbar_range (fetch_chart_data settings _).1
               {| window_visible := true; redraws_queued := 0; chart_data := [];
                  chart_range := Some range; chart_interval := None |}) by (by rewrite Hr).
    assert (k < 7)%nat as Hlt by (apply lookup_lt_Some in Hk; simpl in Hk; lia).
    destruct k as [|[|[|[|[|[|[|k]]]]]]]; [..|lia];
      simpl in Hk; simplify_eq; vm_compute; reflexivity.
  - intros j button Hj.
    assert (k < 7)%nat as Hlt by (apply lookup_lt_Some in Hk; simpl in Hk; lia).
    destruct k as [|[|[|[|[|[|[|k]]]]]]]; [..|lia];
      simpl in Hk; simplify_eq;
      (destruct j as [|[|[|[|[|[|[|j]]]]]]]; simpl in Hj; simplify_eq; reflexivity).
Qed.

Lemma clicked_range_button_witness :
  ∃ toolbar chart' reqs,
    ChartWindow.click_range_button 2 (ChartWindow.create_chart_toolbar shown_chart)
      (Some [ "IBM"%string ]) shown_chart
    = Some (toolbar, (chart', reqs))
    ∧ ChartWindow.button_sensitive <$> toolbar = [ true; true; false; true; true; true; true ]
    ∧ chart_range chart' = Some "1mo"%string
    ∧ Chart.req_url <$> reqs
      = [ "https://query2.finance.yahoo.com/v8/finance/chart/IBM?interval=30m&range=1mo"%string ].
Proof.
  destruct (clicked_range_button_is_selected 2 (Some [ "IBM"%string ]) shown_chart
              "Month" "1mo" "30m" eq_refl) as (toolbar & chart' & reqs & H & _ & _ & Hr & _).
  exists toolbar, chart', reqs.
  assert (ChartWindow.click_range_button 2 (ChartWindow.create_chart_toolbar shown_chart)
            (Some [ "IBM"%string ]) shown_chart
          = Some ((λ b, {| ChartWindow.button_text := b.1.1; ChartWindow.button_range := b.1.2;
                           ChartWindow.button_interval := b.2;
                           ChartWindow.button_sensitive :=
                             negb (String.eqb b.1.2 "1mo") |}) <$> ChartWindow.ranges,
                  ({| window_visible := true; redraws_queued := 1;
                      chart_data := [ empty_series "IBM" ];
                      chart_range := Some "1mo"%string; chart_interval := Some "30m"%string |},
                   [ {| Chart.req_url :=
                          "https://query2.finance.yahoo.com/v8/finance/chart/IBM?interval=30m&range=1mo";
                        Chart.req_user_agent := user_agent;
                        Chart.req_symbol_index := 0 |} ]))) as E
    by (vm_compute; reflexivity).
  rewrite E in H. injection H as <- <- <-.
  split; [exact E|]. split; [reflexivity|]. split; reflexivity.
Defined.

Lemma fetch_chart_data_slots symbols chart :
  symbols ≠ [] →
  chart_data (fetch_chart_data (Some symbols) chart).1 = empty_series <$> symbols.
Proof. intros Hne. destruct symbols; [done|]. simpl. by rewrite chart_data_queue_draw. Qed.

Lemma empty_slots_show_loading width height chart symbols :
  chart_data chart = empty_series <$> symbols →
  chart_draw_cb width height chart
  = Some (clear_background ++ draw_loading_message width height "Loading chart data...").
Proof.
  intros Hdata. unfold chart_draw_cb.
  assert (has_valid_data chart = false) as ->; [|done].
  unfold has_valid_data. rewrite Hdata. clear Hdata.
  induction symbols as [|sym symbols IH]; [done|]. simpl. exact IH.
Qed.

(** X13.  Every way of starting a fetch with at least one configured
    symbol (showing a hidden chart, refreshing a visible one, clicking a
    range button) discards the series held so far: until a completion
    stores something, the draw pass shows "Loading chart data...",
    whatever the chart held before.  With no symbols configured, or no
    settings, a fetch leaves the collection as it was. *)
Theorem refetch_shows_loading width height symbols chart range interval :
  symbols ≠ [] →
  let loading :=
    Some (clear_background ++ draw_loading_message width height "Loading chart data...") in
  (window_visible chart = false →
   chart_draw_cb width height (ChartWindow.invest_chart_show (Some symbols) chart).1 = loading)
  ∧ (window_visible chart = true →
     chart_draw_cb width height (ChartWindow.invest_chart_refresh_data (Some symbols) chart).1
     = loading)
  ∧ chart_draw_cb width height (chart_range_button_clicked range interval (Some symbols) chart).1
    = loading
  ∧ chart_data (fetch_chart_data (Some []) chart).1 = chart_data chart
  ∧ chart_data (fetch_chart_data None chart).1 = chart_data chart.
Proof.
  intros Hne. cbv zeta. split_and!; [| | |done|done].
  - intros Hvis. unfold ChartWindow.invest_chart_show. rewrite Hvis.
    apply (empty_slots_show_loading _ _ _ symbols). by apply fetch_chart_data_slots.
  - intros Hvis. unfold ChartWindow.invest_chart_refresh_data. rewrite Hvis.
    apply (empty_slots_show_loading _ _ _ symbols). by apply fetch_chart_data_slots.
  - unfold chart_range_button_clicked.
    apply (empty_slots_show_loading _ _ _ symbols). by apply fetch_chart_data_slots.
Qed.

Lemma refetch_shows_loading_witness :
  chart_draw_cb 800 500
    (chart_range_button_clicked "5d" "5m" (Some [ "IBM"; "AAPL" ]%string) three_series).1
  = Some (clear_background ++ draw_loading_message 800 500 "Loading chart data...").
Proof.
  destruct (refetch_shows_loading 800 500 [ "IBM"; "AAPL" ]%string three_series "5d" "5m")
    as (_ & _ & H & _); [done|]. exact H.
Defined.

(** ** The panel applet: valid stocks and the tooltip *)

Lemma true_positions_snoc flags v :
  true_positions (flags ++ [ v ])
  = true_positions flags ++ (if v : bool then [ Z.of_nat (length flags) ] else []).
Proof.
  unfold true_positions. rewrite imap_app, omap_app. simpl. rewrite Nat.add_0_r.
  by destruct v.
Qed.

Lemma valid_indices_prefix applet k :
  (k ≤ length (stock_valid applet))%nat →
  for_each (λ i valid_indices,
              v ← array_get (stock_valid applet) i;
              Some (if v : bool then valid_indices ++ [ i ] else valid_indices))
           (seqZ 0 (Z.of_nat k)) []
  = Some (true_positions (take k (stock_valid applet))).
Proof.
  induction k as [|k IH]; intros Hk; [done|].
  rewrite seqZ_S, for_each_app, IH by lia. cbn [mbind option_bind]. rewrite for_each_cons.
  destruct (lookup_lt_is_Some_2 (stock_valid applet) k) as [v Hv]; [lia|].
  assert (array_get (stock_valid applet) (0 + Z.of_nat k) = Some v) as ->.
  { apply array_get_Some. split; [lia|]. by rewrite Z.add_0_l, Nat2Z.id. }
  cbn [mbind option_bind for_each].
  rewrite (take_S_r _ _ _ Hv), true_positions_snoc, length_take, Nat.min_l by lia.
  destruct v; [done|by rewrite app_nil_r].
Qed.

(** X14.  [get_valid_stock_indices] returns the positions of the [TRUE]
    cells among the first [total_symbols] cells of [stock_valid], in
    ascending order; it faults exactly when [total_symbols] exceeds the
    length of that array. *)
Theorem valid_indices_are_true_positions applet :
  get_valid_stock_indices applet
  = if decide (total_symbols applet <= Z.of_nat (length (stock_valid applet)))
    then Some (true_positions (take (Z.to_nat (total_symbols applet)) (stock_valid applet)))
    else None.
Proof.
  unfold get_valid_stock_indices.
  destruct (decide (total_symbols applet <= Z.of_nat (length (stock_valid applet))))
    as [Hle|Hgt].
  - destruct (decide (total_symbols applet <= 0)) as [Hneg|Hpos].
    + rewrite seqZ_nil by done. replace (Z.to_nat (total_symbols applet)) with 0%nat by lia.
      done.
    + rewrite <- (Z2Nat.id (total_symbols applet)) at 1 by lia.
      apply valid_indices_prefix. lia.
  - apply (for_each_fault _ _ _ (Z.of_nat (length (stock_valid applet)))).
    + apply elem_of_seqZ. lia.
    + intros acc. rewrite (proj2 (array_get_None (stock_valid applet) _)); [done|lia].
Qed.

Lemma tooltip_prefix applet k :
  parallel_arrays applet →
  (k ≤ length (stock_symbols applet))%nat →
  for_each (λ i (acc : list TooltipLine * Z),
              let '(lines, valid_count) := acc in
              v ← array_get (stock_valid applet) i;
              sym ← array_get (stock_symbols applet) i;
              if v : bool then
                price ← array_get (stock_prices applet) i;
                change ← array_get (stock_changes applet) i;
                Some (lines ++ [ QuoteLine sym price change ], valid_count + 1)
              else Some (lines ++ [ NoDataLine sym ], valid_count))
           (seqZ 0 (Z.of_nat k)) ([], 0)
  = Some (imap (tooltip_line applet) (take k (stock_symbols applet)),
          Z.of_nat (length (true_positions (take k (stock_valid applet))))).
Proof.
  intros (Hs & Hp & Hc & Hv). induction k as [|k IH]; intros Hk; [done|].
  rewrite seqZ_S, for_each_app, IH by lia. cbn [mbind option_bind]. rewrite for_each_cons.
  destruct (lookup_lt_is_Some_2 (stock_valid applet) k) as [v Hvk]; [lia|].
  destruct (lookup_lt_is_Some_2 (stock_symbols applet) k) as [sym Hsk]; [lia|].
  destruct (lookup_lt_is_Some_2 (stock_prices applet) k) as [price Hpk]; [lia|].
  destruct (lookup_lt_is_Some_2 (stock_changes applet) k) as [change Hck]; [lia|].
  assert (∀ {A} (a : list A) x, a !! k = Some x → array_get a (0 + Z.of_nat k) = Some x)
    as Hget.
  { intros A a x Hx. apply array_get_Some. split; [lia|]. by rewrite Z.add_0_l, Nat2Z.id. }
  cbv beta iota.
  rewrite (Hget _ _ _ Hvk), (Hget _ _ _ Hsk). cbn [mbind option_bind].
  rewrite (take_S_r _ _ _ Hvk), (take_S_r _ _ _ Hsk), true_positions_snoc, imap_app.
  rewrite !length_take, !Nat.min_l by lia. simpl imap. rewrite Nat.add_0_r.
  assert (tooltip_line applet k sym
          = if v then QuoteLine sym price change else NoDataLine sym) as ->.
  { unfold tooltip_line. rewrite Hvk, Hpk, Hck. by destruct v. }
  destruct v.
  - rewrite (Hget _ _ _ Hpk), (Hget _ _ _ Hck). cbn [mbind option_bind for_each].
    by rewrite length_app, Nat2Z.inj_add.
  - cbn [for_each]. by rewrite app_nil_r.
Qed.

(** X15.  The tooltip of well-formed parallel arrays has one line per
    configured symbol, in order: the symbol with its price and change
    when its cell is valid, the symbol with "No data" otherwise.  When no
    cell is valid the tooltip is the message "No valid stock data"
    instead. *)
Theorem tooltip_lists_every_symbol applet :
  parallel_arrays applet →
  create_stock_tooltip applet
  = Some (if bool_decide (true_positions (stock_valid applet) = [])
          then TooltipMessage "No valid stock data"
          else PortfolioSummary (imap (tooltip_line applet) (stock_symbols applet))).
Proof.
  intros Hpar. pose proof Hpar as (Hs & Hp & Hc & Hv). unfold create_stock_tooltip.
  rewrite <- (Z2Nat.id (total_symbols applet)) by lia.
  rewrite (tooltip_prefix applet _ Hpar) by lia. cbn [mbind option_bind].
  rewrite !firstn_all2 by lia.
  destruct (true_positions (stock_valid applet)) as [|first others]; done.
Qed.

Lemma tooltip_lists_every_symbol_witness :
  create_stock_tooltip
    {| stock_summary := None; change_percent := 0; tooltip := None;
       pending_requests := 0; total_symbols := 3;
       stock_symbols := [ "IBM"; "AAPL"; "EURUSD=X" ];
       stock_prices := [ 110; 0; 1.25 ]%float;
       stock_changes := [ 10; 0; -0.5 ]%float;
       stock_valid := [ true; false; true ];
       cycle_position := 0; cycle_timer_armed := false |}
  = Some (PortfolioSummary
            [ QuoteLine "IBM" 110 10; NoDataLine "AAPL"; QuoteLine "EURUSD=X" 1.25 (-0.5) ]).
Proof.
  rewrite tooltip_lists_every_symbol; [reflexivity|].
  repeat split.
Defined.

(** ** The panel applet: the last completion of a round *)

Lemma get_valid_stock_indices_parallel applet :
  parallel_arrays applet →
  get_valid_stock_indices applet = Some (true_positions (stock_valid applet)).
Proof.
  intros (Hs & Hp & Hc & Hv). unfold get_valid_stock_indices.
  rewrite Hv, valid_indices_prefix by lia. by rewrite firstn_all.
Qed.

Lemma create_stock_tooltip_ext a b :
  total_symbols a = total_symbols b → stock_symbols a = stock_symbols b →
  stock_prices a = stock_prices b → stock_changes a = stock_changes b →
  stock_valid a = stock_valid b →
  create_stock_tooltip a = create_stock_tooltip b.
Proof. unfold create_stock_tooltip. by intros -> -> -> -> ->. Qed.

Lemma stock_store_step msg i applet :
  parallel_arrays applet → 0 <= i < total_symbols applet →
  ∃ a,
    (if negb (status_code msg =? SOUP_STATUS_OK) then Some applet
     else match response_json msg with
          | None => Some applet
          | Some root => parse_stock_json (json_node_get_object root) i applet
          end) = Some a
    ∧ parallel_arrays a
    ∧ stock_summary a = stock_summary applet
    ∧ change_percent a = change_percent applet
    ∧ tooltip a = tooltip applet
    ∧ pending_requests a = pending_requests applet
    ∧ total_symbols a = total_symbols applet
    ∧ stock_symbols a = stock_symbols applet
    ∧ cycle_position a = cycle_position applet
    ∧ cycle_timer_armed a = cycle_timer_armed applet.
Proof.
  intros Hpar Hi. rewrite stock_store_walk.
  destruct (positive_quote msg) as [[current previous]|]; [|by exists applet].
  pose proof Hpar as (Hs & Hp & Hc & Hv). unfold store_stock.
  rewrite !array_set_in_range by lia. cbn [mbind option_bind]. eexists. split; [done|].
  split_and!; try done.
  unfold parallel_arrays. simpl. by rewrite !length_insert.
Qed.

Lemma all_requests_done_spec a :
  parallel_arrays a → 0 < total_symbols a →
  ∃ a',
    all_requests_done a = Some a'
    ∧ parallel_arrays a'
    ∧ stock_symbols a' = stock_symbols a
    ∧ stock_prices a' = stock_prices a
    ∧ stock_changes a' = stock_changes a
    ∧ stock_valid a' = stock_valid a
    ∧ pending_requests a' = pending_requests a
    ∧ match true_positions (stock_valid a) with
      | [] => panel a' = Some (PanelMessage "No valid stock data", 0%float)
              ∧ tooltip a' = tooltip a
      | first :: others =>
          panel a' = panel_quote a first
          ∧ tooltip a' = create_stock_tooltip a
          ∧ cycle_position a' = 0
          ∧ cycle_timer_armed a' = bool_decide (others ≠ [])
      end.
Proof.
  intros Hpar Hpos. unfold all_requests_done.
  rewrite (proj2 (Z.ltb_lt _ _) Hpos).
  destruct (valid_indices_in_range (set_cycle 0 false a) Hpar) as (valid_indices & Hvi & Hrange).
  rewrite (get_valid_stock_indices_parallel (set_cycle 0 false a) Hpar) in Hvi |- *.
  cbn [stock_valid set_cycle] in Hvi |- *. injection Hvi as <-.
  cbn [mbind option_bind].
  destruct (true_positions (stock_valid a)) as [|first others].
  { eexists. split; [done|]. split_and!; done. }
  apply Forall_cons in Hrange as [Hfirst _]. cbn [total_symbols set_cycle] in Hfirst.
  pose proof Hpar as (Hs & Hp & Hc & Hv).
  unfold display_stock_at_index. cbn [total_symbols stock_symbols stock_prices
                                       stock_changes set_cycle].
  rewrite (proj2 (Z.ltb_ge _ _)) by lia. rewrite (proj2 (Z.leb_gt _ _)) by lia.
  rewrite (bool_decide_eq_false_2 (stock_symbols a = []))
    by (intros E; rewrite E in Hs; simpl in Hs; lia).
  cbn [orb].
  destruct (array_get_in_range (stock_symbols a) first) as [sym Hsym]; [lia|].
  destruct (array_get_in_range (stock_prices a) first) as [price Hprice]; [lia|].
  destruct (array_get_in_range (stock_changes a) first) as [change Hchange]; [lia|].
  rewrite Hsym, Hprice, Hchange. cbn [mbind option_bind].
  destruct (create_stock_tooltip_total a Hpar) as [t Ht].
  match goal with
  | |- context [create_stock_tooltip ?b] =>
      rewrite (create_stock_tooltip_ext b a) by (by destruct (bool_decide (others ≠ [])))
  end.
  rewrite Ht. cbn [mbind option_bind]. eexists. split; [done|].
  unfold panel, panel_quote. rewrite Hsym, Hprice, Hchange.
  destruct (bool_decide (others ≠ [])); split_and!; done.
Qed.

(** X16.  Take well-formed parallel arrays and a slot index inside them.
    A summary completion decrements the count of pending requests.
    Unless it is the last one pending, it leaves the panel text, the
    change, the tooltip and the cycling state untouched.  The last one
    shows the first valid stock (its symbol cut at the first ['='], its
    price and its change), sets the tooltip built from the arrays, rewinds
    the cycle and arms the cycle timer when a second stock is valid; when
    no stock is valid it shows "No valid stock data" and leaves the
    tooltip as it was. *)
Theorem panel_waits_for_last_completion msg i applet :
  parallel_arrays applet →
  0 <= i < total_symbols applet →
  ∃ applet',
    on_stock_data_received msg i applet = Some applet'
    ∧ pending_requests applet' = pending_requests applet - 1
    ∧ (pending_requests applet ≠ 1 →
       stock_summary applet' = stock_summary applet
       ∧ change_percent applet' = change_percent applet
       ∧ tooltip applet' = tooltip applet
       ∧ cycle_position applet' = cycle_position applet
       ∧ cycle_timer_armed applet' = cycle_timer_armed applet)
    ∧ (pending_requests applet = 1 →
       match true_positions (stock_valid applet') with
       | [] => panel applet' = Some (PanelMessage "No valid stock data", 0%float)
               ∧ tooltip applet' = tooltip applet
       | first :: others =>
           panel applet' = panel_quote applet' first
           ∧ tooltip applet' = create_stock_tooltip applet'
           ∧ cycle_position applet' = 0
           ∧ cycle_timer_armed applet' = bool_decide (others ≠ [])
       end).
Proof.
  intros Hpar Hi. unfold on_stock_data_received.
  destruct (stock_store_step msg i applet Hpar Hi)
    as (a & -> & Hpa & Hsum & Hch & Htip & Hpend & Htot & Hsym & Hpos & Harm).
  cbn [mbind option_bind]. cbv zeta. cbn [pending_requests set_pending].
  destruct (Z.eqb_spec (pending_requests a - 1) 0) as [Hlast|Hmore].
  - destruct (all_requests_done_spec (set_pending (pending_requests a - 1) a))
      as (a' & -> & Hpa' & Hs' & Hp' & Hc' & Hv' & Hpend' & Hshow); [done|simpl; lia|].
    cbn [stock_valid tooltip pending_requests set_pending] in Hv', Hpend', Hshow.
    exists a'. split; [done|]. split; [lia|]. split; [lia|]. intros _.
    rewrite Hv'. destruct (true_positions (stock_valid a)) as [|first others].
    + destruct Hshow as [? ?]. split; [done|congruence].
    + destruct Hshow as (Hpanel & Htool & ? & ?). split_and!; try done.
      * rewrite Hpanel. unfold panel_quote. simpl. by rewrite Hs', Hp', Hc'.
      * rewrite Htool. apply create_stock_tooltip_ext; simpl; try done.
        destruct Hpa' as (E1 & _), Hpa as (E2 & _). rewrite E1, Hs'. exact E2.
  - eexists. split; [done|]. simpl. split; [lia|]. split; [done|]. lia.
Qed.

Lemma panel_waits_witness :
  ∃ applet',
    on_stock_data_received (ibm_summary (JDouble 110) (JDouble 100)) 1
      {| stock_summary := None; change_percent := 0; tooltip := None;
         pending_requests := 1; total_symbols := 2;
         stock_symbols := [ "IBM"; "EURUSD=X" ];
         stock_prices := [ 0; 0 ]%float; stock_changes := [ 0; 0 ]%float;
         stock_valid := [ false; false ];
         cycle_position := 0; cycle_timer_armed := false |} = Some applet'
    ∧ pending_requests applet' = 0
    ∧ stock_summary applet' = Some (StockText "EURUSD" 110)
    ∧ cycle_timer_armed applet' = false.
Proof.
  destruct (panel_waits_for_last_completion (ibm_summary (JDouble 110) (JDouble 100)) 1
              {| stock_summary := None; change_percent := 0; tooltip := None;
                 pending_requests := 1; total_symbols := 2;
                 stock_symbols := [ "IBM"; "EURUSD=X" ];
                 stock_prices := [ 0; 0 ]%float; stock_changes := [ 0; 0 ]%float;
                 stock_valid := [ false; false ];
                 cycle_position := 0; cycle_timer_armed := false |})
    as (applet' & Hrun & Hpend & _ & _).
  - repeat split.
  - simpl. lia.
  - exists applet'. split; [exact Hrun|]. split; [exact Hpend|].
    assert (on_stock_data_received (ibm_summary (JDouble 110) (JDouble 100)) 1
              {| stock_summary := None; change_percent := 0; tooltip := None;
                 pending_requests := 1; total_symbols := 2;
                 stock_symbols := [ "IBM"; "EURUSD=X" ];
                 stock_prices := [ 0; 0 ]%float; stock_changes := [ 0; 0 ]%float;
                 stock_valid := [ false; false ];
                 cycle_position := 0; cycle_timer_armed := false |}
            = Some {| stock_summary := Some (StockText "EURUSD" 110); change_percent := 10;
                      tooltip := Some (PortfolioSummary
                                         [ NoDataLine "IBM"; QuoteLine "EURUSD=X" 110 10 ]);
                      pending_requests := 0; total_symbols := 2;
                      stock_symbols := [ "IBM"; "EURUSD=X" ];
                      stock_prices := [ 0; 110 ]%float; stock_changes := [ 0; 10 ]%float;
                      stock_valid := [ false; true ];
                      cycle_position := 0; cycle_timer_armed := false |}) as E
      by (vm_compute; reflexivity).
    rewrite E in Hrun. injection Hrun as <-. split; reflexivity.
Defined.

Lemma stock_completion_not_last msg i applet :
  parallel_arrays applet → 0 <= i < total_symbols applet →
  pending_requests applet ≠ 1 →
  ∃ applet',
    on_stock_data_received msg i applet = Some applet'
    ∧ parallel_arrays applet'
    ∧ total_symbols applet' = total_symbols applet
    ∧ stock_summary applet' = stock_summary applet
    ∧ tooltip applet' = tooltip applet
    ∧ pending_requests applet' = pending_requests applet - 1.
Proof.
  intros Hpar Hi Hne. unfold on_stock_data_received.
  destruct (stock_store_step msg i applet Hpar Hi)
    as (a & -> & Hpa & Hsum & Hch & Htip & Hpend & Htot & Hsym & Hpos & Harm).
  cbn [mbind option_bind]. cbv zeta. cbn [pending_requests set_pending].
  rewrite (proj2 (Z.eqb_neq _ _)) by lia.
  eexists. split; [done|]. simpl. split_and!; [done|done|done|done|lia].
Qed.

Lemma deliver_before_last completions applet :
  parallel_arrays applet →
  Forall (λ completion, 0 <= completion.2 < total_symbols applet) completions →
  Z.of_nat (length completions) < pending_requests applet →
  ∃ applet',
    Cycle.deliver completions applet = Some applet'
    ∧ stock_summary applet' = stock_summary applet
    ∧ tooltip applet' = tooltip applet
    ∧ pending_requests applet' = pending_requests applet - Z.of_nat (length completions).
Proof.
  unfold Cycle.deliver. revert applet.
  induction completions as [|[msg i] completions IH]; intros applet Hpar Hall Hlen.
  - exists applet. split_and!; [done|done|done|simpl; lia].
  - apply Forall_cons in Hall as [Hi Hall]. simpl in Hi, Hlen.
    destruct (stock_completion_not_last msg i applet Hpar Hi)
      as (a & Ha & Hpa & Htot & Hsum & Htip & Hpend); [lia|].
    rewrite for_each_cons. simpl. rewrite Ha. cbn [mbind option_bind].
    destruct (IH a) as (a' & -> & Hsum' & Htip' & Hpend'); [done|by rewrite Htot|lia|].
    exists a'. split; [done|]. rewrite Hsum', Htip', Hpend', Hsum, Htip, Hpend.
    split_and!; [done|done|]. simpl length. lia.
Qed.

(** X17.  After [invest_applet_update_stocks] has queued one request per
    configured symbol, the [stock_summary] string stays unset (NULL, as
    [free_stock_data] left it), the tooltip stays the one of the previous
    round and [pending_requests] counts the completions still awaited, for
    as long as fewer completions than symbols have been handled for slots
    of configured symbols, whatever the responses are and in whatever order
    they arrive.  The label widget is not part of the state: the code
    writes it in [update_applet_text] only, together with
    [stock_summary]. *)
Theorem summary_unset_until_all_requests_completed symbols applet0 completions :
  symbols ≠ [] →
  Forall (λ completion, 0 <= completion.2 < Z.of_nat (length symbols)) completions →
  (length completions < length symbols)%nat →
  ∃ applet',
    Cycle.deliver completions (invest_applet_update_stocks (Some symbols) applet0).1
    = Some applet'
    ∧ stock_summary applet' = None
    ∧ tooltip applet' = tooltip applet0
    ∧ pending_requests applet'
      = Z.of_nat (length symbols) - Z.of_nat (length completions).
Proof.
  intros Hne Hall Hlen. destruct symbols as [|sym symbols]; [done|].
  destruct (deliver_before_last completions
              (invest_applet_update_stocks (Some (sym :: symbols)) applet0).1)
    as (a' & Hd & Hsum & Htip & Hpend).
  - unfold parallel_arrays. cbn -[Z.of_nat]. rewrite !length_replicate. done.
  - exact Hall.
  - change (Z.of_nat (length completions) < Z.of_nat (length (sym :: symbols))). lia.
  - exists a'. split; [exact Hd|]. rewrite Hsum, Htip, Hpend. done.
Qed.

Lemma summary_unset_witness :
  ∃ applet',
    Cycle.deliver
      [ (ibm_summary (JDouble 110) (JDouble 100), 1); (failed_response 500, 0) ]
      (invest_applet_update_stocks (Some [ "IBM"; "AAPL"; "MSFT" ]%string)
         {| stock_summary := Some (PanelMessage "No stocks configured"); change_percent := 0;
            tooltip := None; pending_requests := 0; total_symbols := 0; stock_symbols := [];
            stock_prices := []; stock_changes := []; stock_valid := [];
            cycle_position := 0; cycle_timer_armed := false |}).1 = Some applet'
    ∧ stock_summary applet' = None
    ∧ pending_requests applet' = 1.
Proof.
  destruct (summary_unset_until_all_requests_completed [ "IBM"; "AAPL"; "MSFT" ]%string
              {| stock_summary := Some (PanelMessage "No stocks configured"); change_percent := 0;
                 tooltip := None; pending_requests := 0; total_symbols := 0;
                 stock_symbols := []; stock_prices := []; stock_changes := [];
                 stock_valid := []; cycle_position := 0; cycle_timer_armed := false |}
              [ (ibm_summary (JDouble 110) (JDouble 100), 1); (failed_response 500, 0) ])
    as (applet' & Hd & Hsum & _ & Hpend).
  - done.
  - apply Forall_cons. split; [simpl; lia|]. apply Forall_cons. split; [simpl; lia|].
    apply Forall_nil_2.
  - simpl. lia.
  - exists applet'. split; [exact Hd|]. split; [exact Hsum|]. exact Hpend.
Defined.

Lemma completion_tail a :
  parallel_arrays a → 0 < total_symbols a →
  ∃ a',
    (if pending_requests (set_pending (pending_requests a - 1) a) =? 0
     then all_requests_done (set_pending (pending_requests a - 1) a)
     else Some (set_pending (pending_requests a - 1) a)) = Some a'
    ∧ parallel_arrays a'
    ∧ total_symbols a' = total_symbols a
    ∧ stock_symbols a' = stock_symbols a
    ∧ stock_prices a' = stock_prices a
    ∧ stock_changes a' = stock_changes a
    ∧ stock_valid a' = stock_valid a
    ∧ pending_requests a' = pending_requests a - 1.
Proof.
  intros Hpar Hpos. cbn [pending_requests set_pending].
  destruct (pending_requests a - 1 =? 0).
  - destruct (all_requests_done_spec (set_pending (pending_requests a - 1) a))
      as (a' & -> & Hpa' & Hs' & Hp' & Hc' & Hv' & Hpend' & _); [done|done|].
    exists a'. split; [done|]. split_and!; try done.
    destruct Hpa' as (E1 & _), Hpar as (E2 & _). rewrite E1, Hs'. symmetry. exact E2.
  - eexists. split; [done|]. split_and!; done.
Qed.

Lemma stock_completion_cells msg i applet :
  parallel_arrays applet → 0 <= i < total_symbols applet →
  ∃ applet',
    on_stock_data_received msg i applet = Some applet'
    ∧ parallel_arrays applet'
    ∧ total_symbols applet' = total_symbols applet
    ∧ stock_symbols applet' = stock_symbols applet
    ∧ pending_requests applet' = pending_requests applet - 1
    ∧ ∀ j, quote_cell applet' j
           = if decide (j = Z.to_nat i) then quote_stored msg <$> quote_cell applet j
             else quote_cell applet j.
Proof.
  intros Hpar Hi. unfold on_stock_data_received. rewrite stock_store_walk.
  assert (∃ a, match positive_quote msg with
               | Some (current, previous) =>
                   store_stock i current ((current - previous) / previous * 100)%float applet
               | None => Some applet
               end = Some a
               ∧ parallel_arrays a
               ∧ total_symbols a = total_symbols applet
               ∧ stock_symbols a = stock_symbols applet
               ∧ pending_requests a = pending_requests applet
               ∧ ∀ j, quote_cell a j
                      = if decide (j = Z.to_nat i) then quote_stored msg <$> quote_cell applet j
                        else quote_cell applet j) as (a & -> & Hpa & Ht & Hs & Hpend & Hcells).
  { unfold quote_stored. destruct (positive_quote msg) as [[current previous]|].
    - destruct (store_stock_in_range i current ((current - previous) / previous * 100)%float
                  applet Hpar Hi) as (a & -> & Hp1 & Hc1 & Hv1 & Hs1 & Ht1 & Hpend1).
      pose proof Hpar as (Hs & Hp & Hc & Hv).
      exists a. split; [done|]. split_and!; try done.
      + unfold parallel_arrays. rewrite Hs1, Hp1, Hc1, Hv1, Ht1, !length_insert. done.
      + intros j. unfold quote_cell. rewrite Hp1, Hc1, Hv1.
        destruct (decide (j = Z.to_nat i)) as [->|Hne].
        * rewrite !list_lookup_insert_eq by lia.
          destruct (lookup_lt_is_Some_2 (stock_prices applet) (Z.to_nat i)) as [? ->]; [lia|].
          destruct (lookup_lt_is_Some_2 (stock_changes applet) (Z.to_nat i)) as [? ->]; [lia|].
          destruct (lookup_lt_is_Some_2 (stock_valid applet) (Z.to_nat i)) as [? ->]; [lia|].
          done.
        * by rewrite !list_lookup_insert_ne by done.
    - exists applet. split; [done|]. split_and!; try done.
      intros j. destruct (decide _); [|done]. by destruct (quote_cell applet j). }
  cbn [mbind option_bind]. cbv zeta.
  destruct (completion_tail a Hpa) as (a' & -> & Hpa' & Ht' & Hs' & Hp' & Hc' & Hv' & Hpend');
    [lia|].
  exists a'. split; [done|]. split_and!; [done|congruence|congruence|lia|].
  intros j. rewrite <- Hcells. unfold quote_cell. by rewrite Hp', Hc', Hv'.
Qed.

Lemma deliver_cells completions applet :
  parallel_arrays applet →
  Forall (λ completion, 0 <= completion.2 < total_symbols applet) completions →
  ∃ applet',
    Cycle.deliver completions applet = Some applet'
    ∧ parallel_arrays applet'
    ∧ total_symbols applet' = total_symbols applet
    ∧ stock_symbols applet' = stock_symbols applet
    ∧ pending_requests applet' = pending_requests applet - Z.of_nat (length completions)
    ∧ ∀ j, quote_cell applet' j
           = (λ cell, foldl (λ cell msg, quote_stored msg cell) cell
                            (responses_for j completions)) <$> quote_cell applet j.
Proof.
  unfold Cycle.deliver. revert applet.
  induction completions as [|[msg i] completions IH]; intros applet Hpar Hall.
  - exists applet. split_and!; [done|done|done|done|simpl; lia|].
    intros j. by destruct (quote_cell applet j).
  - apply Forall_cons in Hall as [Hi Hall]. simpl in Hi.
    destruct (stock_completion_cells msg i applet Hpar Hi)
      as (a & Ha & Hpa & Ht & Hs & Hpend & Hcells).
    rewrite for_each_cons. simpl. rewrite Ha. cbn [mbind option_bind].
    destruct (IH a) as (a' & -> & Hpa' & Ht' & Hs' & Hpend' & Hcells');
      [done|by rewrite Ht|].
    exists a'. split; [done|]. split_and!; [done|congruence|congruence| |].
    + rewrite Hpend', Hpend. simpl length. lia.
    + intros j. rewrite Hcells', Hcells, responses_for_cons.
      destruct (decide (j = Z.to_nat i)) as [->|Hne].
      * rewrite decide_True by lia. by destruct (quote_cell applet (Z.to_nat i)).
      * by rewrite decide_False by lia.
Qed.

(** X18.  A whole round: after [invest_applet_update_stocks] has queued
    one request per configured symbol, as many completions as symbols are
    handled, for slots of configured symbols and in any order.  None faults, no request is pending any more,
    and cell [j] holds what the responses for [j] made of an empty cell:
    the quote and the change of the last response for [j] that had two
    positive prices, and the valid mark iff there was one.  The panel then
    shows the first valid stock, with the cycle timer armed iff a second
    one is valid, or "No valid stock data" when none is. *)
Theorem summary_round symbols applet0 completions :
  symbols ≠ [] →
  Forall (λ completion, 0 <= completion.2 < Z.of_nat (length symbols)) completions →
  length completions = length symbols →
  ∃ applet',
    Cycle.deliver completions (invest_applet_update_stocks (Some symbols) applet0).1
    = Some applet'
    ∧ pending_requests applet' = 0
    ∧ stock_symbols applet' = symbols
    ∧ (∀ j, (j < length symbols)%nat →
         quote_cell applet' j
         = Some (foldl (λ cell msg, quote_stored msg cell) (0%float, 0%float, false)
                       (responses_for j completions)))
    ∧ match true_positions (stock_valid applet') with
      | [] => panel applet' = Some (PanelMessage "No valid stock data", 0%float)
      | first :: others =>
          panel applet' = panel_quote applet' first
          ∧ cycle_position applet' = 0
          ∧ cycle_timer_armed applet' = bool_decide (others ≠ [])
      end.
Proof.
  intros Hne Hall Hlen. destruct symbols as [|sym symbols]; [done|].
  set (applet := (invest_applet_update_stocks (Some (sym :: symbols)) applet0).1).
  assert (parallel_arrays applet) as Hpar.
  { unfold parallel_arrays, applet. cbn -[Z.of_nat]. rewrite !length_replicate. done. }
  assert (total_symbols applet = Z.of_nat (length (sym :: symbols))) as Htotal by done.
  assert (pending_requests applet = Z.of_nat (length (sym :: symbols))) as Hpending by done.
  assert (stock_symbols applet = sym :: symbols) as Hsymbols by done.
  assert (∀ j, (j < length (sym :: symbols))%nat →
               quote_cell applet j = Some (0%float, 0%float, false)) as Hempty.
  { intros j Hj. unfold quote_cell, applet. cbn -[replicate lookup].
    change (S (length symbols)) with (length (sym :: symbols)).
    by rewrite !lookup_replicate_2 by done. }
  rewrite <- Htotal in Hall.
  destruct (deliver_cells completions applet Hpar Hall)
    as (a' & Hd & Hpa' & Ht' & Hs' & Hpend' & Hcells').
  exists a'. split; [done|].
  split; [lia|]. split; [congruence|]. split.
  { intros j Hj. by rewrite Hcells', (Hempty j Hj). }
  destruct (@exists_last _ completions) as (earlier & [msg i] & Heq).
  { intros ->. simpl in Hlen. lia. }
  subst completions. rewrite length_app in Hlen. cbn [length] in Hlen, Hpending.
  apply Forall_app in Hall as [Hearlier [Hi _]%Forall_cons]. cbn [snd] in Hi.
  destruct (deliver_cells earlier applet Hpar Hearlier)
    as (a1 & Hd1 & Hpa1 & Ht1 & Hs1 & Hpend1 & _).
  unfold Cycle.deliver in Hd, Hd1. rewrite for_each_app, Hd1 in Hd.
  cbn [mbind option_bind] in Hd. rewrite for_each_cons in Hd. simpl in Hd.
  unfold on_stock_data_received in Hd.
  destruct (stock_store_step msg i a1 Hpa1) as (a2 & Hstore & Hpa2 & _ & _ & _ & Hpend2 & Ht2 & _);
    [lia|].
  rewrite Hstore in Hd. cbn [mbind option_bind] in Hd. cbv zeta in Hd.
  cbn [pending_requests set_pending] in Hd.
  assert (pending_requests a2 - 1 = 0) as Hlast by lia.
  rewrite Hlast in Hd. cbn [Z.eqb] in Hd.
  destruct (all_requests_done_spec (set_pending 0 a2))
    as (a3 & Hdone & Hpa3 & Hs3 & Hp3 & Hc3 & Hv3 & _ & Hshow); [done|simpl; lia|].
  rewrite Hdone in Hd. cbn [mbind option_bind for_each] in Hd. injection Hd as <-.
  cbn [stock_valid set_pending] in Hv3, Hshow. rewrite Hv3.
  destruct (true_positions (stock_valid a2)) as [|first others].
  - by destruct Hshow.
  - destruct Hshow as (Hpanel & _ & ? & ?). split_and!; [|done|done].
    rewrite Hpanel. unfold panel_quote. simpl. by rewrite Hs3, Hp3, Hc3.
Qed.

Lemma summary_round_witness :
  ∃ applet',
    Cycle.deliver
      [ (ibm_summary (JDouble 110) (JDouble 100), 1); (failed_response 500, 0) ]
      (invest_applet_update_stocks (Some [ "IBM"; "EURUSD=X" ]%string)
         {| stock_summary := None; change_percent := 0; tooltip := None;
            pending_requests := 0; total_symbols := 0; stock_symbols := [];
            stock_prices := []; stock_changes := []; stock_valid := [];
            cycle_position := 0; cycle_timer_armed := false |}).1 = Some applet'
    ∧ pending_requests applet' = 0
    ∧ quote_cell applet' 0 = Some (0%float, 0%float, false)
    ∧ quote_cell applet' 1 = Some (110%float, 10%float, true).
Proof.
  destruct (summary_round [ "IBM"; "EURUSD=X" ]%string
              {| stock_summary := None; change_percent := 0; tooltip := None;
                 pending_requests := 0; total_symbols := 0; stock_symbols := [];
                 stock_prices := []; stock_changes := []; stock_valid := [];
                 cycle_position := 0; cycle_timer_armed := false |}
              [ (ibm_summary (JDouble 110) (JDouble 100), 1); (failed_response 500, 0) ])
    as (applet' & Hd & Hpend & _ & Hcells & _).
  - done.
  - apply Forall_cons. split; [simpl; lia|]. apply Forall_cons. split; [simpl; lia|].
    apply Forall_nil_2.
  - reflexivity.
  - exists applet'. split; [exact Hd|]. split; [exact Hpend|]. split.
    + rewrite (Hcells 0%nat) by (simpl; lia). vm_compute. reflexivity.
    + rewrite (Hcells 1%nat) by (simpl; lia). vm_compute. reflexivity.
Defined.

(** ** The panel applet: the text shown for a stock, and cycling *)

Lemma before_equals_spec sym :
  has_equals (before_equals sym) = false
  ∧ if has_equals sym then ∃ rest, sym = (before_equals sym ++ "=" ++ rest)%string
    else before_equals sym = sym.
Proof.
  induction sym as [|c sym [IH1 IH2]]; [done|]. simpl.
  destruct (Ascii.eqb_spec c (Ascii.ascii_of_nat 61)) as [->|Hc]; simpl.
  - split; [done|]. by exists sym.
  - rewrite (proj2 (Ascii.eqb_neq _ _) Hc). simpl. split; [done|].
    destruct (has_equals sym).
    + destruct IH2 as [rest IH2]. exists rest.
      change (String c sym = String c (before_equals sym ++ "=" ++ rest)%string).
      f_equal. exact IH2.
    + by rewrite IH2.
Qed.

(** X19.  For a cell inside the arrays, [display_stock_at_index] shows
    the price and the change of the cell under the symbol cut before its
    first ['=']: the text shown has no ['='], it is the whole symbol when
    the symbol has none, and otherwise the symbol is the text shown, an
    ['='] and a rest. *)
Theorem display_cuts_symbol_at_first_equals i applet sym price change :
  0 <= i < total_symbols applet →
  array_get (stock_symbols applet) i = Some sym →
  array_get (stock_prices applet) i = Some price →
  array_get (stock_changes applet) i = Some change →
  ∃ shown,
    display_stock_at_index i applet
    = Some (update_applet_text (StockText shown price) change applet)
    ∧ has_equals shown = false
    ∧ if has_equals sym then ∃ rest, sym = (shown ++ "=" ++ rest)%string else shown = sym.
Proof.
  intros Hi Hsym Hprice Hchange. exists (before_equals sym).
  split; [|apply before_equals_spec].
  unfold display_stock_at_index.
  rewrite (proj2 (Z.ltb_ge _ _)) by lia. rewrite (proj2 (Z.leb_gt _ _)) by lia.
  rewrite bool_decide_eq_false_2.
  - by rewrite Hsym, Hprice, Hchange.
  - intros E. rewrite E in Hsym. unfold array_get in Hsym. by destruct (i <? 0).
Qed.

Lemma display_cuts_symbol_witness :
  ∃ shown,
    display_stock_at_index 1
      {| stock_summary := None; change_percent := 0; tooltip := None;
         pending_requests := 0; total_symbols := 2;
         stock_symbols := [ "IBM"; "EURUSD=X" ];
         stock_prices := [ 110; 1.25 ]%float; stock_changes := [ 10; -0.5 ]%float;
         stock_valid := [ true; true ];
         cycle_position := 0; cycle_timer_armed := false |}
    = Some {| stock_summary := Some (StockText shown 1.25); change_percent := -0.5;
              tooltip := None; pending_requests := 0; total_symbols := 2;
              stock_symbols := [ "IBM"; "EURUSD=X" ];
              stock_prices := [ 110; 1.25 ]%float; stock_changes := [ 10; -0.5 ]%float;
              stock_valid := [ true; true ];
              cycle_position := 0; cycle_timer_armed := false |}
    ∧ has_equals shown = false
    ∧ ∃ rest, "EURUSD=X"%string = (shown ++ "=" ++ rest)%string.
Proof.
  destruct (display_cuts_symbol_at_first_equals 1
              {| stock_summary := None; change_percent := 0; tooltip := None;
                 pending_requests := 0; total_symbols := 2;
                 stock_symbols := [ "IBM"; "EURUSD=X" ];
                 stock_prices := [ 110; 1.25 ]%float; stock_changes := [ 10; -0.5 ]%float;
                 stock_valid := [ true; true ];
                 cycle_position := 0; cycle_timer_armed := false |}
              "EURUSD=X" 1.25 (-0.5)) as (shown & H1 & H2 & H3);
    [simpl; lia|reflexivity|reflexivity|reflexivity|].
  exists shown. split; [exact H1|]. split; [exact H2|exact H3].
Defined.

Lemma display_stock_panel i applet :
  parallel_arrays applet → 0 <= i < total_symbols applet →
  ∃ text change,
    panel_quote applet i = Some (text, change)
    ∧ display_stock_at_index i applet = Some (update_applet_text text change applet).
Proof.
  intros (Hs & Hp & Hc & Hv) Hi. unfold display_stock_at_index, panel_quote.
  rewrite (proj2 (Z.ltb_ge _ _)) by lia. rewrite (proj2 (Z.leb_gt _ _)) by lia.
  rewrite bool_decide_eq_false_2 by (intros E; rewrite E in Hs; simpl in Hs; lia).
  destruct (array_get_in_range (stock_symbols applet) i) as [sym ->]; [lia|].
  destruct (array_get_in_range (stock_prices applet) i) as [price ->]; [lia|].
  destruct (array_get_in_range (stock_changes applet) i) as [change ->]; [lia|].
  simpl. by eexists _, _.
Qed.

Lemma cycle_step applet :
  parallel_arrays applet →
  (2 ≤ length (true_positions (stock_valid applet)))%nat →
  0 <= cycle_position applet < Z.of_nat (length (true_positions (stock_valid applet))) →
  ∃ applet' shown,
    Cycle.invest_applet_cycle_stocks applet = Some (applet', true)
    ∧ total_symbols applet' = total_symbols applet
    ∧ stock_symbols applet' = stock_symbols applet
    ∧ stock_prices applet' = stock_prices applet
    ∧ stock_changes applet' = stock_changes applet
    ∧ stock_valid applet' = stock_valid applet
    ∧ cycle_position applet'
      = (cycle_position applet + 1) mod Z.of_nat (length (true_positions (stock_valid applet)))
    ∧ array_get (true_positions (stock_valid applet)) (cycle_position applet') = Some shown
    ∧ panel applet' = panel_quote applet shown.
Proof.
  intros Hpar Hlen Hpos.
  destruct (valid_indices_in_range applet Hpar) as (valid_indices & Hvi & Hrange).
  rewrite (get_valid_stock_indices_parallel applet Hpar) in Hvi. injection Hvi as <-.
  unfold Cycle.invest_applet_cycle_stocks.
  rewrite (get_valid_stock_indices_parallel applet Hpar). cbn [mbind option_bind].
  set (valids := true_positions (stock_valid applet)) in *.
  assert (0 < total_symbols applet) as Htotal.
  { destruct valids as [|first others]; [simpl in Hlen; lia|].
    apply Forall_cons in Hrange as [? _]. lia. }
  rewrite (proj2 (Z.eqb_neq _ _)) by lia. cbv zeta.
  rewrite (proj2 (Z.eqb_neq (Z.of_nat (length valids)) 0)) by lia.
  rewrite (proj2 (Z.eqb_neq (Z.of_nat (length valids)) 1)) by lia.
  cbn [cycle_position set_cycle].
  rewrite Z.rem_mod_nonneg by lia.
  pose proof (Z.mod_pos_bound (cycle_position applet + 1) (Z.of_nat (length valids))) as Hb.
  destruct (array_get_in_range valids
              ((cycle_position applet + 1) mod Z.of_nat (length valids))) as [shown Hshown];
    [lia|].
  rewrite Hshown. cbn [mbind option_bind].
  assert (0 <= shown < total_symbols applet) as Hin.
  { rewrite Forall_forall in Hrange. apply Hrange.
    apply array_get_Some in Hshown as [_ Hshown]. by eapply list_elem_of_lookup_2. }
  match goal with
  | |- context [display_stock_at_index shown ?a] =>
      destruct (display_stock_panel shown a) as (text & change & Hquote & ->); [done|done|]
  end.
  cbn [mbind option_bind]. eexists _, shown. split; [done|].
  split_and!; try done.
Qed.

(** X20.  Take well-formed parallel arrays.  While at least two stocks
    are valid and the cycle position is
    one of theirs, every tick of the cycle timer keeps the timer, leaves
    the arrays alone and moves one valid stock further, wrapping around:
    after [n] ticks the position has advanced by [n] modulo the number of
    valid stocks, and the panel shows the valid stock at that position.
    So every valid stock is shown once in each round, and none that is not
    valid. *)
Theorem cycling_shows_valid_stocks_in_turn n applet :
  parallel_arrays applet →
  (2 ≤ length (true_positions (stock_valid applet)))%nat →
  0 <= cycle_position applet < Z.of_nat (length (true_positions (stock_valid applet))) →
  ∃ applet' shown,
    Cycle.cycle_ticks (S n) applet = Some applet'
    ∧ stock_valid applet' = stock_valid applet
    ∧ cycle_position applet'
      = (cycle_position applet + Z.of_nat (S n))
          mod Z.of_nat (length (true_positions (stock_valid applet)))
    ∧ array_get (true_positions (stock_valid applet)) (cycle_position applet') = Some shown
    ∧ panel applet' = panel_quote applet shown.
Proof.
  revert applet. induction n as [|n IH]; intros applet Hpar Hlen Hpos.
  - destruct (cycle_step applet Hpar Hlen Hpos)
      as (a & shown & Hstep & _ & _ & _ & _ & Hv & Hp & Hshown & Hpanel).
    exists a, shown. simpl. rewrite Hstep. done.
  - destruct (cycle_step applet Hpar Hlen Hpos)
      as (a & shown & Hstep & Ht & Hs & Hpr & Hc & Hv & Hp & Hshown & Hpanel).
    pose proof (Z.mod_pos_bound (cycle_position applet + 1)
                  (Z.of_nat (length (true_positions (stock_valid applet))))) as Hb.
    destruct (IH a) as (a' & shown' & Hticks & Hv' & Hp' & Hshown' & Hpanel').
    + destruct Hpar as (? & ? & ? & ?). unfold parallel_arrays.
      by rewrite Ht, Hs, Hpr, Hc, Hv.
    + by rewrite Hv.
    + rewrite Hv, Hp. lia.
    + exists a', shown'.
      change (Cycle.cycle_ticks (S (S n)) applet)
        with (r ← Cycle.invest_applet_cycle_stocks applet;
              if r.2 : bool then Cycle.cycle_ticks (S n) r.1 else Some r.1).
      rewrite Hstep. cbn [mbind option_bind fst snd]. split; [exact Hticks|].
      rewrite Hv in Hv', Hp', Hshown'. split_and!; [done| |done|].
      * rewrite Hp', Hp, Zplus_mod_idemp_l. f_equal. lia.
      * rewrite Hpanel'. unfold panel_quote. by rewrite Hs, Hpr, Hc.
Qed.

Lemma cycling_witness :
  ∃ applet' shown,
    Cycle.cycle_ticks 3
      {| stock_summary := Some (StockText "IBM" 110); change_percent := 10; tooltip := None;
         pending_requests := 0; total_symbols := 3;
         stock_symbols := [ "IBM"; "AAPL"; "EURUSD=X" ];
         stock_prices := [ 110; 0; 1.25 ]%float; stock_changes := [ 10; 0; -0.5 ]%float;
         stock_valid := [ true; false; true ];
         cycle_position := 0; cycle_timer_armed := true |} = Some applet'
    ∧ cycle_position applet' = 1
    ∧ array_get [ 0; 2 ] (cycle_position applet') = Some shown
    ∧ panel applet' = Some (StockText "EURUSD" 1.25, (-0.5)%float).
Proof.
  destruct (cycling_shows_valid_stocks_in_turn 2
              {| stock_summary := Some (StockText "IBM" 110); change_percent := 10;
                 tooltip := None; pending_requests := 0; total_symbols := 3;
                 stock_symbols := [ "IBM"; "AAPL"; "EURUSD=X" ];
                 stock_prices := [ 110; 0; 1.25 ]%float; stock_changes := [ 10; 0; -0.5 ]%float;
                 stock_valid := [ true; false; true ];
                 cycle_position := 0; cycle_timer_armed := true |})
    as (applet' & shown & Hticks & _ & Hp & Hshown & Hpanel).
  - repeat split.
  - simpl. lia.
  - simpl. lia.
  - exists applet', shown. split; [exact Hticks|]. split; [exact Hp|].
    split; [exact Hshown|]. rewrite Hpanel.
    rewrite Hp in Hshown. vm_compute in Hshown. injection Hshown as <-. reflexivity.
Defined.

(** X21.  With well-formed arrays for at least one symbol and fewer than
    two valid stocks there is nothing to cycle through.  When exactly one
    stock is valid, a tick changes nothing and removes the timer; when
    none is, a tick shows "No valid stock data" and keeps the timer.  A
    press of the first mouse button does what a tick does and is reported
    as handled; any other button, or another event type, changes
    nothing and is not. *)
Theorem cycling_with_fewer_than_two_valid_stocks applet :
  parallel_arrays applet →
  0 < total_symbols applet →
  (length (true_positions (stock_valid applet)) < 2)%nat →
  let ticked :=
    if bool_decide (true_positions (stock_valid applet) = [])
    then update_applet_text (PanelMessage "No valid stock data") 0 applet
    else applet in
  Cycle.invest_applet_cycle_stocks applet
  = Some (ticked, bool_decide (true_positions (stock_valid applet) = []))
  ∧ Cycle.invest_applet_button_press 1 true applet = Some (ticked, true)
  ∧ (∀ button is_press, button ≠ 1 ∨ is_press = false →
       Cycle.invest_applet_button_press button is_press applet = Some (applet, false)).
Proof.
  intros Hpar Htotal Hlen. cbv zeta.
  assert (Cycle.invest_applet_cycle_stocks applet
          = Some (if bool_decide (true_positions (stock_valid applet) = [])
                  then update_applet_text (PanelMessage "No valid stock data") 0 applet
                  else applet,
                  bool_decide (true_positions (stock_valid applet) = []))) as Htick.
  { unfold Cycle.invest_applet_cycle_stocks.
    rewrite (proj2 (Z.eqb_neq _ _)) by lia.
    rewrite (get_valid_stock_indices_parallel applet Hpar). cbn [mbind option_bind].
    destruct (true_positions (stock_valid applet)) as [|first [|second others]];
      [done|done|simpl in Hlen; lia]. }
  split; [exact Htick|]. split.
  - unfold Cycle.invest_applet_button_press. by rewrite Htick.
  - intros button is_press Hother. unfold Cycle.invest_applet_button_press.
    destruct Hother as [Hb| ->].
    + by rewrite (proj2 (Z.eqb_neq _ _) Hb).
    + by rewrite andb_false_r.
Qed.

Lemma cycling_single_stock_witness :
  Cycle.invest_applet_cycle_stocks
    {| stock_summary := Some (StockText "IBM" 110); change_percent := 10; tooltip := None;
       pending_requests := 0; total_symbols := 2;
       stock_symbols := [ "IBM"; "AAPL" ];
       stock_prices := [ 110; 0 ]%float; stock_changes := [ 10; 0 ]%float;
       stock_valid := [ true; false ];
       cycle_position := 0; cycle_timer_armed := false |}
  = Some ({| stock_summary := Some (StockText "IBM" 110); change_percent := 10;
             tooltip := None; pending_requests := 0; total_symbols := 2;
             stock_symbols := [ "IBM"; "AAPL" ];
             stock_prices := [ 110; 0 ]%float; stock_changes := [ 10; 0 ]%float;
             stock_valid := [ true; false ];
             cycle_position := 0; cycle_timer_armed := false |}, false).
Proof.
  destruct (cycling_with_fewer_than_two_valid_stocks
              {| stock_summary := Some (StockText "IBM" 110); change_percent := 10;
                 tooltip := None; pending_requests := 0; total_symbols := 2;
                 stock_symbols := [ "IBM"; "AAPL" ];
                 stock_prices := [ 110; 0 ]%float; stock_changes := [ 10; 0 ]%float;
                 stock_valid := [ true; false ];
                 cycle_position := 0; cycle_timer_armed := false |})
    as (H & _); [repeat split|simpl; lia|simpl; lia|exact H].
Defined.

(** X22.  The Escape key hides the chart window and is reported as
    handled; any other key changes nothing and is not.  Once the window
    is hidden, a refresh issues no request and changes nothing, and a
    completion that still arrives requests no redraw. *)
Theorem escape_hides_the_chart settings chart :
  let hidden := (ChartWindow.chart_window_key_press ChartWindow.GDK_KEY_Escape chart).1 in
  (ChartWindow.chart_window_key_press ChartWindow.GDK_KEY_Escape chart).2 = true
  ∧ ChartWindow.invest_chart_is_visible (Some hidden) = false
  ∧ chart_data hidden = chart_data chart
  ∧ ChartWindow.invest_chart_refresh_data settings hidden = (hidden, [])
  ∧ (∀ msg i chart', on_chart_data_received msg i hidden = Some chart' →
       redraws_queued chart' = redraws_queued chart ∧ window_visible chart' = false)
  ∧ (∀ keyval, keyval ≠ ChartWindow.GDK_KEY_Escape →
       ChartWindow.chart_window_key_press keyval chart = (chart, false)).
Proof.
  cbv zeta. split_and!; try done.
  - intros msg i chart' H. simpl in H.
    apply handler_result in H as [(_ & _ & ->)|(slot & _ & ->)]; done.
  - intros keyval Hk. unfold ChartWindow.chart_window_key_press.
    by rewrite (proj2 (Z.eqb_neq _ _) Hk).
Qed.

(** ** The requests of a chart fetch *)

(** X23.  A chart fetch for a non-empty symbol list queues one request
    per symbol and allocates one slot per symbol.  The request for the
    [i]-th symbol carries the slot index [i], the browser user agent and
    the URL of the chart endpoint for that symbol with the interval and
    the range of the chart (["1m"] and ["1d"] when they are not set), and
    slot [i] is the empty, not yet valid series of that symbol. *)
Theorem fetch_queues_one_request_per_symbol symbols chart i sym :
  symbols !! i = Some sym →
  length (fetch_chart_data (Some symbols) chart).2 = length symbols
  ∧ length (chart_data (fetch_chart_data (Some symbols) chart).1) = length symbols
  ∧ (fetch_chart_data (Some symbols) chart).2 !! i
    = Some {| Chart.req_url :=
                chart_url sym (default "1m"%string (chart_interval chart))
                  (default "1d"%string (chart_range chart));
              Chart.req_user_agent := user_agent;
              Chart.req_symbol_index := Z.of_nat i |}
  ∧ array_get (chart_data (fetch_chart_data (Some symbols) chart).1) (Z.of_nat i)
    = Some (empty_series sym).
Proof.
  intros Hsym.
  assert (symbols ≠ []) as Hne by (intros ->; done).
  rewrite (fetch_chart_data_slots symbols chart Hne).
  destruct symbols as [|s symbols]; [done|].
  unfold fetch_chart_data. cbn [fst snd].
  match goal with
  | |- context [queue_draw_if_visible ?c] =>
      destruct (queue_draw_fields c) as (_ & -> & -> & _)
  end.
  assert (chart_range (free_chart_data chart) = chart_range chart
          ∧ chart_interval (free_chart_data chart) = chart_interval chart) as [Hr Hi].
  { unfold free_chart_data. by destruct (chart_data chart). }
  cbn [chart_range chart_interval with_chart_data]. rewrite Hr, Hi.
  split_and!.
  - by rewrite length_imap.
  - by rewrite length_fmap.
  - by rewrite list_lookup_imap, Hsym.
  - apply array_get_Some. split; [lia|]. by rewrite Nat2Z.id, list_lookup_fmap, Hsym.
Qed.

Lemma fetch_queues_witness :
  (fetch_chart_data (Some [ "IBM"; "EURUSD=X" ]%string) three_series).2 !! 1%nat
  = Some {| Chart.req_url :=
              "https://query2.finance.yahoo.com/v8/finance/chart/EURUSD=X?interval=1m&range=1d";
            Chart.req_user_agent := "Mozilla/5.0 (X11; Linux x86_64) AppleWebKit/537.36";
            Chart.req_symbol_index := 1 |}
  ∧ array_get (chart_data (fetch_chart_data (Some [ "IBM"; "EURUSD=X" ]%string)
                             three_series).1) 1
    = Some (empty_series "EURUSD=X").
Proof.
  destruct (fetch_queues_one_request_per_symbol [ "IBM"; "EURUSD=X" ]%string three_series
              1 "EURUSD=X" eq_refl) as (_ & _ & Hreq & Hslot).
  split; [exact Hreq|exact Hslot].
Defined.
